(** * peer-node: the wire protocol and connection engine of [src/index.js]

    A shallow embedding of the classes [Host], [Peer] and [Node]:
    - Node.js buffers are lists of bytes ([Byte.byte]); offsets, lengths and
      cursors are JavaScript numbers, here [Z];
    - JavaScript strings are lists of UTF-16 code units;
    - a method that mutates [this] takes the object and returns the new one,
      together with the log of what it did to the outside (notifications
      emitted, sockets opened, bytes written) and how it completed
      (normally, or with an exception escaping);
    - of an EventEmitter is kept what [emit('error')] depends on: whether a
      listener of 'error' is attached, and whether the listeners return;
    - [crypto]'s HMAC-SHA256 is written out (FIPS 180-4, RFC 2104); the RSA
      transforms, UTF-8 decoding and [net.isIP] are parameters. *)

From Stdlib Require Import String Ascii ZArith NArith List Bool Lia.
From Stdlib.Strings Require Import Byte.
Import ListNotations.
Open Scope Z_scope.

(** ** JavaScript strings *)

Definition jsstring := list Z.

(** A string literal, as its code units (the literals used are ASCII). *)
Definition str (s : string) : jsstring :=
  map (fun c => Z.of_N (N_of_ascii c)) (list_ascii_of_string s).
Arguments str s%_string.

Fixpoint jsstring_eqb (a b : jsstring) : bool :=
  match a, b with
  | [], [] => true
  | x :: a', y :: b' => (x =? y) && jsstring_eqb a' b'
  | _, _ => false
  end.

Fixpoint startsWith (needle hay : jsstring) : bool :=
  match needle, hay with
  | [], _ => true
  | x :: needle', y :: hay' => (x =? y) && startsWith needle' hay'
  | _ :: _, [] => false
  end.

(** [hay.includes(needle)] *)
Fixpoint includes (hay needle : jsstring) : bool :=
  startsWith needle hay ||
  match hay with
  | [] => false
  | _ :: hay' => includes hay' needle
  end.

(** ** Buffers *)

Definition byte := Byte.byte.
Definition Buffer := list byte.

(** The value of a byte, and the byte of a value (its low eight bits). *)
Definition u8 (b : byte) : Z := Z.of_N (Byte.to_N b).

Definition byte_of (z : Z) : byte :=
  match Byte.of_N (Z.to_N (z mod 256)) with
  | Some b => b
  | None => x00
  end.

Definition blength (b : Buffer) : Z := Z.of_nat (length b).

(** [Buffer.alloc(size)]: zero-filled; a negative size is a RangeError. *)
Definition Buffer_alloc (size : Z) : option Buffer :=
  if size <? 0 then None else Some (repeat x00 (Z.to_nat size)).

(** [buf.slice(start, end)], for [0 <= start]; [end] is clamped to the length. *)
Definition Buffer_slice (b : Buffer) (start end_ : Z) : Buffer :=
  firstn (Z.to_nat (end_ - start)) (skipn (Z.to_nat start) b).

(** [source.copy(target, targetStart, sourceStart, sourceEnd)]: the target
    after the copy.  As many bytes are copied as fit in the target; the source
    bytes are read before any is written (the copy may be within one buffer).
    Every call of the program has [0 <= targetStart] and
    [0 <= sourceStart <= source.length], for which Node raises nothing. *)
Definition Buffer_copy (source target : Buffer)
    (targetStart sourceStart sourceEnd : Z) : Buffer :=
  if (blength target <=? targetStart) || (sourceEnd <=? sourceStart) then target
  else
    let sourceEnd' := Z.min sourceEnd (blength source) in
    let nb := Z.min (sourceEnd' - sourceStart) (blength target - targetStart) in
    let chunk := firstn (Z.to_nat nb) (skipn (Z.to_nat sourceStart) source) in
    firstn (Z.to_nat targetStart) target ++ chunk
      ++ skipn (Z.to_nat targetStart + length chunk) target.

(** [buf.readUInt32LE(offset)]; [None] is the RangeError of an offset
    outside [0, length - 4]. *)
Definition readUInt32LE (b : Buffer) (offset : Z) : option Z :=
  if (0 <=? offset) && (offset + 4 <=? blength b) then
    match skipn (Z.to_nat offset) b with
    | b0 :: b1 :: b2 :: b3 :: _ =>
        Some (u8 b0 + u8 b1 * 2 ^ 8 + u8 b2 * 2 ^ 16 + u8 b3 * 2 ^ 24)
    | _ => None
    end
  else None.

Definition readUInt32BE (b : Buffer) (offset : Z) : option Z :=
  if (0 <=? offset) && (offset + 4 <=? blength b) then
    match skipn (Z.to_nat offset) b with
    | b0 :: b1 :: b2 :: b3 :: _ =>
        Some (u8 b0 * 2 ^ 24 + u8 b1 * 2 ^ 16 + u8 b2 * 2 ^ 8 + u8 b3)
    | _ => None
    end
  else None.

(** Overwrite [length bytes] bytes of [b] from [offset] on. *)
Definition poke (b : Buffer) (offset : Z) (bytes : list byte) : Buffer :=
  firstn (Z.to_nat offset) b ++ bytes
    ++ skipn (Z.to_nat offset + length bytes) b.

(** [buf.writeUInt32LE(value, offset)]; [None] is the RangeError of a value
    outside [0, 2^32 - 1] or of an offset outside [0, length - 4]. *)
Definition writeUInt32LE (b : Buffer) (value offset : Z) : option Buffer :=
  if (0 <=? value) && (value <=? 0xffffffff)
     && (0 <=? offset) && (offset + 4 <=? blength b)
  then Some (poke b offset
               [byte_of value; byte_of (value / 2 ^ 8);
                byte_of (value / 2 ^ 16); byte_of (value / 2 ^ 24)])
  else None.

(** [buf.writeUInt8(value, offset)] *)
Definition writeUInt8 (b : Buffer) (value offset : Z) : option Buffer :=
  if (0 <=? value) && (value <=? 0xff)
     && (0 <=? offset) && (offset + 1 <=? blength b)
  then Some (poke b offset [byte_of value])
  else None.

(** ** UTF-8, as [Buffer.from(string)] and the key of [crypto.createHmac]
    encode a string.  A surrogate pair is one code point; a lone surrogate
    becomes U+FFFD. *)

Definition utf8_of_code_point (c : Z) : list byte :=
  map byte_of
    (if c <? 0x80 then [c]
     else if c <? 0x800 then [0xC0 + c / 64; 0x80 + c mod 64]
     else if c <? 0x10000 then
       [0xE0 + c / 4096; 0x80 + (c / 64) mod 64; 0x80 + c mod 64]
     else [0xF0 + c / 262144; 0x80 + (c / 4096) mod 64;
           0x80 + (c / 64) mod 64; 0x80 + c mod 64]).

Definition is_high_surrogate (c : Z) : bool := (0xD800 <=? c) && (c <=? 0xDBFF).
Definition is_low_surrogate (c : Z) : bool := (0xDC00 <=? c) && (c <=? 0xDFFF).

Fixpoint utf8_encode (s : jsstring) : Buffer :=
  match s with
  | [] => []
  | c :: rest =>
      if is_high_surrogate c then
        match rest with
        | d :: rest' =>
            if is_low_surrogate d then
              utf8_of_code_point
                (0x10000 + (c - 0xD800) * 1024 + (d - 0xDC00))
                ++ utf8_encode rest'
            else utf8_of_code_point 0xFFFD ++ utf8_encode rest
        | [] => utf8_of_code_point 0xFFFD
        end
      else if is_low_surrogate c then
        utf8_of_code_point 0xFFFD ++ utf8_encode rest
      else utf8_of_code_point c ++ utf8_encode rest
  end.

(** ** SHA-256 (FIPS 180-4) and HMAC (RFC 2104), as [crypto] computes them *)

Module SHA256.

Definition w32 (x : Z) : Z := x mod 2 ^ 32.
Definition add32 (x y : Z) : Z := w32 (x + y).
Definition rotr (n x : Z) : Z :=
  Z.lor (Z.shiftr x n) (w32 (Z.shiftl x (32 - n))).
Definition not32 (x : Z) : Z := Z.lxor x 0xffffffff.

Definition Ch (x y z : Z) : Z := Z.lxor (Z.land x y) (Z.land (not32 x) z).
Definition Maj (x y z : Z) : Z :=
  Z.lxor (Z.lxor (Z.land x y) (Z.land x z)) (Z.land y z).
Definition Sigma0 (x : Z) : Z :=
  Z.lxor (Z.lxor (rotr 2 x) (rotr 13 x)) (rotr 22 x).
Definition Sigma1 (x : Z) : Z :=
  Z.lxor (Z.lxor (rotr 6 x) (rotr 11 x)) (rotr 25 x).
Definition sigma0 (x : Z) : Z :=
  Z.lxor (Z.lxor (rotr 7 x) (rotr 18 x)) (Z.shiftr x 3).
Definition sigma1 (x : Z) : Z :=
  Z.lxor (Z.lxor (rotr 17 x) (rotr 19 x)) (Z.shiftr x 10).

(** The constants of FIPS 180-4 are defined from the primes: the round
    constants are the first 32 bits of the fractional parts of the cube
    roots of the first 64 primes, the initial hash value those of the square
    roots of the first 8. *)
Definition is_prime (n : Z) : bool :=
  (1 <? n)
  && forallb (fun d => negb (n mod d =? 0))
       (map Z.of_nat (seq 2 (Z.to_nat n - 2))).

Definition primes (count : nat) : list Z :=
  firstn count (filter is_prime (map Z.of_nat (seq 2 310))).

(** The greatest [r] below [2 ^ 40] with [r ^ k <= n], bit by bit. *)
Definition iroot (k n : Z) : Z :=
  fold_left (fun r bit =>
               let r' := r + 2 ^ Z.of_nat bit in
               if r' ^ k <=? n then r' else r)
            (rev (seq 0 40)) 0.

Definition fractional_root (k p : Z) : Z :=
  w32 (iroot k (p * 2 ^ (32 * k))).

Definition K : list Z :=
  Eval vm_compute in map (fractional_root 3) (primes 64).

Record hstate := mkH { ha : Z; hb : Z; hc : Z; hd : Z;
                       he : Z; hf : Z; hg : Z; hh : Z }.

Definition hstate_of (ws : list Z) : hstate :=
  mkH (nth 0 ws 0) (nth 1 ws 0) (nth 2 ws 0) (nth 3 ws 0)
      (nth 4 ws 0) (nth 5 ws 0) (nth 6 ws 0) (nth 7 ws 0).

Definition H0 : hstate :=
  Eval vm_compute in hstate_of (map (fractional_root 2) (primes 8)).

(** Big-endian 32-bit words of a block. *)
Fixpoint words_of (bs : list byte) : list Z :=
  match bs with
  | b0 :: b1 :: b2 :: b3 :: rest =>
      (u8 b0 * 2 ^ 24 + u8 b1 * 2 ^ 16 + u8 b2 * 2 ^ 8 + u8 b3)
        :: words_of rest
  | _ => []
  end.

(** The message schedule: [n] more words after the window [w] of the last
    sixteen. *)
Fixpoint schedule (n : nat) (w : list Z) : list Z :=
  match n with
  | O => []
  | S n' =>
      let x := add32 (add32 (sigma1 (nth 14 w 0)) (nth 9 w 0))
                     (add32 (sigma0 (nth 1 w 0)) (nth 0 w 0)) in
      x :: schedule n' (tl w ++ [x])
  end.

Definition round (s : hstate) (kw : Z * Z) : hstate :=
  let t1 := add32 (add32 (add32 (hh s) (Sigma1 (he s)))
                         (add32 (Ch (he s) (hf s) (hg s)) (fst kw)))
                  (snd kw) in
  let t2 := add32 (Sigma0 (ha s)) (Maj (ha s) (hb s) (hc s)) in
  mkH (add32 t1 t2) (ha s) (hb s) (hc s) (add32 (hd s) t1) (he s) (hf s) (hg s).

Definition compress (s : hstate) (block : list byte) : hstate :=
  let w16 := words_of block in
  let w := w16 ++ schedule 48 w16 in
  let r := fold_left round (combine K w) s in
  mkH (add32 (ha s) (ha r)) (add32 (hb s) (hb r)) (add32 (hc s) (hc r))
      (add32 (hd s) (hd r)) (add32 (he s) (he r)) (add32 (hf s) (hf r))
      (add32 (hg s) (hg r)) (add32 (hh s) (hh r)).

Definition be32 (x : Z) : list byte :=
  [byte_of (x / 2 ^ 24); byte_of (x / 2 ^ 16); byte_of (x / 2 ^ 8); byte_of x].

Definition pad (msg : list byte) : list byte :=
  let l := blength msg in
  let zeros := (55 - l) mod 64 in
  msg ++ [x80] ++ repeat x00 (Z.to_nat zeros)
      ++ be32 ((l * 8) / 2 ^ 32) ++ be32 (l * 8).

Fixpoint blocks (n : nat) (s : hstate) (bs : list byte) : hstate :=
  match n with
  | O => s
  | S n' => blocks n' (compress s (firstn 64 bs)) (skipn 64 bs)
  end.

Definition digest (msg : list byte) : list byte :=
  let p := pad msg in
  let s := blocks (length p / 64)%nat H0 p in
  be32 (ha s) ++ be32 (hb s) ++ be32 (hc s) ++ be32 (hd s)
    ++ be32 (he s) ++ be32 (hf s) ++ be32 (hg s) ++ be32 (hh s).

Definition hmac (key msg : list byte) : list byte :=
  let k0 := if 64 <? blength key then digest key else key in
  let k := k0 ++ repeat x00 (64 - length k0)%nat in
  let mask m := map (fun b => byte_of (Z.lxor m (u8 b))) k in
  digest (mask 0x5c ++ digest (mask 0x36 ++ msg)).

End SHA256.

(** [digest('hex')]: two lower-case hexadecimal digits per byte. *)
Definition hex_digit (n : Z) : Z :=
  if n <? 10 then 48 + n else 87 + n.

Definition hex_of_byte (b : byte) : jsstring :=
  [hex_digit (u8 b / 16); hex_digit (u8 b mod 16)].

Definition hex_string (bs : list byte) : jsstring :=
  flat_map hex_of_byte bs.

(** ** Stand-ins for the collaborators, used to run the model on examples

    The program's theorems are stated for any [net.isIP], any RSA transform
    and any UTF-8 decoder; the examples instantiate them with these. *)

Definition is_digit (c : Z) : bool := (48 <=? c) && (c <=? 57).

(** A decimal number 0..255 without a leading zero. *)
Definition is_v4_segment (seg : jsstring) : bool :=
  match seg with
  | [a] => is_digit a
  | [a; b] => is_digit a && is_digit b && negb (a =? 48)
  | [a; b; c] =>
      is_digit a && is_digit b && is_digit c && negb (a =? 48)
      && ((a - 48) * 100 + (b - 48) * 10 + (c - 48) <=? 255)
  | _ => false
  end.

Fixpoint split_on (sep : Z) (s acc : jsstring) : list jsstring :=
  match s with
  | [] => [rev acc]
  | c :: rest =>
      if c =? sep then rev acc :: split_on sep rest []
      else split_on sep rest (c :: acc)
  end.

(** [net.isIP] on dotted quads: 4 for an IPv4 literal, 0 otherwise (this
    stand-in recognises no IPv6 literal). *)
Definition isIP_dotted_quad (address : jsstring) : Z :=
  let segs := split_on 46 address [] in
  if (length segs =? 4)%nat && forallb is_v4_segment segs then 4 else 0.

(** UTF-8 decoding of ASCII bytes (each byte is its own code unit). *)
Definition toString_ascii (b : Buffer) : jsstring := map u8 b.

(** The input lengths RSA with a 2048-bit key and PKCS#1 v1.5 padding
    accepts: at most 245 bytes to encrypt, exactly 256 to decrypt.  The
    transformed bytes themselves are not modelled. *)
Definition privateEncrypt_2048 (key : jsstring) (data : Buffer)
    : option Buffer :=
  if blength data <=? 245 then Some (repeat x00 256) else None.

Definition publicDecrypt_2048 (key : jsstring) (data : Buffer)
    : option Buffer :=
  if blength data =? 256 then Some [] else None.

(** ** What a method does: the object after it, the log of its effects, and
    its completion *)

Inductive Exn :=
| RangeError
| TypeError
| CryptoError
| Error (message : jsstring)
| UnhandledError (* ERR_UNHANDLED_ERROR, or what a listener raised *)
| FuelExhausted.

Inductive Completion (A : Type) :=
| Returned (a : A)
| Thrown (e : Exn).
Arguments Returned {A} a.
Arguments Thrown {A} e.

Inductive Event :=
| EvConnect
| EvMessage (command : jsstring) (data : Buffer)
| EvEnd
| EvError (err : jsstring)
| EvClose.

Inductive Socket :=
| Dialed (port : Z) (address : jsstring)
| Accepted (id : Z).

Inductive Effect :=
| Emit (e : Event)
| CreateConnection (port : Z) (address : jsstring)
| SocketWrite (bytes : Buffer)
| SocketEnd
| SocketDestroy.

Inductive State := connecting | connected | disconnecting | destroying | closed.

Definition State_eqb (a b : State) : bool :=
  match a, b with
  | connecting, connecting | connected, connected
  | disconnecting, disconnecting | destroying, destroying
  | closed, closed => true
  | _, _ => false
  end.

(** A value that may be [undefined], for a property nothing assigns. *)
Inductive JsValue :=
| undefined
| number (n : Z).

(** [n >= v]: false when [v] is [undefined] (it converts to NaN). *)
Definition js_ge (n : Z) (v : JsValue) : bool :=
  match v with
  | undefined => false
  | number m => m <=? n
  end.

(** ** class Host *)

Record Host := mkHost {
  _family : jsstring;
  _address : jsstring;
  _port : Z }.

(** ** class Peer *)

Record Keypair := mkKeypair { public : jsstring; private : jsstring }.

(** What [emit('error', ...)] finds on an emitter.  With no listener of
    'error' attached, EventEmitter raises (ERR_UNHANDLED_ERROR) and nobody is
    notified; otherwise the listeners run.  A listener attached with [on] is
    the user's and is taken to return; the listener a Node attaches raises
    when the Node's own emitter has no listener of 'error'. *)
Inductive Listeners :=
| NoErrorListener
| ErrorListeners
| ErrorListenerRaises.

(** [_state] is [None] for [null]; [_inBuffer] is [None] while undefined
    (until the first [connect]); [_inCursor], undefined until then as well,
    is 0 there: every read of it comes after a read of [_inBuffer];
    [_eventEmitter] is the emitter, as far as [emit] depends on it. *)
Record Peer := mkPeer {
  _host : Host;
  _state : option State;
  _header : Z;
  _bufferSize : Z;
  _socket : option Socket;
  _hash : option jsstring;
  _connectionAttempts : Z;
  _keypair : option Keypair;
  _remotePublicKey : option jsstring;
  _maxConnectionAttempts : Z;
  _inBuffer : option Buffer;
  _inCursor : Z;
  _eventEmitter : Listeners }.

Definition set_state (v : option State) (p : Peer) : Peer :=
  mkPeer (_host p) v (_header p) (_bufferSize p) (_socket p) (_hash p)
    (_connectionAttempts p) (_keypair p) (_remotePublicKey p)
    (_maxConnectionAttempts p) (_inBuffer p) (_inCursor p)
    (_eventEmitter p).

Definition set_socket (v : option Socket) (p : Peer) : Peer :=
  mkPeer (_host p) (_state p) (_header p) (_bufferSize p) v (_hash p)
    (_connectionAttempts p) (_keypair p) (_remotePublicKey p)
    (_maxConnectionAttempts p) (_inBuffer p) (_inCursor p)
    (_eventEmitter p).

Definition set_hash (v : option jsstring) (p : Peer) : Peer :=
  mkPeer (_host p) (_state p) (_header p) (_bufferSize p) (_socket p) v
    (_connectionAttempts p) (_keypair p) (_remotePublicKey p)
    (_maxConnectionAttempts p) (_inBuffer p) (_inCursor p)
    (_eventEmitter p).

Definition set_connectionAttempts (v : Z) (p : Peer) : Peer :=
  mkPeer (_host p) (_state p) (_header p) (_bufferSize p) (_socket p) (_hash p)
    v (_keypair p) (_remotePublicKey p)
    (_maxConnectionAttempts p) (_inBuffer p) (_inCursor p)
    (_eventEmitter p).

Definition set_keypair (v : option Keypair) (p : Peer) : Peer :=
  mkPeer (_host p) (_state p) (_header p) (_bufferSize p) (_socket p) (_hash p)
    (_connectionAttempts p) v (_remotePublicKey p)
    (_maxConnectionAttempts p) (_inBuffer p) (_inCursor p)
    (_eventEmitter p).

Definition set_remotePublicKey (v : option jsstring) (p : Peer) : Peer :=
  mkPeer (_host p) (_state p) (_header p) (_bufferSize p) (_socket p) (_hash p)
    (_connectionAttempts p) (_keypair p) v
    (_maxConnectionAttempts p) (_inBuffer p) (_inCursor p)
    (_eventEmitter p).

Definition set_inBuffer (v : option Buffer) (p : Peer) : Peer :=
  mkPeer (_host p) (_state p) (_header p) (_bufferSize p) (_socket p) (_hash p)
    (_connectionAttempts p) (_keypair p) (_remotePublicKey p)
    (_maxConnectionAttempts p) v (_inCursor p)
    (_eventEmitter p).

Definition set_inCursor (v : Z) (p : Peer) : Peer :=
  mkPeer (_host p) (_state p) (_header p) (_bufferSize p) (_socket p) (_hash p)
    (_connectionAttempts p) (_keypair p) (_remotePublicKey p)
    (_maxConnectionAttempts p) (_inBuffer p) v
    (_eventEmitter p).

Definition set_eventEmitter (v : Listeners) (p : Peer) : Peer :=
  mkPeer (_host p) (_state p) (_header p) (_bufferSize p) (_socket p) (_hash p)
    (_connectionAttempts p) (_keypair p) (_remotePublicKey p)
    (_maxConnectionAttempts p) (_inBuffer p) (_inCursor p) v.

(** The property [_maxConnectionAttemps] that [_socketEventError] reads: no
    statement of the class assigns it (the constructor assigns
    [_maxConnectionAttempts]), so the read gives [undefined]. *)
Definition _maxConnectionAttemps (p : Peer) : JsValue := undefined.

(** A method body: from [this] to [this] afterwards, the effects in order,
    and the completion.  After a throw nothing more runs. *)
Definition M (A : Type) : Type := Peer -> Peer * list Effect * Completion A.

Definition ret {A} (a : A) : M A := fun p => (p, [], Returned a).

Definition bind {A B} (m : M A) (k : A -> M B) : M B :=
  fun p =>
    match m p with
    | (p1, l1, Returned a) =>
        match k a p1 with
        | (p2, l2, c) => (p2, l1 ++ l2, c)
        end
    | (p1, l1, Thrown e) => (p1, l1, Thrown e)
    end.

Notation "x <- m ;; k" := (bind m (fun x => k))
  (at level 61, m at next level, right associativity).
Notation "m ;;; k" := (bind m (fun _ => k))
  (at level 61, right associativity).

Definition this : M Peer := fun p => (p, [], Returned p).
Definition modify (f : Peer -> Peer) : M unit := fun p => (f p, [], Returned tt).
Definition effect (e : Effect) : M unit := fun p => (p, [e], Returned tt).
Definition throw {A} (e : Exn) : M A := fun p => (p, [], Thrown e).

(** [this._eventEmitter.emit(event, ...)].  An 'error' that no listener is
    attached for is raised by the emitter, and nothing is notified; an
    'error' whose listener raises is notified, and raised. *)
Definition emit (e : Event) : M unit :=
  match e with
  | EvError _ =>
      fun p =>
        match _eventEmitter p with
        | NoErrorListener => (p, [], Thrown UnhandledError)
        | ErrorListeners => (p, [Emit e], Returned tt)
        | ErrorListenerRaises => (p, [Emit e], Thrown UnhandledError)
        end
  | _ => effect (Emit e)
  end.

(** [on(event, callback)]: the listener is the user's. *)
Definition on (event : jsstring) : M unit :=
  if jsstring_eqb event (str "error") then
    modify (fun p =>
              match _eventEmitter p with
              | NoErrorListener => set_eventEmitter ErrorListeners p
              | _ => p
              end)
  else ret tt.

(** The value of a call that raises [e] when it has no value. *)
Definition orThrow {A} (e : Exn) (o : option A) : M A :=
  match o with
  | Some a => ret a
  | None => throw e
  end.

(** A call of an async method that is not awaited: what it does before its
    first suspension happens now; its rejection is not an exception here. *)
Definition detached {A} (m : M A) : M unit :=
  fun p => match m p with (p1, l1, _) => (p1, l1, Returned tt) end.

(** [try { return m } catch (err) { return a }] *)
Definition tryCatch {A} (m : M A) (a : A) : M A :=
  fun p =>
    match m p with
    | (p1, l1, Returned x) => (p1, l1, Returned x)
    | (p1, l1, Thrown _) => (p1, l1, Returned a)
    end.

Definition events (l : list Effect) : list Event :=
  flat_map (fun e => match e with Emit ev => [ev] | _ => [] end) l.

Definition log_of {A} (r : Peer * list Effect * Completion A) : list Effect :=
  snd (fst r).
Definition peer_of {A} (r : Peer * list Effect * Completion A) : Peer :=
  fst (fst r).
Definition completion_of {A} (r : Peer * list Effect * Completion A)
    : Completion A :=
  snd r.

Definition is_message (e : Event) : bool :=
  match e with EvMessage _ _ => true | _ => false end.

Definition is_error (e : Event) : bool :=
  match e with EvError _ => true | _ => false end.

(** The message notifications of a log, in order, and its error
    notifications. *)
Definition messages (l : list Effect) : list Event :=
  filter is_message (events l).
Definition errors (l : list Effect) : list Event :=
  filter is_error (events l).

(** The connections opened in a log. *)
Definition is_dial (e : Effect) : bool :=
  match e with CreateConnection _ _ => true | _ => false end.
Definition dials (l : list Effect) : nat := length (filter is_dial l).

Definition default_header : Z := 0xA27CC1A2.
Definition default_bufferSize : Z := 10485760.
Definition default_maxConnectionAttempts : Z := 10.
Definition default_port : Z := 5744.

Definition Peer_constructor (host : Host)
    (header bufferSize maxConnectionAttemps : Z) : Peer :=
  {| _host := host;
     _state := None;
     _header := header;
     _bufferSize := bufferSize;
     _socket := None;
     _hash := None;
     _connectionAttempts := 0;
     _keypair := None;
     _remotePublicKey := None;
     _maxConnectionAttempts := maxConnectionAttemps;
     _inBuffer := None;
     _inCursor := 0;
     _eventEmitter := NoErrorListener |}.

Definition _calculateChecksum (command : jsstring) (data : Buffer) : jsstring :=
  hex_string (SHA256.hmac (utf8_encode command) data).

(** The four bytes of the integrity tag: the first four characters of the
    hexadecimal text of the HMAC, as bytes. *)
Definition integrityTag (command : jsstring) (data : Buffer) : Buffer :=
  firstn 4 (utf8_encode (_calculateChecksum command data)).

(** A character [0-9a-f]. *)
Definition is_hex_char (c : Z) : Prop :=
  48 <= c <= 57 \/ 97 <= c <= 102.

(** The bytes of a frame, field by field: what [send] builds in
    [outgoingBuffer]. *)
Definition le32 (v : Z) : Buffer :=
  [byte_of v; byte_of (v / 2 ^ 8); byte_of (v / 2 ^ 16); byte_of (v / 2 ^ 24)].

Definition commandField (command : jsstring) : Buffer :=
  map byte_of (firstn 12 command)
    ++ repeat x00 (12 - length (firstn 12 command)).

Definition frameBytes (header : Z) (command : jsstring) (data : Buffer)
    : Buffer :=
  le32 header ++ commandField command ++ le32 (blength data)
    ++ integrityTag command data ++ data.

Definition is_uint8 (c : Z) : bool := (0 <=? c) && (c <=? 0xff).
Definition is_uint32 (v : Z) : bool := (0 <=? v) && (v <=? 0xffffffff).

(** The argument [data] of [send]: a string or a buffer ([None] is [null]). *)
Inductive SendData :=
| DataString (s : jsstring)
| DataBuffer (b : Buffer).

(** [Buffer.from(data)] *)
Definition Buffer_from (data : SendData) : Buffer :=
  match data with
  | DataString s => utf8_encode s
  | DataBuffer b => b
  end.

(** The loop of [send] over the characters of the command: [chars] are the
    characters at the indices [i], [i + 1], ... below 12. *)
Fixpoint writeCommand (b : Buffer) (chars : jsstring) (i : Z) : option Buffer :=
  match chars with
  | [] => Some b
  | c :: rest =>
      match writeUInt8 b c (i + 4) with
      | Some b' => writeCommand b' rest (i + 1)
      | None => None
      end
  end.

(** The loop of [_processMessage] over the twelve command bytes. *)
Definition readCommand (message : Buffer) : jsstring :=
  flat_map (fun s => if 0 <? u8 s then [u8 s] else [])
           (firstn 12 (skipn 4 message)).

Definition state_is (p : Peer) (s : State) : bool :=
  match _state p with
  | Some s' => State_eqb s' s
  | None => false
  end.

Definition is_null {A} (o : option A) : bool :=
  match o with Some _ => false | None => true end.

(** ** Peers and frames the theorems are run on *)

Definition example_host : Host := mkHost (str "IPv4") (str "127.0.0.1") 3000.

(** A Peer around an accepted socket, as [connect(socket)] leaves a new
    Peer: connected, with a zeroed buffer of [bufferSize] bytes. *)
Definition example_peer (bufferSize : Z) : Peer :=
  {| _host := example_host;
     _state := Some connected;
     _header := default_header;
     _bufferSize := bufferSize;
     _socket := Some (Accepted 1);
     _hash := None;
     _connectionAttempts := 0;
     _keypair := None;
     _remotePublicKey := None;
     _maxConnectionAttempts := default_maxConnectionAttempts;
     _inBuffer := Some (repeat x00 (Z.to_nat bufferSize));
     _inCursor := 0;
     _eventEmitter := NoErrorListener |}.

(** The same Peer once [on('error', ...)] has attached a listener. *)
Definition example_listened_peer (bufferSize : Z) : Peer :=
  peer_of (on (str "error") (example_peer bufferSize)).

(** A Peer that dials, as [connect()] leaves a new Peer. *)
Definition example_dialer : Peer :=
  set_socket (Some (Dialed 3000 (str "127.0.0.1")))
    (set_state (Some connecting) (example_peer 64)).

(** A Peer with a key pair that has learned a remote key. *)
Definition example_keyed_peer : Peer :=
  set_remotePublicKey (Some (str "remote public key"))
    (set_keypair (Some (mkKeypair (str "public key") (str "private key")))
       (example_peer 64)).

(** A frame with any four tag bytes. *)
Definition frame_with_tag (header : Z) (command : jsstring) (tag data : Buffer)
    : Buffer :=
  le32 header ++ commandField command ++ le32 (blength data) ++ tag ++ data.

(** ** The complete frames of a byte stream

    What the scan of [_socketEventData] finds in the received bytes [s], told
    without the buffer: at each offset the scan skips a byte, takes a
    complete frame, or stops (too few bytes for a header or for the frame the
    header announces). *)

Inductive Decision :=
| Skip
| Frame (messageLength : Z)
| Stop.

Definition decide (header : Z) (s : Buffer) : Decision :=
  match readUInt32LE s 0 with
  | Some word =>
      if word =? header then
        match readUInt32LE s 16 with
        | Some messageLength =>
            if messageLength + 24 <=? blength s then Frame messageLength
            else Stop
        | None => Stop
        end
      else Skip
  | None => Stop
  end.

(** The first complete frame of [s] and the bytes after it. *)
Fixpoint find_frame (header : Z) (s : Buffer) : option (Buffer * Buffer) :=
  match decide header s with
  | Frame messageLength =>
      Some (firstn (Z.to_nat (messageLength + 24)) s,
            skipn (Z.to_nat (messageLength + 24)) s)
  | Stop => None
  | Skip =>
      match s with
      | [] => None
      | _ :: s' => find_frame header s'
      end
  end.

(** The complete frames of [s], and the bytes after the last of them
    ([residue] when there is none). *)
Fixpoint framesFrom (fuel : nat) (header : Z) (s residue : Buffer)
    : list Buffer * Buffer :=
  match fuel with
  | O => ([], residue)
  | S fuel' =>
      match find_frame header s with
      | Some (frame, s') =>
          let (fs, r) := framesFrom fuel' header s' s' in (frame :: fs, r)
      | None => ([], residue)
      end
  end.

Definition frames (header : Z) (s : Buffer) : list Buffer * Buffer :=
  framesFrom (length s) header s s.

Section PeerNode.

(** [net.isIP]: 0, 4 or 6. *)
Variable isIP : jsstring -> Z.
(** [buf.toString()]: UTF-8 decoding. *)
Variable Buffer_toString : Buffer -> jsstring.
(** [crypto.privateEncrypt(key, data)] and [crypto.publicDecrypt(key, data)];
    [None] when they raise. *)
Variable privateEncrypt : jsstring -> Buffer -> option Buffer.
Variable publicDecrypt : jsstring -> Buffer -> option Buffer.

(** [new Host(address, port)] *)
Definition Host_constructor (address : jsstring) (port : Z) : Completion Host :=
  let address :=
    if includes address (str "localhost") then str "127.0.0.1" else address in
  let version := isIP address in
  if version =? 0 then Thrown (Error (str "Unknown address family"))
  else Returned {| _family := str "IPv" ++ [48 + version];
                   _address := address;
                   _port := port |}.

Definition _socketEventConnect : M unit :=
  modify (set_state (Some connected)) ;;;
  modify (set_connectionAttempts 0) ;;;
  emit EvConnect.

Definition _processMessage (message : Buffer) : M unit :=
  messageLength <- orThrow RangeError (readUInt32LE message 16) ;;
  let command := readCommand message in
  checksum <- orThrow RangeError (readUInt32BE message 20) ;;
  payload <-
    (if 0 <? messageLength then
       payload <- orThrow RangeError (Buffer_alloc messageLength) ;;
       let payload := Buffer_copy message payload 0 24 (blength message) in
       let checksumVerification :=
         utf8_encode (_calculateChecksum command payload) in
       verification <- orThrow RangeError (readUInt32BE checksumVerification 0) ;;
       ret (if checksum =? verification then Some payload else None)
     else ret (Some [])) ;;
  match payload with
  | Some payload =>
      if jsstring_eqb command (str "SECURE") then
        modify (set_remotePublicKey (Some (Buffer_toString payload)))
      else
        p <- this ;;
        payload <-
          match _remotePublicKey p with
          | Some key => orThrow CryptoError (publicDecrypt key payload)
          | None => ret payload
          end ;;
        emit (EvMessage command payload)
  | None => ret tt
  end.

(** The [while] loop of [_socketEventData]; its value is [messageEnd]. *)
Fixpoint scanLoop (fuel : nat) (cursor messageEnd : Z) : M Z :=
  match fuel with
  | O => throw FuelExhausted
  | S fuel' =>
      p <- this ;;
      if cursor <? _inCursor p then
        inBuffer <- orThrow TypeError (_inBuffer p) ;;
        word <- orThrow RangeError (readUInt32LE inBuffer cursor) ;;
        if word =? _header p then
          let messageStart := cursor in
          if messageStart + 16 <? _inCursor p then
            messageLength <-
              orThrow RangeError (readUInt32LE inBuffer (messageStart + 16)) ;;
            if messageStart + messageLength + 24 <=? _inCursor p then
              _processMessage
                (Buffer_slice inBuffer messageStart
                   (messageStart + messageLength + 24)) ;;;
              scanLoop fuel' (cursor + (messageLength + 24))
                       (messageStart + messageLength + 24)
            else scanLoop fuel' (cursor + (messageLength + 24)) messageEnd
          else scanLoop fuel' (_inCursor p) messageEnd
        else scanLoop fuel' (cursor + 1) messageEnd
      else ret messageEnd
  end.

Definition _socketEventData (data : Buffer) : M unit :=
  p <- this ;;
  inBuffer <- orThrow TypeError (_inBuffer p) ;;
  if blength inBuffer <? blength data + _inCursor p then
    emit (EvError (str "Peer exceeded max receiving buffer")) ;;;
    modify (set_inCursor (blength inBuffer + 1))
  else
    modify (set_inBuffer
              (Some (Buffer_copy data inBuffer (_inCursor p) 0 (blength data)))) ;;;
    modify (set_inCursor (_inCursor p + blength data)) ;;;
    p <- this ;;
    if _inCursor p <? 20 then ret tt
    else
      messageEnd <- scanLoop (S (Z.to_nat (_inCursor p))) 0 0 ;;
      if 0 <? messageEnd then
        p <- this ;;
        inBuffer <- orThrow TypeError (_inBuffer p) ;;
        modify (set_inBuffer
                  (Some (Buffer_copy inBuffer inBuffer 0 messageEnd (_inCursor p)))) ;;;
        modify (set_inCursor (_inCursor p - messageEnd))
      else ret tt.

Definition _socketEventEnd : M unit := emit EvEnd.

Definition _socketEventClose : M unit :=
  modify (set_state (Some closed)) ;;;
  emit EvClose.

(** [send(command, data)]; [written] is whether the transport's write
    resolves. *)
Definition send (command : jsstring) (data : option SendData)
    (written : bool) : M bool :=
  let data :=
    match data with
    | None => []
    | Some d => Buffer_from d
    end in
  p <- this ;;
  data <-
    match _keypair p, _remotePublicKey p with
    | Some keypair, Some _ =>
        if negb (jsstring_eqb command (str "SECURE")) then
          orThrow CryptoError (privateEncrypt (private keypair) data)
        else ret data
    | _, _ => ret data
    end ;;
  outgoingBuffer <- orThrow RangeError (Buffer_alloc (blength data + 24)) ;;
  outgoingBuffer <- orThrow RangeError (writeUInt32LE outgoingBuffer (_header p) 0) ;;
  outgoingBuffer <-
    orThrow RangeError (writeCommand outgoingBuffer (firstn 12 command) 0) ;;
  outgoingBuffer <-
    orThrow RangeError (writeUInt32LE outgoingBuffer (blength data) 16) ;;
  let checksum := utf8_encode (_calculateChecksum command data) in
  let outgoingBuffer :=
    Buffer_copy checksum outgoingBuffer 20 0 (blength checksum) in
  let outgoingBuffer := Buffer_copy data outgoingBuffer 24 0 (blength data) in
  tryCatch
    (orThrow TypeError (_socket p) ;;;
     effect (SocketWrite outgoingBuffer) ;;;
     if written then ret true else throw (Error (str "write")))
    false.

(** The payload [send] frames: the data, transformed with the private key
    when there are a key pair and a remote key and the command is not
    SECURE; [None] when the transform raises. *)
Definition payloadToSend (p : Peer) (command : jsstring)
    (data : option SendData) : option Buffer :=
  let data :=
    match data with
    | None => []
    | Some d => Buffer_from d
    end in
  match _keypair p, _remotePublicKey p with
  | Some keypair, Some _ =>
      if negb (jsstring_eqb command (str "SECURE")) then
        privateEncrypt (private keypair) data
      else Some data
  | _, _ => Some data
  end.

(** [connect(socket)] *)
Definition connect (socket : option Socket) (written : bool)
    : M (option Socket) :=
  p <- this ;;
  inBuffer <- orThrow RangeError (Buffer_alloc (_bufferSize p)) ;;
  modify (set_inBuffer (Some inBuffer)) ;;;
  modify (set_inCursor 0) ;;;
  (if is_null (_socket p) then
     socket <-
       match socket with
       | None =>
           modify (set_state (Some connecting)) ;;;
           effect (CreateConnection (_port (_host p)) (_address (_host p))) ;;;
           ret (Dialed (_port (_host p)) (_address (_host p)))
       | Some socket =>
           modify (set_state (Some connected)) ;;;
           ret socket
       end ;;
     modify (set_socket (Some socket)) ;;;
     match _keypair p with
     | Some keypair =>
         send (str "SECURE") (Some (DataString (public keypair))) written ;;;
         ret tt
     | None => ret tt
     end
   else ret tt) ;;;
  p <- this ;;
  ret (_socket p).

Definition _socketEventError (err : jsstring) (written : bool) : M unit :=
  p <- this ;;
  (if state_is p connecting then
     modify (set_connectionAttempts (_connectionAttempts p + 1)) ;;;
     modify (set_socket None) ;;;
     detached (connect None written)
   else ret tt) ;;;
  p <- this ;;
  if negb (state_is p connecting)
     || js_ge (_connectionAttempts p) (_maxConnectionAttemps p)
  then emit (EvError err)
  else ret tt.

(** [disconnect()] and [destroy()] *)
Definition disconnect : M unit :=
  modify (set_state (Some disconnecting)) ;;;
  p <- this ;;
  orThrow TypeError (_socket p) ;;;
  effect SocketEnd ;;;
  _socketEventClose.

Definition destroy : M unit :=
  modify (set_state (Some destroying)) ;;;
  p <- this ;;
  orThrow TypeError (_socket p) ;;;
  effect SocketDestroy ;;;
  _socketEventClose.

(** [generateKeypair()]; [generated] is what [keypair()] returns. *)
Definition generateKeypair (generated : Keypair) : M unit :=
  p <- this ;;
  if is_null (_state p) then modify (set_keypair (Some generated))
  else throw (Error (str "Cannot generate keypair after connection")).

(** [n] transport errors in a row. *)
Fixpoint socketErrors (n : nat) (err : jsstring) (written : bool) : M unit :=
  match n with
  | O => ret tt
  | S n' => _socketEventError err written ;;; socketErrors n' err written
  end.

(** The data events of a connection, in order.  An exception that escapes a
    listener of the socket is uncaught: the run ends there. *)
Fixpoint dataEvents (chunks : list Buffer) : M unit :=
  match chunks with
  | [] => ret tt
  | data :: rest => _socketEventData data ;;; dataEvents rest
  end.

(** The received bytes: the first [n] of the buffer. *)
Definition received (B : Buffer) (n : Z) : Buffer := firstn (Z.to_nat n) B.

(** What the scan loop has done when it is left, started at [cursor] with
    [messageEnd]: [fs] are the complete frames of the received bytes from
    [cursor] on and [r] the bytes after the last of them, [c] the completion
    of [_processMessage] over [fs], and [c'] the completion of the loop.  The
    loop returns the end of the last frame, or a read past the end of the
    buffer raised RangeError after all of [fs]; then the buffer is all but
    full and no further byte would complete a frame. *)
Definition scan_post (B : Buffer) (n h : Z) (cursor messageEnd : Z)
    (fs : list Buffer) (r : Buffer)
    (c : Completion unit) (c' : Completion Z) : Prop :=
  match c with
  | Thrown e => c' = Thrown e
  | Returned _ =>
      (exists e', c' = Returned e' /\ messageEnd <= e' <= n
                  /\ r = skipn (Z.to_nat e') (received B n))
      \/ (c' = Thrown RangeError /\ blength B <= n + 2 /\ r <> []
          /\ forall rem, n + blength rem <= blength B ->
               fst (frames h (skipn (Z.to_nat cursor) (received B n) ++ rem))
               = fs)
  end.

(** [p] with another remote key, buffer and cursor: all that a data event
    changes. *)
Definition with_stream (p : Peer) (key : option jsstring)
    (B : Buffer) (n : Z) : Peer :=
  set_inCursor n (set_inBuffer (Some B) (set_remotePublicKey key p)).

(** A structurally complete frame for the header constant [header]: it
    starts with the header, and is as long as its length field says. *)
Definition complete_frame (header : Z) (message : Buffer) : Prop :=
  readUInt32LE message 0 = Some header
  /\ exists messageLength,
       readUInt32LE message 16 = Some messageLength
       /\ blength message = messageLength + 24.

(** [_processMessage] on each frame of a list, in order. *)
Fixpoint processAll (fs : list Buffer) : M unit :=
  match fs with
  | [] => ret tt
  | message :: rest => _processMessage message ;;; processAll rest
  end.

(** The two halves of [_processMessage]: the payload of a message once its
    checksum is verified ([None] is [null]: the checksum differs), and what
    is done with a payload that is not [null]. *)
Definition verifiedPayload (message : Buffer) (messageLength checksum : Z)
    : Completion (option Buffer) :=
  if 0 <? messageLength then
    match Buffer_alloc messageLength with
    | Some payload =>
        let payload := Buffer_copy message payload 0 24 (blength message) in
        match readUInt32BE
                (utf8_encode
                   (_calculateChecksum (readCommand message) payload)) 0 with
        | Some verification =>
            Returned (if checksum =? verification then Some payload else None)
        | None => Thrown RangeError
        end
    | None => Thrown RangeError
    end
  else Returned (Some []).

Definition deliver (command : jsstring) (payload : Buffer) (p : Peer)
    : Peer * list Effect * Completion unit :=
  if jsstring_eqb command (str "SECURE") then
    (set_remotePublicKey (Some (Buffer_toString payload)) p, [], Returned tt)
  else
    match _remotePublicKey p with
    | Some key =>
        match publicDecrypt key payload with
        | Some decrypted =>
            (p, [Emit (EvMessage command decrypted)], Returned tt)
        | None => (p, [], Thrown CryptoError)
        end
    | None => (p, [Emit (EvMessage command payload)], Returned tt)
    end.

(** What [_processMessage] does, as a function of the remote key alone. *)
Definition processKey (message : Buffer) (key : option jsstring)
    : option jsstring * list Effect * Completion unit :=
  match _processMessage message
          (set_remotePublicKey key
             (Peer_constructor (mkHost [] [] 0) 0 0 0)) with
  | (p, l, c) => (_remotePublicKey p, l, c)
  end.

Fixpoint processKeys (fs : list Buffer) (key : option jsstring)
    : option jsstring * list Effect * Completion unit :=
  match fs with
  | [] => (key, [], Returned tt)
  | message :: rest =>
      match processKey message key with
      | (key1, l1, Returned _) =>
          match processKeys rest key1 with
          | (key2, l2, c) => (key2, l1 ++ l2, c)
          end
      | (key1, l1, Thrown e) => (key1, l1, Thrown e)
      end
  end.

(** ** Runs of calls *)

(** The bytes written to the transport in a log, in order. *)
Definition written_bytes (l : list Effect) : Buffer :=
  flat_map (fun e => match e with SocketWrite b => b | _ => [] end) l.

(** [await send(command, payload)] for each message of a list, in order. *)
Fixpoint sendAll (msgs : list (jsstring * Buffer)) (written : bool) : M unit :=
  match msgs with
  | [] => ret tt
  | (command, payload) :: rest =>
      send command (Some (DataBuffer payload)) written ;;; sendAll rest written
  end.

(** A message [send] can frame and a receiver can tell from others: a
    command of at most 12 characters, each with a code in 1..255, that is
    not the reserved SECURE, and a payload whose length fits 32 bits. *)
Definition sendable (m : jsstring * Buffer) : Prop :=
  (length (fst m) <= 12)%nat
  /\ Forall (fun c => 0 < c <= 255) (fst m)
  /\ fst m <> str "SECURE"
  /\ blength (snd m) <= 0xffffffff.

(** ** The calls a Peer takes

    The methods of the class and the listeners of its socket, as calls on
    one object: each runs on what the one before it left, whether that one
    returned or raised. *)
Inductive Call :=
| CallConnect (socket : option Socket) (written : bool)
| CallSend (command : jsstring) (data : option SendData) (written : bool)
| CallDisconnect
| CallDestroy
| CallGenerateKeypair (generated : Keypair)
| CallSetHash (hash : jsstring)
| OnConnect
| OnData (data : Buffer)
| OnEnd
| OnError (err : jsstring) (written : bool)
| OnClose
| CallOn (event : jsstring).

Definition call (c : Call) (p : Peer) : Peer :=
  match c with
  | CallConnect socket written => peer_of (connect socket written p)
  | CallSend command data written => peer_of (send command data written p)
  | CallDisconnect => peer_of (disconnect p)
  | CallDestroy => peer_of (destroy p)
  | CallGenerateKeypair generated => peer_of (generateKeypair generated p)
  | CallSetHash hash => set_hash (Some hash) p
  | OnConnect => peer_of (_socketEventConnect p)
  | OnData data => peer_of (_socketEventData data p)
  | OnEnd => peer_of (_socketEventEnd p)
  | OnError err written => peer_of (_socketEventError err written p)
  | OnClose => peer_of (_socketEventClose p)
  | CallOn event => peer_of (on event p)
  end.

Fixpoint after (calls : list Call) (p : Peer) : Peer :=
  match calls with
  | [] => p
  | c :: rest => after rest (call c p)
  end.

(** What holds of a Peer all its life: the configuration it was constructed
    with; a counter that is not negative; with a socket, a state and a
    buffer; and a buffer of the configured size with the cursor within it or
    one past it. *)
Definition wellformed (host : Host) (header bufferSize maxAttempts : Z)
    (p : Peer) : Prop :=
  _host p = host /\ _header p = header /\ _bufferSize p = bufferSize
  /\ _maxConnectionAttempts p = maxAttempts
  /\ 0 <= _connectionAttempts p
  /\ (_socket p <> None -> _state p <> None /\ _inBuffer p <> None)
  /\ match _inBuffer p with
     | Some B => blength B = bufferSize /\ 0 <= _inCursor p <= bufferSize + 1
     | None => _inCursor p = 0
     end.

(** ** class Node

    A Node holds references to Peer objects: the same Peer can be listed
    under several keys, and is changed by its own calls.  The Peer objects
    live in a store, [peers], and are referred to by their index in it; with
    each is kept the number of times [connectPeer] has attached the Node's
    three listeners to it.  The [_eventEmitter] of a Peer of the store is
    what is attached to it besides those listeners, which are taken to run
    first, as they do on a Peer the Node made.  The field names of the class
    are those of Peer, so they are written here with the prefix [node]. *)

Record Node := mkNode {
  node_host : Host;
  node_header : Z;
  node_bufferSize : Z;
  (** [_server]: the port of the server created, [None] for [null] *)
  node_server : option Z;
  node_keypair : Keypair;
  (** [_peerList]: the keys in the order of their insertion *)
  node_peerList : list (jsstring * nat);
  (** [_state], [_inBuffer], [_inCursor]: assigned by [listen] only *)
  node_state : option State;
  node_inBuffer : option Buffer;
  node_inCursor : Z;
  (** [_eventEmitter], as far as [emit] depends on it *)
  node_eventEmitter : Listeners;
  peers : list (Peer * nat) }.

(** The notifications of a Node, and what a call on a Node does: a
    notification of its own, something a Peer of the store does, or the
    start of its server.  As for a Peer, a notification is logged when the
    emitter calls listeners; an 'error' nobody listens to is raised
    instead. *)
Inductive NodeEvent :=
| NodeMessage (peer : nat) (command : jsstring) (data : Buffer)
| NodeEnd (peer : nat)
| NodeError (peer : nat)
| NodePeerConnected (peer : nat) (peerHash : jsstring) (remoteHost : Host)
| NodeListening.

Inductive NodeEffect :=
| NodeEmit (e : NodeEvent)
| PeerDid (peer : nat) (e : Effect)
| ServerListen (port : Z).

Definition NodeResult (A : Type) : Type :=
  Node * list NodeEffect * Completion A.

(** [new Node(host, header, bufferSize)]; [generated] is what [keypair()]
    returns. *)
Definition Node_constructor (host : Host) (header bufferSize : Z)
    (generated : Keypair) : Node :=
  {| node_host := host;
     node_header := header;
     node_bufferSize := bufferSize;
     node_server := None;
     node_keypair := generated;
     node_peerList := [];
     node_state := None;
     node_inBuffer := None;
     node_inCursor := 0;
     node_eventEmitter := NoErrorListener;
     peers := [] |}.

Definition set_peerList (l : list (jsstring * nat)) (n : Node) : Node :=
  mkNode (node_host n) (node_header n) (node_bufferSize n) (node_server n)
    (node_keypair n) l (node_state n) (node_inBuffer n) (node_inCursor n)
    (node_eventEmitter n) (peers n).

Definition set_peers (ps : list (Peer * nat)) (n : Node) : Node :=
  mkNode (node_host n) (node_header n) (node_bufferSize n) (node_server n)
    (node_keypair n) (node_peerList n) (node_state n) (node_inBuffer n)
    (node_inCursor n) (node_eventEmitter n) ps.

Definition set_node_eventEmitter (v : Listeners) (n : Node) : Node :=
  mkNode (node_host n) (node_header n) (node_bufferSize n) (node_server n)
    (node_keypair n) (node_peerList n) (node_state n) (node_inBuffer n)
    (node_inCursor n) v (peers n).

(** [on(event, callback)] of a Node: the listener is the user's. *)
Definition Node_on (event : jsstring) (n : Node) : Node :=
  if jsstring_eqb event (str "error") then
    match node_eventEmitter n with
    | NoErrorListener => set_node_eventEmitter ErrorListeners n
    | _ => n
    end
  else n.

(** [object[key] = value]: an existing key keeps its place. *)
Fixpoint assign (key : jsstring) (value : nat) (object : list (jsstring * nat))
    : list (jsstring * nat) :=
  match object with
  | [] => [(key, value)]
  | (k, v) :: rest =>
      if jsstring_eqb k key then (k, value) :: rest
      else (k, v) :: assign key value rest
  end.

(** [delete object[key]] *)
Definition delete (key : jsstring) (object : list (jsstring * nat))
    : list (jsstring * nat) :=
  filter (fun kv => negb (jsstring_eqb (fst kv) key)) object.

(** The store with the Peer at [id] replaced. *)
Fixpoint store {A} (id : nat) (a : A) (l : list A) : list A :=
  match l, id with
  | [], _ => []
  | _ :: rest, O => a :: rest
  | x :: rest, S id' => x :: store id' a rest
  end.

(** The Node's listeners on a Peer, run for one notification of that Peer:
    a message is forwarded; 'end' and 'error' delete the key that is the
    Peer's hash now and are forwarded without their argument.  Each of the
    [listeners] sets attached runs, unless one raises: the Node's emitter
    raises the 'error' nobody listens to, out of the first set, after the
    deletion; and when a listener of the Node's 'error' raises, the first
    set has notified it. *)
Definition notify (id : nat) (hash : option jsstring) (listeners : nat)
    (ev : Event) (n : Node) : Node * list NodeEffect :=
  let unlist n :=
    match listeners, hash with
    | S _, Some h => set_peerList (delete h (node_peerList n)) n
    | _, _ => n
    end in
  match ev with
  | EvMessage command data =>
      (n, repeat (NodeEmit (NodeMessage id command data)) listeners)
  | EvEnd => (unlist n, repeat (NodeEmit (NodeEnd id)) listeners)
  | EvError _ =>
      (unlist n,
       match node_eventEmitter n with
       | NoErrorListener => []
       | ErrorListeners => repeat (NodeEmit (NodeError id)) listeners
       | ErrorListenerRaises =>
           firstn 1 (repeat (NodeEmit (NodeError id)) listeners)
       end)
  | EvConnect | EvClose => (n, [])
  end.

(** What [emit('error')] finds on a Peer of the store: with the Node's
    listeners attached, whether they return is up to the Node's emitter. *)
Definition attached (n : Node) (listeners : nat) (own : Listeners)
    : Listeners :=
  match listeners with
  | O => own
  | S _ =>
      match node_eventEmitter n, own with
      | ErrorListeners, ErrorListenerRaises => ErrorListenerRaises
      | ErrorListeners, _ => ErrorListeners
      | _, _ => ErrorListenerRaises
      end
  end.

(** The effects of a Peer, as the Node sees them: each is the Peer's, and a
    notification runs the Node's listeners at once. *)
Fixpoint relay (id : nat) (hash : option jsstring) (listeners : nat)
    (l : list Effect) (n : Node) : Node * list NodeEffect :=
  match l with
  | [] => (n, [])
  | e :: rest =>
      let (n1, l1) :=
        match e with
        | Emit ev => notify id hash listeners ev n
        | _ => (n, [])
        end in
      let (n2, l2) := relay id hash listeners rest n1 in
      (n2, PeerDid id e :: l1 ++ l2)
  end.

(** A call [m] on the Peer at [id]: it runs with the Node's listeners
    attached to the Peer's emitter, when there are any. *)
Definition onPeer {A} (id : nat) (m : M A) (n : Node) : NodeResult A :=
  match nth_error (peers n) id with
  | Some (peer, listeners) =>
      let own := _eventEmitter peer in
      match m (set_eventEmitter (attached n listeners own) peer) with
      | (peer', l, c) =>
          let peer' :=
            match listeners with
            | O => peer'
            | S _ => set_eventEmitter own peer'
            end in
          let (n', l') :=
            relay id (_hash peer') listeners l
              (set_peers (store id (peer', listeners) (peers n)) n) in
          (n', l', c)
      end
  | None => (n, [], Thrown TypeError)
  end.

(** The argument of [connectPeer]: a socket the server accepted, with what
    its [address()] returns, or a Peer object. *)
Inductive SocketOrPeer :=
| ASocket (socket : Socket) (address : Host)
| APeer (id : nat).

(** The end of [connectPeer]: the hash, the list, the listeners, the
    notification.  [hash] is what the call computes from the clock:
    [crypto.createHash('md5').update((new Date() / 1).toString())
    .digest('hex')], the md5, in hexadecimal, of the decimal text of the
    time in milliseconds. *)
Definition register (id : nat) (remoteHost : Host) (hash : jsstring)
    (n : Node) : Node * list NodeEffect :=
  match nth_error (peers n) id with
  | Some (peer, listeners) =>
      let n :=
        set_peers (store id (set_hash (Some hash) peer, S listeners) (peers n))
          n in
      (set_peerList (assign hash id (node_peerList n)) n,
       [NodeEmit (NodePeerConnected id hash remoteHost)])
  | None => (n, [])
  end.

(** [connectPeer(socketOrPeer)]; [hash] is the md5 of the time of the call,
    [written] whether the write of the new Peer's key resolves. *)
Definition connectPeer (socketOrPeer : SocketOrPeer) (hash : jsstring)
    (written : bool) (n : Node) : NodeResult unit :=
  match socketOrPeer with
  | APeer id =>
      match nth_error (peers n) id with
      | Some (peer, _) =>
          let (n', l) := register id (_host peer) hash n in
          (n', l, Returned tt)
      | None => (n, [], Thrown TypeError)
      end
  | ASocket socket remoteHost =>
      match Host_constructor (_address remoteHost) (_port remoteHost) with
      | Returned host =>
          let peer :=
            Peer_constructor host default_header default_bufferSize
              default_maxConnectionAttempts in
          let peer := set_keypair (Some (node_keypair n)) peer in
          let id := length (peers n) in
          let n := set_peers (peers n ++ [(peer, O)]) n in
          match onPeer id (detached (connect (Some socket) written)) n with
          | (n1, l1, _) =>
              let (n2, l2) := register id remoteHost hash n1 in
              (n2, l1 ++ l2, Returned tt)
          end
      | Thrown e => (n, [], Thrown e)
      end
  end.

(** [broadcast(command, data)]: the calls of [send] are not awaited. *)
Fixpoint broadcastTo (keys : list (jsstring * nat)) (command : jsstring)
    (data : option SendData) (written : bool) (n : Node)
    : Node * list NodeEffect :=
  match keys with
  | [] => (n, [])
  | (_, id) :: rest =>
      match onPeer id (detached (send command data written)) n with
      | (n1, l1, _) =>
          let (n2, l2) := broadcastTo rest command data written n1 in
          (n2, l1 ++ l2)
      end
  end.

Definition broadcast (command : jsstring) (data : option SendData)
    (written : bool) (n : Node) : NodeResult unit :=
  let (n', l) := broadcastTo (node_peerList n) command data written n in
  (n', l, Returned tt).

(** [listen()] *)
Definition listen (n : Node) : NodeResult unit :=
  let n :=
    mkNode (node_host n) (node_header n) (node_bufferSize n) (node_server n)
      (node_keypair n) (node_peerList n) (Some connecting) (node_inBuffer n)
      (node_inCursor n) (node_eventEmitter n) (peers n) in
  match Buffer_alloc (node_bufferSize n) with
  | Some inBuffer =>
      let n :=
        mkNode (node_host n) (node_header n) (node_bufferSize n)
          (node_server n) (node_keypair n) (node_peerList n) (node_state n)
          (Some inBuffer) 0 (node_eventEmitter n) (peers n) in
      match node_server n with
      | None =>
          (mkNode (node_host n) (node_header n) (node_bufferSize n)
             (Some (_port (node_host n))) (node_keypair n) (node_peerList n)
             (node_state n) (node_inBuffer n) (node_inCursor n)
             (node_eventEmitter n) (peers n),
           [ServerListen (_port (node_host n))], Returned tt)
      | Some _ => (n, [], Returned tt)
      end
  | None => (n, [], Thrown RangeError)
  end.

(** The Peer objects the Node's list refers to, in the order of the keys. *)
Definition listed (n : Node) : list nat := map snd (node_peerList n).

(** What the Peers wrote to their transports, and what the Node notified,
    in a log. *)
Definition writes_of (l : list NodeEffect) : list (nat * Buffer) :=
  flat_map (fun e => match e with
                     | PeerDid id (SocketWrite b) => [(id, b)]
                     | _ => []
                     end) l.

Definition notified (l : list NodeEffect) : list NodeEvent :=
  flat_map (fun e => match e with NodeEmit ev => [ev] | _ => [] end) l.

Definition node_of {A} (r : NodeResult A) : Node := fst (fst r).
Definition effects_of {A} (r : NodeResult A) : list NodeEffect := snd (fst r).

(** The Node's list refers to Peer objects only. *)
Definition references_ok (n : Node) : Prop :=
  Forall (fun id => (id < length (peers n))%nat) (listed n).

(** ** Nodes the theorems are run on *)

Definition example_keys : Keypair := mkKeypair (str "PEM") (str "private").

(** A Node constructed with a header constant and a buffer size of its
    own. *)
Definition example_node : Node :=
  Node_constructor example_host 0x11223344 1024 example_keys.

(** A Node that lists one connected Peer under the key h1, with its
    listeners attached [listeners] times. *)
Definition example_node_listing (listeners : nat) : Node :=
  set_peerList [(str "h1", 0%nat)]
    (set_peers [(set_hash (Some (str "h1")) (example_peer 64), listeners)]
       example_node).

(** The effects of a call. *)
Definition call_log (c : Call) (p : Peer) : list Effect :=
  match c with
  | CallConnect socket written => log_of (connect socket written p)
  | CallSend command data written => log_of (send command data written p)
  | CallDisconnect => log_of (disconnect p)
  | CallDestroy => log_of (destroy p)
  | CallGenerateKeypair generated => log_of (generateKeypair generated p)
  | CallSetHash hash => []
  | OnConnect => log_of (_socketEventConnect p)
  | OnData data => log_of (_socketEventData data p)
  | OnEnd => log_of (_socketEventEnd p)
  | OnError err written => log_of (_socketEventError err written p)
  | OnClose => log_of (_socketEventClose p)
  | CallOn event => log_of (on event p)
  end.


(** * Proofs *)

(** ** The digest, on the test vectors of FIPS 180-4 and RFC 2104 *)

Example sha256_abc :
  hex_string (SHA256.digest (utf8_encode (str "abc")))
  = str "ba7816bf8f01cfea414140de5dae2223b00361a396177a9cb410ff61f20015ad".
Proof. vm_compute. reflexivity. Qed.

Example sha256_empty :
  hex_string (SHA256.digest [])
  = str "e3b0c44298fc1c149afbf4c8996fb92427ae41e4649b934ca495991b7852b855".
Proof. vm_compute. reflexivity. Qed.

Example sha256_two_blocks :
  hex_string (SHA256.digest (utf8_encode
     (str "abcdbcdecdefdefgefghfghighijhijkijkljklmklmnlmnomnopnopq")))
  = str "248d6a61d20638b8e5c026930c3e6039a33ce45964ff2167f6ecedd419db06c1".
Proof. vm_compute. reflexivity. Qed.

Example hmac_sha256_fox :
  hex_string (SHA256.hmac (utf8_encode (str "key"))
     (utf8_encode (str "The quick brown fox jumps over the lazy dog")))
  = str "f7bc83f430538424b13298e6aa6fb143ef4d59a14946175997479dbc2d1a3cd8".
Proof. vm_compute. reflexivity. Qed.

(** ** Bytes and buffers *)

Lemma jsstring_eqb_eq (a b : jsstring) : jsstring_eqb a b = true <-> a = b.
Proof.
  revert b. induction a as [|x a IH]; intros [|y b]; cbn;
    try (split; [discriminate | discriminate]); try (split; reflexivity).
  rewrite andb_true_iff, Z.eqb_eq, IH. split.
  - intros [-> ->]. reflexivity.
  - intros E. injection E as -> ->. split; reflexivity.
Qed.

Lemma jsstring_eqb_neq (a b : jsstring) : jsstring_eqb a b = false <-> a <> b.
Proof.
  split.
  - intros E H. apply jsstring_eqb_eq in H. congruence.
  - intros H. destruct (jsstring_eqb a b) eqn:E; [|reflexivity].
    apply jsstring_eqb_eq in E. contradiction.
Qed.

Lemma u8_range (b : byte) : 0 <= u8 b < 256.
Proof.
  unfold u8. pose proof (Byte.to_N_bounded b). lia.
Qed.

Lemma u8_byte_of (z : Z) : u8 (byte_of z) = z mod 256.
Proof.
  unfold u8, byte_of.
  assert (Hr : 0 <= z mod 256 < 256) by (apply Z.mod_pos_bound; lia).
  destruct (Byte.of_N (Z.to_N (z mod 256))) as [b|] eqn:E.
  - apply Byte.to_of_N in E. rewrite E. apply Z2N.id. lia.
  - apply Byte.of_N_None_iff in E. lia.
Qed.

Lemma u8_byte_of_small (z : Z) : 0 <= z < 256 -> u8 (byte_of z) = z.
Proof.
  intros H. rewrite u8_byte_of. apply Z.mod_small. exact H.
Qed.

Lemma byte_of_u8 (b : byte) : byte_of (u8 b) = b.
Proof.
  unfold byte_of, u8.
  rewrite Z.mod_small by (pose proof (Byte.to_N_bounded b); lia).
  rewrite N2Z.id, Byte.of_to_N. reflexivity.
Qed.

Lemma blength_nonneg (b : Buffer) : 0 <= blength b.
Proof. unfold blength. lia. Qed.

Lemma blength_app (a b : Buffer) : blength (a ++ b) = blength a + blength b.
Proof. unfold blength. rewrite length_app. lia. Qed.

Lemma blength_cons (x : byte) (b : Buffer) : blength (x :: b) = 1 + blength b.
Proof. unfold blength. cbn [length]. lia. Qed.

Lemma blength_firstn (n : nat) (b : Buffer) :
  blength (firstn n b) = Z.min (Z.of_nat n) (blength b).
Proof. unfold blength. rewrite length_firstn. lia. Qed.

Lemma blength_skipn (n : nat) (b : Buffer) :
  blength (skipn n b) = Z.max 0 (blength b - Z.of_nat n).
Proof. unfold blength. rewrite length_skipn. lia. Qed.

Lemma blength_repeat (x : byte) (n : nat) : blength (repeat x n) = Z.of_nat n.
Proof. unfold blength. rewrite repeat_length. reflexivity. Qed.

(** Lengths, down to linear arithmetic. *)
Ltac blen :=
  repeat rewrite ?blength_app, ?blength_cons, ?blength_firstn, ?blength_skipn,
    ?blength_repeat in *;
  unfold blength in *; cbn [length] in *;
  repeat rewrite ?length_app, ?length_firstn, ?length_skipn, ?repeat_length,
    ?length_map in *;
  try lia.

(** A read of four bytes sees the bytes at its offset only. *)
Lemma readUInt32LE_skipn (b : Buffer) (offset : Z) :
  0 <= offset ->
  readUInt32LE b offset = readUInt32LE (skipn (Z.to_nat offset) b) 0.
Proof.
  intros H. unfold readUInt32LE.
  rewrite blength_skipn. cbn [Z.to_nat skipn].
  destruct (offset + 4 <=? blength b) eqn:E1.
  - replace (0 <=? offset) with true by (symmetry; apply Z.leb_le; lia).
    replace (0 + 4 <=? Z.max 0 (blength b - Z.of_nat (Z.to_nat offset)))
      with true by (symmetry; apply Z.leb_le; apply Z.leb_le in E1; lia).
    reflexivity.
  - replace (0 + 4 <=? Z.max 0 (blength b - Z.of_nat (Z.to_nat offset)))
      with false by (symmetry; apply Z.leb_gt; apply Z.leb_gt in E1; lia).
    rewrite andb_false_r. reflexivity.
Qed.

Lemma readUInt32LE_app (a b : Buffer) (offset : Z) :
  0 <= offset -> offset + 4 <= blength a ->
  readUInt32LE (a ++ b) offset = readUInt32LE a offset.
Proof.
  intros H0 H1. unfold readUInt32LE.
  rewrite blength_app.
  replace (offset + 4 <=? blength a + blength b) with true
    by (symmetry; apply Z.leb_le; pose proof (blength_nonneg b); lia).
  replace (offset + 4 <=? blength a) with true by (symmetry; apply Z.leb_le; lia).
  rewrite skipn_app.
  assert (Hl : (Z.to_nat offset + 4 <= length a)%nat) by (unfold blength in H1; lia).
  pose proof (length_skipn (Z.to_nat offset) a) as Hs.
  destruct (skipn (Z.to_nat offset) a) as [|b0 [|b1 [|b2 [|b3 r]]]];
    cbn [length] in Hs; try lia.
  reflexivity.
Qed.

Lemma readUInt32LE_firstn (b : Buffer) (n : nat) (offset : Z) :
  0 <= offset -> offset + 4 <= Z.of_nat n -> (n <= length b)%nat ->
  readUInt32LE (firstn n b) offset = readUInt32LE b offset.
Proof.
  intros H0 H1 H2.
  rewrite <- (firstn_skipn n b) at 2.
  rewrite readUInt32LE_app; [reflexivity | lia |].
  rewrite blength_firstn. unfold blength. lia.
Qed.

Lemma readUInt32LE_None (b : Buffer) (offset : Z) :
  blength b < offset + 4 -> readUInt32LE b offset = None.
Proof.
  intros H. unfold readUInt32LE.
  replace (offset + 4 <=? blength b) with false by (symmetry; apply Z.leb_gt; lia).
  rewrite andb_false_r. reflexivity.
Qed.

Lemma readUInt32LE_Some (b : Buffer) (offset : Z) :
  0 <= offset -> offset + 4 <= blength b ->
  exists v, readUInt32LE b offset = Some v /\ 0 <= v < 2 ^ 32.
Proof.
  intros H0 H1. unfold readUInt32LE.
  replace (0 <=? offset) with true by (symmetry; apply Z.leb_le; lia).
  replace (offset + 4 <=? blength b) with true by (symmetry; apply Z.leb_le; lia).
  cbn [andb].
  pose proof (length_skipn (Z.to_nat offset) b) as Hs.
  assert (Hl : (Z.to_nat offset + 4 <= length b)%nat) by (unfold blength in H1; lia).
  destruct (skipn (Z.to_nat offset) b) as [|b0 [|b1 [|b2 [|b3 r]]]];
    cbn [length] in Hs; try lia.
  eexists. split; [reflexivity|].
  pose proof (u8_range b0). pose proof (u8_range b1).
  pose proof (u8_range b2). pose proof (u8_range b3). lia.
Qed.

Lemma readUInt32LE_nonneg (b : Buffer) (offset v : Z) :
  readUInt32LE b offset = Some v -> 0 <= v < 2 ^ 32.
Proof.
  unfold readUInt32LE.
  destruct ((0 <=? offset) && (offset + 4 <=? blength b)); [|discriminate].
  destruct (skipn (Z.to_nat offset) b) as [|b0 [|b1 [|b2 [|b3 r]]]];
    try discriminate.
  intros E. injection E as <-.
  pose proof (u8_range b0). pose proof (u8_range b1).
  pose proof (u8_range b2). pose proof (u8_range b3). lia.
Qed.


(** ** The frames of a stream *)

Lemma decide_Frame (header : Z) (s : Buffer) (len : Z) :
  decide header s = Frame len ->
  readUInt32LE s 0 = Some header /\ readUInt32LE s 16 = Some len
  /\ 0 <= len /\ len + 24 <= blength s.
Proof.
  unfold decide.
  destruct (readUInt32LE s 0) as [w|] eqn:E0; [|discriminate].
  destruct (w =? header) eqn:Ew; [|discriminate].
  destruct (readUInt32LE s 16) as [l|] eqn:E16; [|discriminate].
  destruct (l + 24 <=? blength s) eqn:El; [|discriminate].
  intros E. injection E as <-.
  apply Z.eqb_eq in Ew. subst w.
  apply readUInt32LE_nonneg in E16. apply Z.leb_le in El.
  repeat split; try reflexivity; lia.
Qed.

Lemma decide_Skip (header : Z) (s : Buffer) :
  decide header s = Skip ->
  exists w, readUInt32LE s 0 = Some w /\ w <> header /\ 4 <= blength s.
Proof.
  unfold decide.
  destruct (readUInt32LE s 0) as [w|] eqn:E0; [|discriminate].
  destruct (w =? header) eqn:Ew.
  - destruct (readUInt32LE s 16) as [l|]; [|discriminate].
    destruct (l + 24 <=? blength s); discriminate.
  - intros _. exists w. apply Z.eqb_neq in Ew.
    repeat split; try assumption.
    destruct (Z_lt_le_dec (blength s) (0 + 4)) as [Hlt|Hge]; [|lia].
    rewrite (readUInt32LE_None _ _ Hlt) in E0. discriminate.
Qed.

Lemma decide_short (header : Z) (s : Buffer) :
  blength s < 4 -> decide header s = Stop.
Proof.
  intros H. unfold decide. rewrite readUInt32LE_None by lia. reflexivity.
Qed.

Lemma decide_app_Frame (header : Z) (v w : Buffer) (len : Z) :
  decide header v = Frame len -> decide header (v ++ w) = Frame len.
Proof.
  intros H. apply decide_Frame in H. destruct H as (E0 & E16 & Hl & Hc).
  unfold decide.
  rewrite !readUInt32LE_app by lia. rewrite E0, E16, Z.eqb_refl.
  rewrite blength_app.
  replace (len + 24 <=? blength v + blength w) with true
    by (symmetry; apply Z.leb_le; pose proof (blength_nonneg w); lia).
  reflexivity.
Qed.

Lemma decide_app_Skip (header : Z) (v w : Buffer) :
  decide header v = Skip -> decide header (v ++ w) = Skip.
Proof.
  intros H. apply decide_Skip in H. destruct H as (x & E0 & Hx & Hl).
  unfold decide. rewrite readUInt32LE_app by lia. rewrite E0.
  apply Z.eqb_neq in Hx. rewrite Hx. reflexivity.
Qed.

Lemma find_frame_app (header : Z) (v w f v' : Buffer) :
  find_frame header v = Some (f, v') ->
  find_frame header (v ++ w) = Some (f, v' ++ w).
Proof.
  revert f v'. induction v as [|x v IH]; intros f v'.
  - cbn. discriminate.
  - cbn [find_frame]. destruct (decide header (x :: v)) as [|len|] eqn:D.
    + intros E. cbn [app find_frame].
      change (x :: v ++ w) with ((x :: v) ++ w).
      rewrite (decide_app_Skip _ _ w D).
      apply IH. exact E.
    + intros E. injection E as <- <-.
      cbn [app find_frame].
      change (x :: v ++ w) with ((x :: v) ++ w).
      rewrite (decide_app_Frame _ _ w _ D).
      apply decide_Frame in D. destruct D as (_ & _ & Hl & Hc).
      assert (Hn : (Z.to_nat (len + 24) <= length (x :: v))%nat)
        by (unfold blength in Hc; lia).
      rewrite firstn_app, skipn_app.
      replace (Z.to_nat (len + 24) - length (x :: v))%nat with O by lia.
      cbn [firstn skipn]. rewrite app_nil_r. reflexivity.
    + discriminate.
Qed.

Lemma find_frame_Some (header : Z) (s f s' : Buffer) :
  find_frame header s = Some (f, s') ->
  24 <= blength f /\ blength f + blength s' <= blength s
  /\ exists k, (k + length f <= length s)%nat
       /\ f = firstn (length f) (skipn k s) /\ s' = skipn (k + length f) s.
Proof.
  revert f s'. induction s as [|x s IH]; intros f s'.
  - cbn. discriminate.
  - cbn [find_frame]. destruct (decide header (x :: s)) as [|len|] eqn:D.
    + intros E. apply IH in E. destruct E as (H1 & H2 & k & Hk & Hf & Hs).
      split; [exact H1|]. split; [rewrite blength_cons; lia|].
      exists (S k). cbn [length skipn plus]. repeat split; try assumption. lia.
    + intros E. injection E as <- <-.
      apply decide_Frame in D. destruct D as (_ & _ & Hl & Hc).
      assert (Hn : (Z.to_nat (len + 24) <= length (x :: s))%nat)
        by (unfold blength in Hc; lia).
      assert (Hlen : length (firstn (Z.to_nat (len + 24)) (x :: s))
                     = Z.to_nat (len + 24))
        by (rewrite length_firstn; lia).
      split; [unfold blength; rewrite Hlen; lia|].
      split; [rewrite blength_firstn, blength_skipn; unfold blength; lia|].
      exists O. rewrite Hlen. cbn [skipn plus].
      repeat split; try reflexivity. lia.
    + discriminate.
Qed.

Lemma find_frame_short (header : Z) (s : Buffer) :
  blength s < 24 -> find_frame header s = None.
Proof.
  intros H. destruct (find_frame header s) as [[f s']|] eqn:E; [|reflexivity].
  apply find_frame_Some in E. pose proof (blength_nonneg s'). lia.
Qed.

Lemma find_frame_nil (header : Z) : find_frame header [] = None.
Proof. reflexivity. Qed.

Lemma framesFrom_fuel (header : Z) (fuel1 : nat) :
  forall (fuel2 : nat) (s residue : Buffer),
  (length s <= fuel1)%nat -> (length s <= fuel2)%nat ->
  framesFrom fuel1 header s residue = framesFrom fuel2 header s residue.
Proof.
  induction fuel1 as [|fuel1 IH]; intros fuel2 s residue H1 H2.
  - destruct s; [|cbn in H1; lia].
    destruct fuel2; reflexivity.
  - destruct fuel2 as [|fuel2].
    + destruct s; [reflexivity | cbn in H2; lia].
    + cbn [framesFrom].
      destruct (find_frame header s) as [[f s']|] eqn:E; [|reflexivity].
      apply find_frame_Some in E. destruct E as (G1 & G2 & _).
      unfold blength in G1, G2.
      rewrite (IH fuel2 s' s') by lia. reflexivity.
Qed.

(** The defining equation of [frames]. *)
Lemma framesFrom_eq (header : Z) (fuel : nat) (s residue : Buffer) :
  (length s <= fuel)%nat ->
  framesFrom fuel header s residue =
  match find_frame header s with
  | Some (frame, s') => let (fs, r) := frames header s' in (frame :: fs, r)
  | None => ([], residue)
  end.
Proof.
  intros H. destruct fuel as [|fuel].
  - destruct s; [reflexivity | cbn in H; lia].
  - cbn [framesFrom].
    destruct (find_frame header s) as [[f s']|] eqn:E; [|reflexivity].
    apply find_frame_Some in E. destruct E as (G1 & G2 & _).
    unfold blength in G1, G2. unfold frames.
    rewrite (framesFrom_fuel header fuel (length s') s' s') by lia.
    reflexivity.
Qed.

Lemma frames_eq (header : Z) (s : Buffer) :
  frames header s =
  match find_frame header s with
  | Some (frame, s') => let (fs, r) := frames header s' in (frame :: fs, r)
  | None => ([], s)
  end.
Proof. unfold frames at 1. apply framesFrom_eq. lia. Qed.

Lemma frames_short (header : Z) (s : Buffer) :
  blength s < 24 -> frames header s = ([], s).
Proof.
  intros H. rewrite frames_eq, find_frame_short by exact H. reflexivity.
Qed.

(** Induction on a stream along its frames. *)
Lemma frames_ind (header : Z) (P : Buffer -> Prop) :
  (forall s, find_frame header s = None -> P s) ->
  (forall s f s', find_frame header s = Some (f, s') -> P s' -> P s) ->
  forall s, P s.
Proof.
  intros Hnone Hsome s.
  remember (length s) as n eqn:En.
  revert s En. induction n as [n IH] using lt_wf_ind. intros s En.
  destruct (find_frame header s) as [[f s']|] eqn:E.
  - apply (Hsome s f s' E).
    apply find_frame_Some in E. destruct E as (G1 & G2 & _).
    unfold blength in G1, G2.
    apply (IH (length s')); [lia | reflexivity].
  - apply Hnone. exact E.
Qed.

(** More bytes after a stream: its frames, then those of what it left and
    the new bytes. *)
Lemma frames_app (header : Z) (w : Buffer) :
  forall v : Buffer,
  frames header (v ++ w) =
  (fst (frames header v) ++ fst (frames header (snd (frames header v) ++ w)),
   snd (frames header (snd (frames header v) ++ w))).
Proof.
  intros v. pattern v. apply (frames_ind header); clear v.
  - intros s E. rewrite (frames_eq header s), E. cbn [fst snd app].
    destruct (frames header (s ++ w)); reflexivity.
  - intros s f s' E IH.
    rewrite (frames_eq header (s ++ w)), (find_frame_app _ _ w _ _ E).
    rewrite (frames_eq header s), E.
    rewrite IH.
    destruct (frames header s') as [fs r]. cbn [fst snd app]. reflexivity.
Qed.

(** What is left after the frames of a stream holds no complete frame. *)
Lemma frames_residue (header : Z) :
  forall v : Buffer,
  frames header (snd (frames header v)) = ([], snd (frames header v)).
Proof.
  intros v. pattern v. apply (frames_ind header); clear v.
  - intros s E. rewrite (frames_eq header s), E. cbn [snd].
    rewrite frames_eq, E. reflexivity.
  - intros s f s' E IH. rewrite (frames_eq header s), E.
    destruct (frames header s') as [fs r]. cbn [snd] in *. exact IH.
Qed.

Lemma frames_residue_length (header : Z) :
  forall v : Buffer, blength (snd (frames header v)) <= blength v.
Proof.
  intros v. pattern v. apply (frames_ind header); clear v.
  - intros s E. rewrite (frames_eq header s), E. cbn [snd]. lia.
  - intros s f s' E IH. rewrite (frames_eq header s), E.
    apply find_frame_Some in E. destruct E as (G1 & G2 & _).
    destruct (frames header s') as [fs r]. cbn [snd] in *. lia.
Qed.


(** ** [_processMessage] *)

Ltac munfold :=
  cbv beta iota zeta delta
    [bind ret this modify emit effect throw orThrow detached tryCatch].

Lemma bind_this {A} (k : Peer -> M A) (p : Peer) : bind this k p = k p p.
Proof. unfold bind, this. destruct (k p p) as [[p2 l2] c]. reflexivity. Qed.

Lemma bind_ret {A B} (a : A) (k : A -> M B) (p : Peer) :
  bind (ret a) k p = k a p.
Proof. unfold bind, ret. destruct (k a p) as [[p2 l2] c]. reflexivity. Qed.

Lemma bind_throw {A B} (e : Exn) (k : A -> M B) (p : Peer) :
  bind (throw e) k p = (p, [], Thrown e).
Proof. reflexivity. Qed.

Lemma set_remotePublicKey_same (p : Peer) :
  set_remotePublicKey (_remotePublicKey p) p = p.
Proof. destruct p. reflexivity. Qed.

Lemma _processMessage_eq (message : Buffer) (p : Peer) :
  _processMessage message p =
  match readUInt32LE message 16 with
  | Some messageLength =>
      match readUInt32BE message 20 with
      | Some checksum =>
          match verifiedPayload message messageLength checksum with
          | Returned (Some payload) => deliver (readCommand message) payload p
          | Returned None => (p, [], Returned tt)
          | Thrown e => (p, [], Thrown e)
          end
      | None => (p, [], Thrown RangeError)
      end
  | None => (p, [], Thrown RangeError)
  end.
Proof.
  unfold _processMessage, verifiedPayload, deliver. munfold.
  destruct (readUInt32LE message 16) as [len|]; [|reflexivity].
  destruct (readUInt32BE message 20) as [checksum|]; [|reflexivity].
  destruct (0 <? len).
  - destruct (Buffer_alloc len) as [z|]; [|reflexivity].
    destruct (readUInt32BE _ 0) as [v|]; [|reflexivity].
    destruct (checksum =? v); [|reflexivity].
    destruct (jsstring_eqb _ _); [reflexivity|].
    destruct (_remotePublicKey p) as [k|]; [|reflexivity].
    destruct (publicDecrypt k _); reflexivity.
  - destruct (jsstring_eqb _ _); [reflexivity|].
    destruct (_remotePublicKey p) as [k|]; [|reflexivity].
    destruct (publicDecrypt k _); reflexivity.
Qed.

Lemma _processMessage_key (message : Buffer) (p : Peer) :
  _processMessage message p =
  (set_remotePublicKey (fst (fst (processKey message (_remotePublicKey p)))) p,
   snd (fst (processKey message (_remotePublicKey p))),
   snd (processKey message (_remotePublicKey p))).
Proof.
  unfold processKey. rewrite !_processMessage_eq.
  destruct p as [ho st he bs so ha ca kp key ma ib ic em].
  cbn [_remotePublicKey].
  destruct (readUInt32LE message 16) as [len|]; [|reflexivity].
  destruct (readUInt32BE message 20) as [checksum|]; [|reflexivity].
  destruct (verifiedPayload message len checksum) as [[payload|]|e];
    try reflexivity.
  unfold deliver.
  destruct (jsstring_eqb _ _); [reflexivity|].
  cbn [_remotePublicKey set_remotePublicKey Peer_constructor].
  destruct key as [k|]; [|reflexivity].
  destruct (publicDecrypt k payload); reflexivity.
Qed.

Lemma processAll_key (fs : list Buffer) :
  forall p : Peer,
  processAll fs p =
  (set_remotePublicKey (fst (fst (processKeys fs (_remotePublicKey p)))) p,
   snd (fst (processKeys fs (_remotePublicKey p))),
   snd (processKeys fs (_remotePublicKey p))).
Proof.
  induction fs as [|m fs IH]; intros p.
  - cbn. rewrite set_remotePublicKey_same. reflexivity.
  - cbn [processAll processKeys]. unfold bind.
    rewrite _processMessage_key.
    destruct (processKey m (_remotePublicKey p)) as [[k1 l1] [[]|e]];
      cbn [fst snd]; [|reflexivity].
    rewrite IH. cbn [_remotePublicKey set_remotePublicKey].
    destruct (processKeys fs k1) as [[k2 l2] c2]. cbn [fst snd].
    destruct p; reflexivity.
Qed.

Lemma processKeys_app (fs1 fs2 : list Buffer) :
  forall key : option jsstring,
  processKeys (fs1 ++ fs2) key =
  match processKeys fs1 key with
  | (key1, l1, Returned _) =>
      match processKeys fs2 key1 with
      | (key2, l2, c) => (key2, l1 ++ l2, c)
      end
  | (key1, l1, Thrown e) => (key1, l1, Thrown e)
  end.
Proof.
  induction fs1 as [|m fs1 IH]; intros key.
  - cbn. destruct (processKeys fs2 key) as [[k l] c]. reflexivity.
  - cbn [app processKeys].
    destruct (processKey m key) as [[k1 l1] [[]|e]]; [|reflexivity].
    rewrite IH.
    destruct (processKeys fs1 k1) as [[k2 l2] [[]|e2]]; [|reflexivity].
    destruct (processKeys fs2 k2) as [[k3 l3] c3].
    rewrite app_assoc. reflexivity.
Qed.

(** No frame makes [_processMessage] run out of anything: it completes
    normally or with the exception of a read or of the decryption. *)
Lemma processKey_completion (message : Buffer) (key : option jsstring) :
  snd (processKey message key) <> Thrown FuelExhausted.
Proof.
  unfold processKey. rewrite _processMessage_eq.
  destruct (readUInt32LE message 16) as [len|]; [|cbn; discriminate].
  destruct (readUInt32BE message 20) as [checksum|]; [|cbn; discriminate].
  unfold verifiedPayload.
  destruct (0 <? len).
  - destruct (Buffer_alloc len) as [z|]; [|cbn; discriminate].
    destruct (readUInt32BE _ 0) as [v|]; [|cbn; discriminate].
    destruct (checksum =? v); [|cbn; discriminate].
    unfold deliver. destruct (jsstring_eqb _ _); [cbn; discriminate|].
    cbn [_remotePublicKey set_remotePublicKey Peer_constructor].
    destruct key as [k|]; [|cbn; discriminate].
    destruct (publicDecrypt k _); cbn; discriminate.
  - unfold deliver. destruct (jsstring_eqb _ _); [cbn; discriminate|].
    cbn [_remotePublicKey set_remotePublicKey Peer_constructor].
    destruct key as [k|]; [|cbn; discriminate].
    destruct (publicDecrypt k _); cbn; discriminate.
Qed.

Lemma processKeys_completion (fs : list Buffer) :
  forall key, snd (processKeys fs key) <> Thrown FuelExhausted.
Proof.
  induction fs as [|m fs IH]; intros key.
  - cbn. discriminate.
  - cbn [processKeys]. pose proof (processKey_completion m key) as H.
    destruct (processKey m key) as [[k1 l1] [[]|e]]; cbn [snd] in *.
    + specialize (IH k1). destruct (processKeys fs k1) as [[k2 l2] c2].
      exact IH.
    + exact H.
Qed.


(** ** The scan of [_socketEventData] *)

Lemma readUInt32LE_shift (b : Buffer) (c k : Z) :
  0 <= c -> 0 <= k ->
  readUInt32LE b (c + k) = readUInt32LE (skipn (Z.to_nat c) b) k.
Proof.
  intros Hc Hk.
  rewrite (readUInt32LE_skipn b (c + k)) by lia.
  rewrite (readUInt32LE_skipn (skipn (Z.to_nat c) b) k) by lia.
  rewrite skipn_skipn. f_equal. f_equal. lia.
Qed.

Lemma blength_received (B : Buffer) (n : Z) :
  0 <= n <= blength B -> blength (received B n) = n.
Proof. intros H. unfold received. rewrite blength_firstn. lia. Qed.

Lemma read_received (B : Buffer) (n c k : Z) :
  0 <= c -> 0 <= k -> c + k + 4 <= n -> n <= blength B ->
  readUInt32LE B (c + k)
  = readUInt32LE (skipn (Z.to_nat c) (received B n)) k.
Proof.
  intros Hc Hk Hn HB.
  rewrite <- readUInt32LE_shift by lia.
  unfold received. rewrite readUInt32LE_firstn; [reflexivity | lia | lia |].
  unfold blength in HB. lia.
Qed.

Lemma slice_received (B : Buffer) (n c m : Z) :
  0 <= c -> 0 <= m -> c + m <= n -> n <= blength B ->
  Buffer_slice B c (c + m)
  = firstn (Z.to_nat m) (skipn (Z.to_nat c) (received B n)).
Proof.
  intros Hc Hm Hn HB. unfold Buffer_slice, received.
  replace (c + m - c) with m by lia.
  rewrite skipn_firstn_comm, firstn_firstn.
  f_equal. lia.
Qed.

Lemma scanLoop_done (fuel : nat) (cursor messageEnd : Z) (p : Peer) :
  _inCursor p <= cursor ->
  scanLoop (S fuel) cursor messageEnd p = (p, [], Returned messageEnd).
Proof.
  intros H. cbn [scanLoop]. munfold.
  replace (cursor <? _inCursor p) with false
    by (symmetry; apply Z.ltb_ge; lia).
  reflexivity.
Qed.

Lemma set_remotePublicKey_twice (k1 k2 : option jsstring) (p : Peer) :
  set_remotePublicKey k2 (set_remotePublicKey k1 p) = set_remotePublicKey k2 p.
Proof. reflexivity. Qed.


Section Scan.

Variable B : Buffer.
Variable n h : Z.
Hypothesis n_bounds : 0 <= n <= blength B.

Let v : Buffer := received B n.

Lemma blength_suffix (cursor : Z) :
  0 <= cursor -> blength (skipn (Z.to_nat cursor) v) = Z.max 0 (n - cursor).
Proof.
  intros H. rewrite blength_skipn. unfold v. rewrite blength_received by lia.
  lia.
Qed.

Lemma suffix_tl (cursor : Z) :
  0 <= cursor ->
  skipn (Z.to_nat (cursor + 1)) v = tl (skipn (Z.to_nat cursor) v).
Proof.
  intros H. replace (Z.to_nat (cursor + 1)) with (1 + Z.to_nat cursor)%nat by lia.
  rewrite <- skipn_skipn. destruct (skipn (Z.to_nat cursor) v); reflexivity.
Qed.

Lemma framesFrom_short (s residue : Buffer) :
  blength s < 24 -> framesFrom (length s) h s residue = ([], residue).
Proof.
  intros H. rewrite framesFrom_eq by lia.
  rewrite find_frame_short by exact H. reflexivity.
Qed.

Lemma scanLoop_spec (fuel : nat) :
  forall (cursor messageEnd : Z) (p : Peer) (fs : list Buffer) (r : Buffer)
         (key : option jsstring) (log : list Effect) (c : Completion unit),
  _inBuffer p = Some B -> _inCursor p = n -> _header p = h ->
  0 <= messageEnd <= cursor -> messageEnd <= n ->
  (Z.to_nat (n - cursor) < fuel)%nat ->
  framesFrom (length (skipn (Z.to_nat cursor) v)) h
    (skipn (Z.to_nat cursor) v) (skipn (Z.to_nat messageEnd) v) = (fs, r) ->
  processKeys fs (_remotePublicKey p) = (key, log, c) ->
  exists c', scanLoop fuel cursor messageEnd p
             = (set_remotePublicKey key p, log, c')
             /\ scan_post B n h cursor messageEnd fs r c c'.
Proof.
  induction fuel as [|fuel IH];
    intros cursor messageEnd p fs r key log c HB Hn Hh He Hen Hfuel HF HK;
    [lia|].
  set (s := skipn (Z.to_nat cursor) v) in *.
  assert (Hs : blength s = Z.max 0 (n - cursor)) by (apply blength_suffix; lia).
  assert (Hres : 0 < n - cursor ->
                 skipn (Z.to_nat messageEnd) v <> []).
  { intros Hpos E. apply (f_equal blength) in E.
    rewrite blength_suffix in E by lia. cbn in E. lia. }
  assert (R0 : cursor + 4 <= n -> readUInt32LE s 0 = readUInt32LE B cursor).
  { intros Hc. unfold s, v. rewrite <- read_received by lia.
    f_equal. lia. }
  assert (R16 : cursor + 20 <= n ->
                readUInt32LE s 16 = readUInt32LE B (cursor + 16)).
  { intros Hc. unfold s, v. rewrite <- read_received by lia. reflexivity. }
  destruct (Z_lt_le_dec cursor n) as [Hlt|Hge].
  2:{ (* the loop ends *)
    rewrite scanLoop_done by lia.
    rewrite framesFrom_short in HF by lia. injection HF as <- <-.
    cbn in HK. injection HK as <- <- <-.
    rewrite set_remotePublicKey_same.
    eexists. split; [reflexivity|]. left. exists messageEnd.
    repeat split; try reflexivity; lia. }
  cbn [scanLoop]. munfold.
  replace (cursor <? _inCursor p) with true by (symmetry; apply Z.ltb_lt; lia).
  rewrite HB, Hn, Hh.
  destruct (readUInt32LE B cursor) as [word|] eqn:Eword.
  2:{ (* the read of the header is out of range *)
    assert (HBc : blength B < cursor + 4).
    { destruct (Z_lt_le_dec (blength B) (cursor + 4)) as [?|Hle]; [assumption|].
      destruct (readUInt32LE_Some B cursor) as (x & Ex & _); try lia.
      congruence. }
    rewrite framesFrom_short in HF by lia. injection HF as <- <-.
    cbn in HK. injection HK as <- <- <-.
    rewrite set_remotePublicKey_same.
    eexists. split; [reflexivity|]. right.
    repeat split; try lia.
    - apply Hres. lia.
    - intros rem Hrem. rewrite frames_short; [reflexivity|].
      rewrite blength_app. fold v; fold s. lia. }
  destruct (word =? h) eqn:Ew.
  2:{ (* not a header: next byte *)
    apply Z.eqb_neq in Ew.
    assert (HF' : framesFrom (length (skipn (Z.to_nat (cursor + 1)) v)) h
                    (skipn (Z.to_nat (cursor + 1)) v)
                    (skipn (Z.to_nat messageEnd) v) = (fs, r)).
    { rewrite <- HF. rewrite !framesFrom_eq by lia.
      destruct (Z_lt_le_dec n (cursor + 4)) as [Hshort|Hlong].
      - rewrite !find_frame_short; [reflexivity | lia |].
        rewrite blength_suffix by lia. lia.
      - rewrite suffix_tl by lia. fold v; fold s.
        assert (D : decide h s = Skip).
        { unfold decide. rewrite R0 by lia.
          apply Z.eqb_neq in Ew. rewrite Ew. reflexivity. }
        destruct s as [|x s'] eqn:Es; [cbn in Hs; lia|].
        cbn [find_frame tl]. rewrite D. reflexivity. }
    destruct (IH (cursor + 1) messageEnd p fs r key log c)
      as (c' & Hrun & Hpost); try assumption; try lia.
    exists c'. split; [rewrite Hrun; reflexivity|].
    unfold scan_post in Hpost |- *; fold v in Hpost |- *. destruct c as [[]|e]; [|assumption].
    destruct Hpost as [Hl|(Hc' & HBn & Hr & Hext)]; [left; assumption|].
    right. repeat split; try assumption.
    intros rem Hrem. specialize (Hext rem Hrem). fold v; fold s.
    destruct (Z_lt_le_dec n (cursor + 4)) as [Hshort|Hlong].
    + rewrite framesFrom_short in HF' by (rewrite blength_suffix; lia).
      injection HF' as <- _.
      rewrite frames_short; [reflexivity|]. rewrite blength_app. lia.
    + rewrite <- Hext. rewrite suffix_tl by lia. fold v; fold s.
      assert (D : decide h s = Skip).
      { unfold decide. rewrite R0 by lia.
        apply Z.eqb_neq in Ew. rewrite Ew. reflexivity. }
      rewrite (frames_eq h (s ++ rem)).
      rewrite (frames_eq h (tl s ++ rem)).
      destruct s as [|x s'] eqn:Es; [cbn in Hs; lia|].
      cbn [app find_frame tl].
      change (x :: s' ++ rem) with ((x :: s') ++ rem).
      rewrite (decide_app_Skip _ _ rem D).
      destruct (find_frame h (s' ++ rem)) as [[f0 t0]|]; [|reflexivity].
      destruct (frames h t0); reflexivity. }
  apply Z.eqb_eq in Ew. subst word.
  destruct (cursor + 16 <? n) eqn:E16.
  2:{ (* a header with fewer than 17 bytes: wait *)
    apply Z.ltb_ge in E16.
    destruct fuel as [|fuel]; [lia|].
    rewrite scanLoop_done by lia.
    rewrite framesFrom_short in HF by lia. injection HF as <- <-.
    cbn in HK. injection HK as <- <- <-.
    rewrite set_remotePublicKey_same.
    eexists. split; [reflexivity|]. left. exists messageEnd.
    repeat split; try reflexivity; lia. }
  apply Z.ltb_lt in E16.
  assert (D0 : readUInt32LE s 0 = Some h).
  { rewrite R0 by lia. reflexivity. }
  destruct (readUInt32LE B (cursor + 16)) as [len|] eqn:Elen.
  2:{ (* the read of the length is out of range *)
    assert (HBc : blength B < cursor + 20).
    { destruct (Z_lt_le_dec (blength B) (cursor + 20)) as [?|Hle]; [assumption|].
      destruct (readUInt32LE_Some B (cursor + 16)) as (x & Ex & _); try lia.
      congruence. }
    rewrite framesFrom_short in HF by lia. injection HF as <- <-.
    cbn in HK. injection HK as <- <- <-.
    rewrite set_remotePublicKey_same.
    eexists. split; [reflexivity|]. right.
    repeat split; try lia.
    - apply Hres. lia.
    - intros rem Hrem. rewrite frames_short; [reflexivity|].
      rewrite blength_app. fold v; fold s. lia. }
  pose proof (readUInt32LE_nonneg _ _ _ Elen) as Hlen.
  destruct (cursor + len + 24 <=? n) eqn:Ecomplete.
  2:{ (* the frame is not complete: wait *)
    apply Z.leb_gt in Ecomplete.
    destruct fuel as [|fuel]; [lia|].
    rewrite scanLoop_done by lia.
    assert (D : decide h s = Stop).
    { unfold decide. rewrite D0, Z.eqb_refl.
      destruct (Z_lt_le_dec n (cursor + 20)) as [Hshort|Hlong].
      - rewrite readUInt32LE_None by lia. reflexivity.
      - rewrite R16 by lia.
        replace (len + 24 <=? blength s) with false
          by (symmetry; apply Z.leb_gt; lia).
        reflexivity. }
    rewrite framesFrom_eq in HF by lia.
    assert (Hnone : find_frame h s = None).
    { destruct s; cbn [find_frame]; rewrite D; reflexivity. }
    rewrite Hnone in HF. injection HF as <- <-.
    cbn in HK. injection HK as <- <- <-.
    rewrite set_remotePublicKey_same.
    eexists. split; [reflexivity|]. left. exists messageEnd.
    repeat split; try reflexivity; lia. }
  (* a complete frame *)
  apply Z.leb_le in Ecomplete.
  assert (D : decide h s = Frame len).
  { unfold decide. rewrite D0, Z.eqb_refl.
    rewrite R16 by lia.
    replace (len + 24 <=? blength s) with true
      by (symmetry; apply Z.leb_le; lia).
    reflexivity. }
  assert (Hfind : find_frame h s
                  = Some (firstn (Z.to_nat (len + 24)) s,
                          skipn (Z.to_nat (len + 24)) s)).
  { destruct s; cbn [find_frame]; rewrite D; reflexivity. }
  assert (Hnext : skipn (Z.to_nat (len + 24)) s
                  = skipn (Z.to_nat (cursor + (len + 24))) v).
  { unfold s. rewrite skipn_skipn. f_equal. lia. }
  replace (cursor + len + 24) with (cursor + (len + 24)) by lia.
  rewrite (slice_received B n cursor (len + 24)) by lia. fold v; fold s.
  rewrite framesFrom_eq in HF by lia. rewrite Hfind in HF.
  unfold frames in HF. rewrite Hnext in HF.
  destruct (framesFrom (length (skipn (Z.to_nat (cursor + (len + 24))) v)) h
              (skipn (Z.to_nat (cursor + (len + 24))) v)
              (skipn (Z.to_nat (cursor + (len + 24))) v))
    as [fs' r'] eqn:HF'.
  injection HF as <- <-.
  cbn [processKeys] in HK.
  rewrite _processMessage_key.
  destruct (processKey (firstn (Z.to_nat (len + 24)) s) (_remotePublicKey p))
    as [[k1 l1] [[]|e1]] eqn:HP; cbn [fst snd].
  2:{ injection HK as <- <- <-.
      eexists. split; [reflexivity|]. reflexivity. }
  destruct (processKeys fs' k1) as [[k2 l2] c2] eqn:HK2.
  injection HK as <- <- <-.
  destruct (IH (cursor + (len + 24)) (cursor + (len + 24))
               (set_remotePublicKey k1 p) fs' r' k2 l2 c2)
    as (c' & Hrun & Hpost); try assumption; try lia.
  rewrite Hrun. rewrite set_remotePublicKey_twice.
  exists c'. split; [reflexivity|].
  unfold scan_post in Hpost |- *; fold v in Hpost |- *. destruct c2 as [[]|e2]; [|assumption].
  destruct Hpost as [(e' & Hc' & He' & Hr')|(Hc' & HBn & Hr & Hext)].
  - left. exists e'. repeat split; try assumption; lia.
  - right. repeat split; try assumption.
    intros rem Hrem. specialize (Hext rem Hrem). fold v; fold s.
    rewrite frames_eq. rewrite (find_frame_app _ _ rem _ _ Hfind).
    rewrite Hnext.
    destruct (frames h (skipn (Z.to_nat (cursor + (len + 24))) v ++ rem))
      as [fs'' r''].
    cbn [fst] in *. congruence.
Qed.

End Scan.


(** ** [_socketEventData] *)

Lemma copy_append (d B : Buffer) (n : Z) :
  0 <= n -> n + blength d <= blength B ->
  Buffer_copy d B n 0 (blength d)
  = received B n ++ d ++ skipn (Z.to_nat (n + blength d)) B.
Proof.
  intros Hn Hfit. unfold Buffer_copy, received.
  destruct ((blength B <=? n) || (blength d <=? 0)) eqn:E.
  - assert (Hd : d = []).
    { destruct d; [reflexivity|].
      apply orb_true_iff in E. rewrite blength_cons in *.
      pose proof (blength_nonneg d).
      destruct E as [E|E]; apply Z.leb_le in E; lia. }
    subst d. cbn [app blength length Z.of_nat]. rewrite Z.add_0_r.
    symmetry. apply firstn_skipn.
  - apply orb_false_iff in E. destruct E as [E1 E2].
    apply Z.leb_gt in E1, E2.
    replace (Z.min (Z.min (blength d) (blength d) - 0) (blength B - n))
      with (blength d) by lia.
    cbn [Z.to_nat skipn].
    rewrite (@firstn_all2 _ (Z.to_nat (blength d)) d) by (unfold blength; lia).
    f_equal. f_equal. f_equal. unfold blength. lia.
Qed.

Lemma blength_copy_append (d B : Buffer) (n : Z) :
  0 <= n -> n + blength d <= blength B ->
  blength (Buffer_copy d B n 0 (blength d)) = blength B.
Proof.
  intros Hn Hfit. rewrite copy_append by assumption. unfold received.
  pose proof (blength_nonneg d).
  rewrite !blength_app, blength_firstn, blength_skipn. lia.
Qed.

Lemma received_copy_append (d B : Buffer) (n : Z) :
  0 <= n -> n + blength d <= blength B ->
  received (Buffer_copy d B n 0 (blength d)) (n + blength d)
  = received B n ++ d.
Proof.
  intros Hn Hfit. rewrite copy_append by assumption.
  pose proof (blength_nonneg d).
  unfold received at 1. rewrite app_assoc, firstn_app.
  assert (Hl : length (received B n ++ d) = Z.to_nat (n + blength d)).
  { rewrite length_app. unfold received. rewrite length_firstn.
    unfold blength in *. lia. }
  rewrite Hl, Nat.sub_diag. cbn [firstn]. rewrite app_nil_r.
  rewrite <- Hl. apply firstn_all.
Qed.

Lemma copy_compact (B : Buffer) (e n : Z) :
  0 < e <= n -> n <= blength B ->
  Buffer_copy B B 0 e n
  = skipn (Z.to_nat e) (received B n) ++ skipn (Z.to_nat (n - e)) B.
Proof.
  intros He Hn. unfold Buffer_copy, received.
  replace (blength B <=? 0) with false by (symmetry; apply Z.leb_gt; lia).
  cbn [orb].
  destruct (n <=? e) eqn:E.
  - apply Z.leb_le in E. assert (e = n) by lia. subst e.
    rewrite skipn_all2 by (rewrite length_firstn; lia).
    rewrite Z.sub_diag. reflexivity.
  - apply Z.leb_gt in E.
    replace (Z.min (Z.min n (blength B) - e) (blength B - 0)) with (n - e)
      by lia.
    cbn [Z.to_nat firstn app plus].
    rewrite skipn_firstn_comm.
    assert (Hl : length (firstn (Z.to_nat (n - e)) (skipn (Z.to_nat e) B))
                 = Z.to_nat (n - e)).
    { rewrite length_firstn, length_skipn. unfold blength in Hn. lia. }
    rewrite Hl.
    replace (Z.to_nat n - Z.to_nat e)%nat with (Z.to_nat (n - e)) by lia.
    reflexivity.
Qed.

Lemma blength_copy_compact (B : Buffer) (e n : Z) :
  0 < e <= n -> n <= blength B -> blength (Buffer_copy B B 0 e n) = blength B.
Proof.
  intros He Hn. rewrite copy_compact by assumption. unfold received.
  rewrite blength_app, !blength_skipn, blength_firstn. lia.
Qed.

Lemma received_copy_compact (B : Buffer) (e n : Z) :
  0 < e <= n -> n <= blength B ->
  received (Buffer_copy B B 0 e n) (n - e) = skipn (Z.to_nat e) (received B n).
Proof.
  intros He Hn. rewrite copy_compact by assumption.
  unfold received at 1. rewrite firstn_app.
  assert (Hl : length (skipn (Z.to_nat e) (received B n)) = Z.to_nat (n - e)).
  { unfold received. rewrite length_skipn, length_firstn.
    unfold blength in Hn. lia. }
  rewrite Hl, Nat.sub_diag. cbn [firstn]. rewrite app_nil_r.
  rewrite <- Hl. apply firstn_all.
Qed.


Lemma _socketEventData_spec (p : Peer) (B d : Buffer) (n : Z)
    (fs : list Buffer) (r : Buffer) (key : option jsstring)
    (log : list Effect) (c : Completion unit) :
  _inBuffer p = Some B -> _inCursor p = n ->
  0 <= n -> n + blength d <= blength B ->
  frames (_header p) (received B n ++ d) = (fs, r) ->
  processKeys fs (_remotePublicKey p) = (key, log, c) ->
  exists B' n' c',
    _socketEventData d p = (with_stream p key B' n', log, c')
    /\ blength B' = blength B
    /\ match c with
       | Thrown e => c' = Thrown e
       | Returned _ =>
           (c' = Returned tt /\ n' = blength r /\ received B' n' = r)
           \/ (c' = Thrown RangeError /\ r <> []
               /\ forall rem, n + blength d + blength rem <= blength B ->
                    fst (frames (_header p) ((received B n ++ d) ++ rem)) = fs)
       end.
Proof.
  intros HB Hn Hn0 Hfit HF HK.
  pose proof (blength_nonneg d) as Hd.
  set (B1 := Buffer_copy d B n 0 (blength d)).
  set (n1 := n + blength d).
  assert (HB1 : blength B1 = blength B) by (apply blength_copy_append; lia).
  assert (Hv1 : received B1 n1 = received B n ++ d)
    by (apply received_copy_append; lia).
  unfold _socketEventData. munfold. rewrite HB, Hn.
  replace (blength B <? blength d + n) with false
    by (symmetry; apply Z.ltb_ge; lia).
  fold B1. cbn [_inCursor set_inCursor]. fold n1.
  destruct (n1 <? 20) eqn:E20.
  - (* fewer than 20 bytes: no scan *)
    apply Z.ltb_lt in E20.
    rewrite frames_short in HF
      by (rewrite <- Hv1, blength_received; lia).
    injection HF as <- <-. cbn in HK. injection HK as <- <- <-.
    exists B1, n1, (Returned tt). split; [|split; [exact HB1|]].
    + unfold with_stream. rewrite set_remotePublicKey_same. reflexivity.
    + left. rewrite <- Hv1, blength_received by lia. auto.
  - apply Z.ltb_ge in E20.
    set (p1 := set_inCursor n1 (set_inBuffer (Some B1) p)).
    destruct (scanLoop_spec B1 n1 (_header p) ltac:(lia)
                (S (Z.to_nat n1)) 0 0 p1 fs r key log c)
      as (c1 & Hrun & Hpost); try reflexivity; try lia.
    { cbn [Z.to_nat skipn]. rewrite Hv1. exact HF. }
    { exact HK. }
    rewrite Hrun. clear Hrun.
    unfold scan_post in Hpost. cbn [Z.to_nat skipn] in Hpost.
    rewrite Hv1 in Hpost.
    destruct c as [[]|e].
    + destruct Hpost as [(e' & -> & He' & Hr)|(-> & HBn & Hr & Hext)].
      * destruct (0 <? e') eqn:Ee.
        -- apply Z.ltb_lt in Ee.
           cbn [_inBuffer _inCursor set_remotePublicKey p1 set_inCursor
                set_inBuffer].
           exists (Buffer_copy B1 B1 0 e' n1), (n1 - e'), (Returned tt).
           split; [|split].
           ++ cbn [app]; rewrite ?app_nil_r; reflexivity.
           ++ rewrite blength_copy_compact by lia. exact HB1.
           ++ left. split; [reflexivity|].
              rewrite received_copy_compact by lia. rewrite Hv1, Hr.
              split; [|reflexivity].
              rewrite blength_skipn, <- Hv1, blength_received by lia. lia.
        -- apply Z.ltb_ge in Ee. assert (e' = 0) by lia. subst e'.
           exists B1, n1, (Returned tt). split; [|split; [exact HB1|]].
           ++ cbn [app]; rewrite ?app_nil_r; reflexivity.
           ++ left. split; [reflexivity|].
              cbn [Z.to_nat skipn] in Hr. subst r.
              rewrite <- Hv1, blength_received by lia. auto.
      * exists B1, n1, (Thrown RangeError). split; [|split; [exact HB1|]].
        -- cbn [app]; rewrite ?app_nil_r; reflexivity.
        -- right. repeat split; try assumption.
           intros rem Hrem. apply Hext. lia.
    + subst c1. exists B1, n1, (Thrown e). split; [|split; [exact HB1|]].
      * cbn [app]; rewrite ?app_nil_r; reflexivity.
      * reflexivity.
Qed.


(** ** A connection's data events *)

Lemma with_stream_fields (p : Peer) (key : option jsstring) (B : Buffer) (n : Z) :
  _inBuffer (with_stream p key B n) = Some B
  /\ _inCursor (with_stream p key B n) = n
  /\ _header (with_stream p key B n) = _header p
  /\ _remotePublicKey (with_stream p key B n) = key.
Proof. repeat split. Qed.

(** The notifications of a run of data events are those of
    [_processMessage] over the frames of the whole stream, however the stream
    is cut into chunks. *)
Lemma dataEvents_spec (chunks : list Buffer) :
  forall (p : Peer) (B r : Buffer),
  _inBuffer p = Some B -> _inCursor p = blength r ->
  received B (blength r) = r ->
  fst (frames (_header p) r) = [] ->
  blength r + blength (concat chunks) <= blength B ->
  log_of (dataEvents chunks p)
  = snd (fst (processKeys (fst (frames (_header p) (r ++ concat chunks)))
                          (_remotePublicKey p))).
Proof.
  induction chunks as [|d ds IH]; intros p B r HB Hn Hr Hnone Hfit.
  - cbn [concat dataEvents]. rewrite app_nil_r, Hnone. reflexivity.
  - cbn [concat dataEvents] in *. rewrite blength_app in Hfit.
    pose proof (blength_nonneg r) as Hr0.
    pose proof (blength_nonneg d) as Hd0.
    pose proof (blength_nonneg (concat ds)) as Hds0.
    rewrite app_assoc, frames_app.
    destruct (frames (_header p) (r ++ d)) as [fs1 r1] eqn:HF1.
    cbn [fst snd].
    rewrite processKeys_app.
    destruct (processKeys fs1 (_remotePublicKey p)) as [[k1 l1] c1] eqn:HK1.
    destruct (_socketEventData_spec p B d (blength r) fs1 r1 k1 l1 c1)
      as (B' & n' & c' & Hrun & HB' & Hpost); try assumption; try lia.
    { rewrite Hr. exact HF1. }
    unfold bind, log_of. rewrite Hrun.
    pose proof (frames_residue (_header p) (r ++ d)) as Hres.
    pose proof (frames_residue_length (_header p) (r ++ d)) as Hlen.
    rewrite HF1 in Hres, Hlen. cbn [snd] in Hres, Hlen.
    rewrite blength_app in Hlen.
    destruct c1 as [[]|e].
    + destruct Hpost as [(-> & -> & Hr1)|(-> & Hne & Hext)].
      * specialize (IH (with_stream p k1 B' (blength r1)) B' r1).
        unfold log_of in IH.
        destruct (dataEvents ds (with_stream p k1 B' (blength r1)))
          as [[p2 l2] c2].
        cbn [fst snd] in *.
        change (_header (with_stream p k1 B' (blength r1)))
          with (_header p) in IH.
        change (_remotePublicKey (with_stream p k1 B' (blength r1)))
          with k1 in IH.
        rewrite IH; try reflexivity; try assumption; try lia.
        -- destruct (processKeys _ k1) as [[k3 l3] c3]. reflexivity.
        -- rewrite Hres. reflexivity.
      * cbn [fst snd].
        assert (Hno : fst (frames (_header p) (r1 ++ concat ds)) = []).
        { specialize (Hext (concat ds) ltac:(lia)).
          rewrite Hr, frames_app, HF1 in Hext. cbn [fst snd] in Hext.
          rewrite <- (app_nil_r fs1) in Hext at 2.
          apply app_inv_head in Hext. exact Hext. }
        rewrite Hno. cbn. rewrite app_nil_r. reflexivity.
    + subst c'. reflexivity.
Qed.


(** ** The scan always ends *)

Lemma scanLoop_total (fuel : nat) :
  forall (cursor messageEnd : Z) (p : Peer),
  0 <= cursor ->
  (Z.to_nat (_inCursor p - cursor) < fuel)%nat ->
  completion_of (scanLoop fuel cursor messageEnd p) <> Thrown FuelExhausted.
Proof.
  induction fuel as [|fuel IH]; intros cursor messageEnd p Hc Hf; [lia|].
  cbn [scanLoop]. munfold.
  destruct (cursor <? _inCursor p) eqn:E; [|cbn; discriminate].
  apply Z.ltb_lt in E.
  destruct (_inBuffer p) as [B|]; [|cbn; discriminate].
  destruct (readUInt32LE B cursor) as [word|]; [|cbn; discriminate].
  destruct (word =? _header p).
  - destruct (cursor + 16 <? _inCursor p).
    + destruct (readUInt32LE B (cursor + 16)) as [len|] eqn:El;
        [|cbn; discriminate].
      apply readUInt32LE_nonneg in El.
      destruct (cursor + len + 24 <=? _inCursor p).
      * rewrite _processMessage_key.
        pose proof (processKey_completion
                      (Buffer_slice B cursor (cursor + len + 24))
                      (_remotePublicKey p)) as Hp.
        destruct (processKey _ (_remotePublicKey p)) as [[k1 l1] [[]|e]];
          cbn [fst snd] in *;
          [|cbn; intros Q; injection Q as ->; apply Hp; reflexivity].
        specialize (IH (cursor + (len + 24)) (cursor + len + 24)
                       (set_remotePublicKey k1 p)).
        destruct (scanLoop fuel _ _ (set_remotePublicKey k1 p))
          as [[p2 l2] c2].
        apply IH; [lia|]. cbn [_inCursor set_remotePublicKey]. lia.
      * specialize (IH (cursor + (len + 24)) messageEnd p).
        destruct (scanLoop fuel _ _ p) as [[p2 l2] c2].
        apply IH; lia.
    + specialize (IH (_inCursor p) messageEnd p).
      destruct (scanLoop fuel _ _ p) as [[p2 l2] c2].
      apply IH; lia.
  - specialize (IH (cursor + 1) messageEnd p).
    destruct (scanLoop fuel _ _ p) as [[p2 l2] c2].
    apply IH; lia.
Qed.

Lemma _socketEventData_total (data : Buffer) (p : Peer) :
  completion_of (_socketEventData data p) <> Thrown FuelExhausted.
Proof.
  unfold _socketEventData. munfold.
  destruct (_inBuffer p) as [B|] eqn:HB; [|cbn; discriminate].
  destruct (blength B <? blength data + _inCursor p);
    [destruct (_eventEmitter p); cbn; discriminate|].
  cbn [_inCursor set_inCursor].
  destruct (_inCursor p + blength data <? 20); [cbn; discriminate|].
  set (p1 := set_inCursor _ _).
  pose proof (scanLoop_total (S (Z.to_nat (_inCursor p + blength data)))
                0 0 p1 ltac:(lia)) as Ht.
  destruct (scanLoop _ 0 0 p1) as [[p2 l2] [e|ex]]; cbn [completion_of snd] in *.
  - destruct (0 <? e); [|cbn; discriminate].
    destruct (_inBuffer p2); cbn; discriminate.
  - cbn. intros Q. injection Q as ->. apply Ht; [|reflexivity].
    subst p1. cbn [_inCursor set_inCursor]. lia.
Qed.

Lemma dataEvents_total (chunks : list Buffer) :
  forall p : Peer,
  completion_of (dataEvents chunks p) <> Thrown FuelExhausted.
Proof.
  induction chunks as [|d ds IH]; intros p.
  - cbn. discriminate.
  - cbn [dataEvents]. unfold bind.
    pose proof (_socketEventData_total d p) as Hd.
    destruct (_socketEventData d p) as [[p1 l1] [[]|e]];
      cbn [completion_of snd] in *; [|exact Hd].
    specialize (IH p1). destruct (dataEvents ds p1) as [[p2 l2] c2].
    exact IH.
Qed.

(** C2. Fragmentation independence: from an empty accumulation buffer, the
    data events of a byte sequence cut into chunks in any way surface the
    same message notifications, in the same order, as the one data event of
    the whole sequence, when the sequence fits the buffer (no data event
    overflows it). *)
Theorem fragmentation_independence (p : Peer) (B : Buffer)
    (chunks : list Buffer) :
  _inBuffer p = Some B -> _inCursor p = 0 ->
  blength (concat chunks) <= blength B ->
  messages (log_of (dataEvents chunks p))
  = messages (log_of (dataEvents [concat chunks] p)).
Proof.
  intros HB Hn Hfit.
  assert (Hone : concat [concat chunks] = concat chunks)
    by (cbn [concat]; apply app_nil_r).
  rewrite (dataEvents_spec chunks p B []), (dataEvents_spec [concat chunks] p B []);
    try assumption; try reflexivity.
  - rewrite Hone. reflexivity.
  - rewrite Hone. exact Hfit.
Qed.


(** ** Overflow of the accumulation buffer *)

Lemma _socketEventData_overflow (p : Peer) (B data : Buffer) :
  _inBuffer p = Some B -> blength B < blength data + _inCursor p ->
  _eventEmitter p = ErrorListeners ->
  _socketEventData data p
  = (set_inCursor (blength B + 1) p,
     [Emit (EvError (str "Peer exceeded max receiving buffer"))],
     Returned tt).
Proof.
  intros HB Hover Hem. unfold _socketEventData. munfold. rewrite HB.
  replace (blength B <? blength data + _inCursor p) with true
    by (symmetry; apply Z.ltb_lt; lia).
  rewrite Hem. reflexivity.
Qed.

(** The same data event when the emitter raises: line 128 is not reached. *)
Lemma _socketEventData_overflow_raises (p : Peer) (B data : Buffer) :
  _inBuffer p = Some B -> blength B < blength data + _inCursor p ->
  _eventEmitter p <> ErrorListeners ->
  _socketEventData data p
  = (p,
     match _eventEmitter p with
     | NoErrorListener => []
     | _ => [Emit (EvError (str "Peer exceeded max receiving buffer"))]
     end,
     Thrown UnhandledError).
Proof.
  intros HB Hover Hem. unfold _socketEventData. munfold. rewrite HB.
  replace (blength B <? blength data + _inCursor p) with true
    by (symmetry; apply Z.ltb_lt; lia).
  destruct (_eventEmitter p); [reflexivity | contradiction | reflexivity].
Qed.

Lemma dataEvents_poisoned (later : list Buffer) :
  forall (p : Peer) (B : Buffer),
  _inBuffer p = Some B -> _inCursor p = blength B + 1 ->
  _eventEmitter p = ErrorListeners ->
  peer_of (dataEvents later p) = p
  /\ completion_of (dataEvents later p) = Returned tt
  /\ log_of (dataEvents later p)
     = map (fun _ => Emit (EvError (str "Peer exceeded max receiving buffer")))
           later.
Proof.
  induction later as [|d ds IH]; intros p B HB Hn Hem.
  - repeat split.
  - cbn [dataEvents map]. unfold bind.
    rewrite (_socketEventData_overflow p B d HB)
      by (try exact Hem; pose proof (blength_nonneg d); lia).
    replace (set_inCursor (blength B + 1) p) with p
      by (rewrite <- Hn; destruct p; reflexivity).
    destruct (IH p B HB Hn Hem) as (H1 & H2 & H3).
    destruct (dataEvents ds p) as [[p2 l2] c2].
    unfold peer_of, completion_of, log_of in *. cbn [fst snd] in *.
    subst. repeat split.
Qed.

(** ** The checksum *)

Lemma digest_length (msg : list byte) : length (SHA256.digest msg) = 32%nat.
Proof. unfold SHA256.digest, SHA256.be32. cbv zeta. reflexivity. Qed.

Lemma hmac_length (key msg : list byte) : length (SHA256.hmac key msg) = 32%nat.
Proof. unfold SHA256.hmac. cbv zeta. apply digest_length. Qed.

(** From here on the digest is a black box of 32 bytes. *)
Opaque SHA256.digest SHA256.hmac.

Lemma hex_digit_is_hex (n : Z) : 0 <= n < 16 -> is_hex_char (hex_digit n).
Proof.
  intros H. unfold is_hex_char, hex_digit.
  destruct (n <? 10) eqn:E; [apply Z.ltb_lt in E | apply Z.ltb_ge in E]; lia.
Qed.

Lemma hex_string_length (bs : list byte) :
  length (hex_string bs) = (2 * length bs)%nat.
Proof.
  unfold hex_string. induction bs as [|b bs IH]; [reflexivity|].
  cbn [flat_map hex_of_byte app length]. rewrite IH. lia.
Qed.

Lemma hex_string_is_hex (bs : list byte) : Forall is_hex_char (hex_string bs).
Proof.
  unfold hex_string. induction bs as [|b bs IH]; [constructor|].
  cbn [flat_map hex_of_byte app].
  pose proof (u8_range b).
  constructor; [|constructor; [|exact IH]]; apply hex_digit_is_hex.
  - split; [apply Z.div_pos; lia | apply Z.div_lt_upper_bound; lia].
  - apply Z.mod_pos_bound. lia.
Qed.

Lemma utf8_encode_ascii (s : jsstring) :
  Forall (fun c => 0 <= c < 128) s -> utf8_encode s = map byte_of s.
Proof.
  induction 1 as [|c s Hc Hs IH]; [reflexivity|].
  cbn [utf8_encode map].
  unfold is_high_surrogate, is_low_surrogate.
  replace (0xD800 <=? c) with false by (symmetry; apply Z.leb_gt; lia).
  replace (0xDC00 <=? c) with false by (symmetry; apply Z.leb_gt; lia).
  cbn [andb]. unfold utf8_of_code_point.
  replace (c <? 0x80) with true by (symmetry; apply Z.ltb_lt; lia).
  cbn [map app]. rewrite IH. reflexivity.
Qed.

Lemma is_hex_char_ascii (s : jsstring) :
  Forall is_hex_char s -> Forall (fun c => 0 <= c < 128) s.
Proof.
  apply Forall_impl. unfold is_hex_char. intros c H. lia.
Qed.

(** The checksum buffer of [send] and [_processMessage]: the 64 characters
    of the hex text, one byte each. *)
Lemma checksum_bytes (command : jsstring) (data : Buffer) :
  utf8_encode (_calculateChecksum command data)
  = map byte_of (_calculateChecksum command data).
Proof.
  apply utf8_encode_ascii, is_hex_char_ascii, hex_string_is_hex.
Qed.

Lemma checksum_length (command : jsstring) (data : Buffer) :
  blength (utf8_encode (_calculateChecksum command data)) = 64.
Proof.
  rewrite checksum_bytes. unfold blength, _calculateChecksum.
  rewrite length_map, hex_string_length, hmac_length. reflexivity.
Qed.

Lemma integrityTag_length (command : jsstring) (data : Buffer) :
  length (integrityTag command data) = 4%nat.
Proof.
  unfold integrityTag. rewrite length_firstn.
  pose proof (checksum_length command data) as H. unfold blength in H. lia.
Qed.

Lemma readUInt32BE_firstn4 (b : Buffer) :
  readUInt32BE (firstn 4 b) 0 = readUInt32BE b 0.
Proof.
  unfold readUInt32BE. cbn [Z.to_nat skipn].
  destruct b as [|b0 [|b1 [|b2 [|b3 r]]]]; try reflexivity.
  cbn [firstn]. unfold blength. cbn [length].
  replace (0 + 4 <=? Z.of_nat (S (S (S (S (length r)))))) with true
    by (symmetry; apply Z.leb_le; lia).
  reflexivity.
Qed.

Lemma readUInt32BE_Some (b : Buffer) :
  4 <= blength b -> exists v, readUInt32BE b 0 = Some v.
Proof.
  intros H. unfold readUInt32BE. cbn [Z.to_nat skipn].
  replace (0 + 4 <=? blength b) with true by (symmetry; apply Z.leb_le; lia).
  destruct b as [|b0 [|b1 [|b2 [|b3 r]]]];
    unfold blength in H; cbn [length] in H; try lia.
  eexists. reflexivity.
Qed.


(** ** [send]: the frame it writes *)

Lemma Some_inj {A} (a b : A) : Some a = Some b -> a = b.
Proof. intros E. injection E as ->. reflexivity. Qed.

Lemma poke_app (pre mid post bytes : Buffer) (offset : Z) :
  Z.to_nat offset = length pre -> length mid = length bytes ->
  poke (pre ++ mid ++ post) offset bytes = pre ++ bytes ++ post.
Proof.
  intros Ho Hm. unfold poke. rewrite Ho.
  rewrite firstn_app, firstn_all, Nat.sub_diag. cbn [firstn].
  rewrite app_nil_r. f_equal. f_equal.
  rewrite skipn_app.
  rewrite skipn_all2 by lia.
  replace (length pre + length bytes - length pre)%nat with (length mid) by lia.
  rewrite skipn_app, skipn_all, Nat.sub_diag. reflexivity.
Qed.

Lemma writeUInt32LE_app (pre mid post : Buffer) (value offset : Z) :
  0 <= offset -> Z.to_nat offset = length pre -> length mid = 4%nat ->
  writeUInt32LE (pre ++ mid ++ post) value offset
  = if is_uint32 value then Some (pre ++ le32 value ++ post) else None.
Proof.
  intros H0 Ho Hm. unfold writeUInt32LE, is_uint32.
  destruct ((0 <=? value) && (value <=? 0xffffffff)); [|reflexivity].
  replace (0 <=? offset) with true by (symmetry; apply Z.leb_le; lia).
  replace (offset + 4 <=? blength (pre ++ mid ++ post)) with true
    by (symmetry; apply Z.leb_le; unfold blength; rewrite !length_app; lia).
  cbn [andb]. rewrite poke_app by (assumption || (rewrite Hm; reflexivity)).
  reflexivity.
Qed.

Lemma writeCommand_app (chars : jsstring) :
  forall (pre mid post : Buffer) (i : Z),
  0 <= i -> Z.to_nat (i + 4) = length pre ->
  (length chars <= length mid)%nat ->
  writeCommand (pre ++ mid ++ post) chars i
  = if forallb is_uint8 chars
    then Some (pre ++ map byte_of chars ++ skipn (length chars) mid ++ post)
    else None.
Proof.
  induction chars as [|c cs IH]; intros pre mid post i Hi Ho Hm.
  - reflexivity.
  - cbn [writeCommand forallb map length skipn].
    destruct mid as [|m ms]; [cbn in Hm; lia|]. cbn [length] in Hm.
    unfold writeUInt8. fold (is_uint8 c).
    destruct (is_uint8 c); [|reflexivity].
    replace (0 <=? i + 4) with true by (symmetry; apply Z.leb_le; lia).
    replace (i + 4 + 1 <=? blength (pre ++ (m :: ms) ++ post)) with true
      by (symmetry; apply Z.leb_le; unfold blength;
          rewrite !length_app; cbn [length]; lia).
    cbn [andb].
    change ((m :: ms) ++ post) with ([m] ++ (ms ++ post)).
    rewrite poke_app by (assumption || reflexivity).
    change (pre ++ [byte_of c] ++ ms ++ post)
      with (pre ++ [byte_of c] ++ (ms ++ post)).
    rewrite (app_assoc pre [byte_of c]).
    rewrite IH; try lia.
    + destruct (forallb is_uint8 cs); [|reflexivity].
      rewrite <- app_assoc. reflexivity.
    + rewrite length_app. cbn [length]. lia.
Qed.

(** The two copies that end [send]: the whole checksum from offset 20, then
    the data from offset 24, which overwrites all of the checksum but its
    first four bytes. *)
Lemma send_copies (out checksum data : Buffer) :
  blength out = blength data + 24 -> 4 <= blength checksum ->
  Buffer_copy data
    (Buffer_copy checksum out 20 0 (blength checksum)) 24 0 (blength data)
  = firstn 20 out ++ firstn 4 checksum ++ data.
Proof.
  intros Hout Hck.
  pose proof (blength_nonneg data) as Hd.
  set (nb := Z.min (blength checksum) (blength data + 4)).
  assert (H1 : Buffer_copy checksum out 20 0 (blength checksum)
               = firstn 20 out ++ firstn (Z.to_nat nb) checksum
                   ++ skipn (20 + Z.to_nat nb) out).
  { unfold Buffer_copy.
    replace (blength out <=? 20) with false by (symmetry; apply Z.leb_gt; lia).
    replace (blength checksum <=? 0) with false
      by (symmetry; apply Z.leb_gt; lia).
    cbn [orb Z.to_nat skipn].
    replace (Z.min (Z.min (blength checksum) (blength checksum) - 0)
                   (blength out - 20)) with nb by lia.
    assert (Hl : length (firstn (Z.to_nat nb) checksum) = Z.to_nat nb)
      by (rewrite length_firstn; unfold blength in *; lia).
    rewrite Hl. reflexivity. }
  rewrite H1.
  assert (Hout' : length out = (length data + 24)%nat)
    by (unfold blength in Hout; lia).
  assert (Hnb : (4 <= Z.to_nat nb)%nat) by lia.
  assert (Hlc : length (firstn (Z.to_nat nb) checksum) = Z.to_nat nb)
    by (rewrite length_firstn; unfold blength in *; lia).
  assert (H24 : firstn 24 (firstn 20 out ++ firstn (Z.to_nat nb) checksum
                             ++ skipn (20 + Z.to_nat nb) out)
                = firstn 20 out ++ firstn 4 checksum).
  { rewrite firstn_app, firstn_firstn, length_firstn.
    replace (Nat.min 24 20) with 20%nat by reflexivity.
    replace (24 - Nat.min 20 (length out))%nat with 4%nat by lia.
    f_equal. rewrite firstn_app, firstn_firstn.
    replace (Nat.min 4 (Z.to_nat nb)) with 4%nat by lia.
    rewrite Hlc. replace (4 - Z.to_nat nb)%nat with 0%nat by lia.
    cbn [firstn]. apply app_nil_r. }
  subst nb.
  destruct data as [|d0 data'] eqn:Ed.
  - (* no data: nothing is copied *)
    unfold Buffer_copy at 1.
    replace (blength (@nil byte) <=? 0) with true by reflexivity.
    rewrite orb_true_r. rewrite app_nil_r.
    rewrite <- H24. symmetry. apply firstn_all2.
    rewrite !length_app, length_firstn, Hlc, length_skipn.
    unfold blength in *. cbn [length] in *. lia.
  - rewrite <- Ed in *.
    remember (Z.min (blength checksum) (blength data + 4)) as nb eqn:Enb.
    unfold Buffer_copy.
    assert (Hlen : blength (firstn 20 out ++ firstn (Z.to_nat nb) checksum
                              ++ skipn (20 + Z.to_nat nb) out)
                   = blength data + 24).
    { unfold blength. rewrite !length_app, length_firstn, Hlc, length_skipn.
      unfold blength in *. lia. }
    rewrite Hlen.
    assert (Hpos : 0 < blength data)
      by (rewrite Ed; unfold blength; cbn [length]; lia).
    replace (blength data + 24 <=? 24) with false
      by (symmetry; apply Z.leb_gt; lia).
    replace (blength data <=? 0) with false by (symmetry; apply Z.leb_gt; lia).
    cbn [orb].
    replace (Z.min (Z.min (blength data) (blength data) - 0)
                   (blength data + 24 - 24)) with (blength data) by lia.
    cbn [Z.to_nat skipn].
    change (Pos.to_nat 24) with 24%nat.
    rewrite H24.
    rewrite (@firstn_all2 _ (Z.to_nat (blength data)) data)
      by (unfold blength; lia).
    rewrite skipn_all2.
    + rewrite app_nil_r, <- app_assoc. reflexivity.
    + rewrite !length_app, length_firstn, Hlc, length_skipn.
      unfold blength in *. lia.
Qed.


Lemma alloc_frame (d : Buffer) :
  Buffer_alloc (blength d + 24)
  = Some (repeat x00 4 ++ repeat x00 12 ++ repeat x00 4 ++ repeat x00 4
            ++ repeat x00 (length d)).
Proof.
  unfold Buffer_alloc.
  replace (blength d + 24 <? 0) with false
    by (symmetry; apply Z.ltb_ge; pose proof (blength_nonneg d); lia).
  rewrite <- !repeat_app. f_equal. f_equal. unfold blength. lia.
Qed.

Lemma skipn_repeat (x : byte) (k n : nat) :
  skipn k (repeat x n) = repeat x (n - k).
Proof.
  revert n. induction k as [|k IH]; intros n.
  - rewrite Nat.sub_0_r. reflexivity.
  - destruct n as [|n]; [reflexivity|]. cbn [repeat skipn]. apply IH.
Qed.

Lemma firstn_app_exact (a b : Buffer) (n : nat) :
  length a = n -> firstn n (a ++ b) = a.
Proof.
  intros <-. rewrite firstn_app, firstn_all, Nat.sub_diag.
  cbn [firstn]. apply app_nil_r.
Qed.

(** The buffer [send] builds, step by step as the source does. *)
Lemma build_frame (header : Z) (command : jsstring) (d : Buffer) :
  match Buffer_alloc (blength d + 24) with
  | Some b0 =>
      match writeUInt32LE b0 header 0 with
      | Some b1 =>
          match writeCommand b1 (firstn 12 command) 0 with
          | Some b2 =>
              match writeUInt32LE b2 (blength d) 16 with
              | Some b3 =>
                  let checksum := utf8_encode (_calculateChecksum command d) in
                  Some (Buffer_copy d
                          (Buffer_copy checksum b3 20 0 (blength checksum))
                          24 0 (blength d))
              | None => None
              end
          | None => None
          end
      | None => None
      end
  | None => None
  end
  = if is_uint32 header && forallb is_uint8 (firstn 12 command)
       && is_uint32 (blength d)
    then Some (frameBytes header command d)
    else None.
Proof.
  rewrite alloc_frame.
  change (repeat x00 4 ++ repeat x00 12 ++ repeat x00 4 ++ repeat x00 4
            ++ repeat x00 (length d))
    with ([] ++ repeat x00 4 ++ (repeat x00 12 ++ repeat x00 4
            ++ repeat x00 4 ++ repeat x00 (length d))).
  rewrite writeUInt32LE_app by (reflexivity || lia).
  destruct (is_uint32 header); [|reflexivity].
  cbn [app andb].
  change (le32 header ++ repeat x00 12 ++ repeat x00 4 ++ repeat x00 4
            ++ repeat x00 (length d))
    with (le32 header ++ repeat x00 12 ++ (repeat x00 4 ++ repeat x00 4
            ++ repeat x00 (length d))).
  assert (H12 : (length (firstn 12 command) <= 12)%nat)
    by (rewrite length_firstn; lia).
  rewrite writeCommand_app by (reflexivity || lia || exact H12).
  destruct (forallb is_uint8 (firstn 12 command)); [|reflexivity].
  cbn [andb]. rewrite skipn_repeat.
  rewrite (app_assoc (map byte_of (firstn 12 command))).
  rewrite (app_assoc (le32 header)).
  rewrite writeUInt32LE_app;
    [| lia
     | rewrite !length_app, length_map, repeat_length; cbn [le32 length]; lia
     | reflexivity].
  destruct (is_uint32 (blength d)); [|reflexivity].
  cbv zeta. f_equal.
  rewrite send_copies.
  - rewrite (app_assoc _ (le32 (blength d))).
    rewrite firstn_app_exact
      by (rewrite !length_app, length_map, repeat_length;
          cbn [le32 length]; lia).
    unfold frameBytes, integrityTag, commandField.
    rewrite <- !app_assoc. reflexivity.
  - unfold blength.
    rewrite !length_app, length_map, !repeat_length.
    cbn [le32 length]. lia.
  - rewrite checksum_length. lia.
Qed.

Lemma frameBytes_length (header : Z) (command : jsstring) (d : Buffer) :
  blength (frameBytes header command d) = blength d + 24.
Proof.
  unfold frameBytes, blength, commandField.
  rewrite !length_app, integrityTag_length, length_map, repeat_length.
  cbn [le32 length]. rewrite length_firstn. lia.
Qed.

(** [send], in full: it raises when the transform or a write into the
    outgoing buffer does; otherwise it returns false without a socket, and
    with one it writes the frame and returns whether the write resolved. *)
Lemma send_eq (p : Peer) (command : jsstring) (data : option SendData)
    (written : bool) :
  send command data written p =
  match payloadToSend p command data with
  | Some d =>
      if is_uint32 (_header p) && forallb is_uint8 (firstn 12 command)
         && is_uint32 (blength d)
      then
        match _socket p with
        | Some _ =>
            (p, [SocketWrite (frameBytes (_header p) command d)],
             Returned written)
        | None => (p, [], Returned false)
        end
      else (p, [], Thrown RangeError)
  | None => (p, [], Thrown CryptoError)
  end.
Proof.
  unfold send, payloadToSend.
  set (d0 := match data with Some d => Buffer_from d | None => [] end).
  assert (G : forall d : Buffer,
    (outgoingBuffer <- orThrow RangeError (Buffer_alloc (blength d + 24)) ;;
     outgoingBuffer <-
       orThrow RangeError (writeUInt32LE outgoingBuffer (_header p) 0) ;;
     outgoingBuffer <-
       orThrow RangeError (writeCommand outgoingBuffer (firstn 12 command) 0) ;;
     outgoingBuffer <-
       orThrow RangeError (writeUInt32LE outgoingBuffer (blength d) 16) ;;
     let checksum := utf8_encode (_calculateChecksum command d) in
     let outgoingBuffer :=
       Buffer_copy checksum outgoingBuffer 20 0 (blength checksum) in
     let outgoingBuffer := Buffer_copy d outgoingBuffer 24 0 (blength d) in
     tryCatch
       (orThrow TypeError (_socket p) ;;;
        effect (SocketWrite outgoingBuffer) ;;;
        (if written then ret true else throw (Error (str "write"))))
       false) p
    = if is_uint32 (_header p) && forallb is_uint8 (firstn 12 command)
         && is_uint32 (blength d)
      then
        match _socket p with
        | Some _ =>
            (p, [SocketWrite (frameBytes (_header p) command d)],
             Returned written)
        | None => (p, [], Returned false)
        end
      else (p, [], Thrown RangeError)).
  { intros d. pose proof (build_frame (_header p) command d) as HB.
    munfold.
    destruct (Buffer_alloc (blength d + 24)) as [b0|].
    2:{ destruct (_ && _ && _); [discriminate|reflexivity]. }
    destruct (writeUInt32LE b0 (_header p) 0) as [b1|].
    2:{ destruct (_ && _ && _); [discriminate|reflexivity]. }
    destruct (writeCommand b1 (firstn 12 command) 0) as [b2|].
    2:{ destruct (_ && _ && _); [discriminate|reflexivity]. }
    destruct (writeUInt32LE b2 (blength d) 16) as [b3|].
    2:{ destruct (_ && _ && _); [discriminate|reflexivity]. }
    cbv zeta in HB.
    destruct (_ && _ && _); [|discriminate].
    apply Some_inj in HB. rewrite HB.
    destruct (_socket p); [|reflexivity].
    destruct written; reflexivity. }
  rewrite bind_this.
  destruct (_keypair p) as [kp|]; [destruct (_remotePublicKey p) as [rk|]|].
  - destruct (negb (jsstring_eqb command (str "SECURE"))).
    + destruct (privateEncrypt (private kp) d0) as [d|].
      * unfold orThrow at 1. rewrite bind_ret. apply G.
      * unfold orThrow at 1. apply bind_throw.
    + rewrite bind_ret. apply G.
  - rewrite bind_ret. apply G.
  - rewrite bind_ret. apply G.
Qed.


(** ** Receiving one frame *)

Lemma complete_frame_frames (header : Z) (message : Buffer) :
  complete_frame header message ->
  frames header message = ([message], []).
Proof.
  intros (H0 & len & H16 & Hlen).
  pose proof (readUInt32LE_nonneg _ _ _ H16) as Hl.
  assert (D : decide header message = Frame len).
  { unfold decide. rewrite H0, Z.eqb_refl, H16.
    replace (len + 24 <=? blength message) with true
      by (symmetry; apply Z.leb_le; lia).
    reflexivity. }
  assert (Hn : Z.to_nat (len + 24) = length message)
    by (unfold blength in Hlen; lia).
  rewrite frames_eq.
  assert (F : find_frame header message = Some (message, [])).
  { destruct message as [|x m]; [cbn in Hlen; lia|].
    cbn [find_frame]. rewrite D, Hn, firstn_all, skipn_all. reflexivity. }
  rewrite F, frames_short by (cbn; lia). reflexivity.
Qed.

(** One data event that brings exactly one complete frame into an empty
    accumulation buffer: the frame goes through [_processMessage] and, unless
    that raises, the buffer is empty again. *)
Lemma receive_frame (p : Peer) (B message : Buffer) :
  _inBuffer p = Some B -> _inCursor p = 0 ->
  blength message <= blength B ->
  complete_frame (_header p) message ->
  exists B' n',
    _socketEventData message p
    = (with_stream p (_remotePublicKey (peer_of (_processMessage message p)))
         B' n',
       log_of (_processMessage message p),
       completion_of (_processMessage message p))
    /\ blength B' = blength B
    /\ (completion_of (_processMessage message p) = Returned tt -> n' = 0).
Proof.
  intros HB Hn Hfit Hframe.
  rewrite _processMessage_key.
  unfold peer_of, log_of, completion_of. cbn [fst snd _remotePublicKey
    set_remotePublicKey].
  destruct (processKey message (_remotePublicKey p)) as [[k1 l1] c1] eqn:HP.
  cbn [fst snd].
  destruct (_socketEventData_spec p B message 0 [message] [] k1 l1 c1)
    as (B' & n' & c' & Hrun & HB' & Hpost); try assumption; try lia.
  { cbn [received Z.to_nat firstn app].
    apply complete_frame_frames. exact Hframe. }
  { cbn [processKeys]. rewrite HP. destruct c1 as [[]|e]; [|reflexivity].
    cbn. rewrite app_nil_r. reflexivity. }
  exists B', n'. rewrite Hrun. destruct c1 as [[]|e].
  - destruct Hpost as [(-> & -> & _)|(_ & Hne & _)]; [|congruence].
    repeat split; try assumption.
  - subst c'. repeat split; try assumption. discriminate.
Qed.


(** ** The checksum verification of [_processMessage] *)

Lemma payload_copy (message : Buffer) (len : Z) :
  blength message = len + 24 -> 0 < len ->
  Buffer_copy message (repeat x00 (Z.to_nat len)) 0 24 (blength message)
  = skipn 24 message.
Proof.
  intros Hm Hl. unfold Buffer_copy. rewrite blength_repeat.
  replace (Z.of_nat (Z.to_nat len) <=? 0) with false
    by (symmetry; apply Z.leb_gt; lia).
  replace (blength message <=? 24) with false
    by (symmetry; apply Z.leb_gt; lia).
  cbn [orb]. rewrite Z.min_id.
  replace (Z.min (blength message - 24) (Z.of_nat (Z.to_nat len) - 0))
    with len by lia.
  cbn [Z.to_nat firstn app plus].
  change (Pos.to_nat 24) with 24%nat.
  assert (Hs : length (skipn 24 message) = Z.to_nat len)
    by (rewrite length_skipn; unfold blength in Hm; lia).
  rewrite <- Hs, firstn_all. rewrite Hs.
  rewrite skipn_repeat, Nat.sub_diag. apply app_nil_r.
Qed.

Lemma integrityTag_read (command : jsstring) (data : Buffer) :
  exists v, readUInt32BE (integrityTag command data) 0 = Some v
            /\ readUInt32BE (utf8_encode (_calculateChecksum command data)) 0
               = Some v.
Proof.
  destruct (readUInt32BE_Some (utf8_encode (_calculateChecksum command data)))
    as (v & Hv); [rewrite checksum_length; lia|].
  exists v. split; [|exact Hv].
  unfold integrityTag. rewrite readUInt32BE_firstn4. exact Hv.
Qed.

Lemma verifiedPayload_positive (message : Buffer) (len checksum : Z) :
  blength message = len + 24 -> 0 < len ->
  exists v,
    readUInt32BE (integrityTag (readCommand message) (skipn 24 message)) 0
    = Some v
    /\ verifiedPayload message len checksum
       = Returned (if checksum =? v then Some (skipn 24 message) else None).
Proof.
  intros Hm Hl.
  destruct (integrityTag_read (readCommand message) (skipn 24 message))
    as (v & Hv1 & Hv2).
  exists v. split; [exact Hv1|].
  unfold verifiedPayload, Buffer_alloc.
  replace (0 <? len) with true by (symmetry; apply Z.ltb_lt; lia).
  replace (len <? 0) with false by (symmetry; apply Z.ltb_ge; lia).
  cbv zeta. rewrite payload_copy by assumption. rewrite Hv2. reflexivity.
Qed.

Lemma verifiedPayload_zero (message : Buffer) (checksum : Z) :
  verifiedPayload message 0 checksum = Returned (Some []).
Proof. reflexivity. Qed.

Lemma readUInt32BE_24 (message : Buffer) :
  24 <= blength message -> exists tag, readUInt32BE message 20 = Some tag.
Proof.
  intros H. unfold readUInt32BE.
  replace (20 + 4 <=? blength message) with true
    by (symmetry; apply Z.leb_le; lia).
  cbn [Z.leb andb].
  pose proof (length_skipn (Z.to_nat 20) message) as Hs.
  destruct (skipn (Z.to_nat 20) message) as [|b0 [|b1 [|b2 [|b3 r]]]];
    cbn [length] in Hs; unfold blength in H; try lia.
  eexists. reflexivity.
Qed.

(** [_processMessage] on a frame, by whether it has a payload. *)
Lemma _processMessage_frame (p : Peer) (message : Buffer) (len : Z) :
  readUInt32LE message 16 = Some len -> blength message = len + 24 ->
  exists tag, readUInt32BE message 20 = Some tag /\
  exists v,
    readUInt32BE (integrityTag (readCommand message) (skipn 24 message)) 0
    = Some v /\
    _processMessage message p =
    if (len =? 0) || (tag =? v)
    then deliver (readCommand message) (skipn 24 message) p
    else (p, [], Returned tt).
Proof.
  intros H16 Hm.
  pose proof (readUInt32LE_nonneg _ _ _ H16) as Hl.
  destruct (readUInt32BE_24 message) as (tag & Htag); [lia|].
  exists tag. split; [exact Htag|].
  rewrite _processMessage_eq, H16, Htag.
  destruct (Z.eq_dec len 0) as [->|Hne].
  - destruct (integrityTag_read (readCommand message) (skipn 24 message))
      as (v & Hv & _).
    exists v. split; [exact Hv|].
    rewrite verifiedPayload_zero. cbn [Z.eqb orb].
    rewrite skipn_all2 by (unfold blength in Hm; lia). reflexivity.
  - destruct (verifiedPayload_positive message len tag) as (v & Hv & Hvp);
      [assumption | lia |].
    exists v. split; [exact Hv|]. rewrite Hvp.
    replace (len =? 0) with false by (symmetry; apply Z.eqb_neq; exact Hne).
    cbn [orb]. destruct (tag =? v); reflexivity.
Qed.


Lemma option_Z_eqb (a b : Z) : Some a = Some b -> (a =? b) = true.
Proof. intros E. injection E as ->. apply Z.eqb_refl. Qed.

Lemma option_Z_neqb (a b : Z) : Some a <> Some b -> (a =? b) = false.
Proof. intros E. apply Z.eqb_neq. congruence. Qed.

(** C10. SECURE frames: a complete frame whose command reads SECURE and
    whose tag matches the recomputed one has its payload stored (as text) as
    the remote public key, and raises no notification; brought by a data
    event into an empty buffer, it leaves the buffer empty. *)
Theorem secure_frame_stored (p : Peer) (B message : Buffer) :
  complete_frame (_header p) message ->
  readCommand message = str "SECURE" ->
  readUInt32BE message 20
  = readUInt32BE (integrityTag (readCommand message) (skipn 24 message)) 0 ->
  _processMessage message p
  = (set_remotePublicKey (Some (Buffer_toString (skipn 24 message))) p,
     [], Returned tt)
  /\ (_inBuffer p = Some B -> _inCursor p = 0 ->
      blength message <= blength B ->
      exists B',
        _socketEventData message p
        = (with_stream p (Some (Buffer_toString (skipn 24 message))) B' 0,
           [], Returned tt)).
Proof.
  intros Hframe Hcmd Htag.
  assert (Hp : _processMessage message p
               = (set_remotePublicKey
                    (Some (Buffer_toString (skipn 24 message))) p,
                  [], Returned tt)).
  { destruct Hframe as (_ & len & H16 & Hm).
    destruct (_processMessage_frame p message len H16 Hm)
      as (tag & Ht & v & Hv & ->).
    rewrite Ht, Hv in Htag. rewrite (option_Z_eqb _ _ Htag), orb_true_r.
    unfold deliver. rewrite Hcmd. reflexivity. }
  split; [exact Hp|].
  intros HB Hn Hfit.
  destruct (receive_frame p B message HB Hn Hfit Hframe)
    as (B' & n' & Hrun & _ & Hn').
  rewrite Hp in Hrun, Hn'.
  unfold peer_of, log_of, completion_of in Hrun, Hn'.
  cbn [fst snd _remotePublicKey set_remotePublicKey] in Hrun, Hn'.
  rewrite (Hn' eq_refl) in Hrun. exists B'. exact Hrun.
Qed.

(** C4, as the code has it. Integrity mismatch: a complete frame with a
    payload (declared length above 0) whose tag field differs, as a
    big-endian 32-bit integer, from the first four bytes of the hex text of
    the recomputed HMAC raises no notification and changes nothing; brought
    by a data event into an empty buffer, it is consumed: the buffer is empty
    again. *)
Theorem integrity_mismatch_discarded (p : Peer) (B message : Buffer) :
  complete_frame (_header p) message ->
  24 < blength message ->
  readUInt32BE message 20
  <> readUInt32BE (integrityTag (readCommand message) (skipn 24 message)) 0 ->
  _processMessage message p = (p, [], Returned tt)
  /\ (_inBuffer p = Some B -> _inCursor p = 0 ->
      blength message <= blength B ->
      exists B',
        _socketEventData message p
        = (set_inCursor 0 (set_inBuffer (Some B') p), [], Returned tt)).
Proof.
  intros Hframe Hlen Htag.
  assert (Hp : _processMessage message p = (p, [], Returned tt)).
  { destruct Hframe as (_ & len & H16 & Hm).
    destruct (_processMessage_frame p message len H16 Hm)
      as (tag & Ht & v & Hv & ->).
    rewrite Ht, Hv in Htag. rewrite (option_Z_neqb _ _ Htag).
    replace (len =? 0) with false by (symmetry; apply Z.eqb_neq; lia).
    reflexivity. }
  split; [exact Hp|].
  intros HB Hn Hfit.
  destruct (receive_frame p B message HB Hn Hfit Hframe)
    as (B' & n' & Hrun & _ & Hn').
  rewrite Hp in Hrun, Hn'.
  unfold peer_of, log_of, completion_of in Hrun, Hn'.
  cbn [fst snd _remotePublicKey set_remotePublicKey] in Hrun, Hn'.
  rewrite (Hn' eq_refl) in Hrun. exists B'. rewrite Hrun.
  unfold with_stream. rewrite set_remotePublicKey_same. reflexivity.
Qed.

(** C5, as the code has it. A complete frame with declared payload length 0
    is processed whatever its four tag bytes are: two such frames that agree
    on their first twenty bytes are processed alike, and no checksum is
    computed.  For the command SECURE the empty payload is stored (as text)
    as the remote public key; otherwise, without a remote key, a message
    notification with an empty payload is raised, and with one the empty
    payload goes through [publicDecrypt] first: the notification carries its
    result, or its exception escapes. *)
Theorem zero_length_unverified (p : Peer) (message : Buffer) :
  readUInt32LE message 16 = Some 0 -> blength message = 24 ->
  (forall message',
     readUInt32LE message' 16 = Some 0 -> blength message' = 24 ->
     firstn 20 message' = firstn 20 message ->
     _processMessage message' p = _processMessage message p)
  /\ (readCommand message = str "SECURE" ->
      _processMessage message p
      = (set_remotePublicKey (Some (Buffer_toString [])) p, [], Returned tt))
  /\ (readCommand message <> str "SECURE" ->
      _processMessage message p
      = match _remotePublicKey p with
        | None => (p, [Emit (EvMessage (readCommand message) [])], Returned tt)
        | Some key =>
            match publicDecrypt key [] with
            | Some decrypted =>
                (p, [Emit (EvMessage (readCommand message) decrypted)],
                 Returned tt)
            | None => (p, [], Thrown CryptoError)
            end
        end).
Proof.
  intros H16 Hm.
  assert (Hp : forall m, readUInt32LE m 16 = Some 0 -> blength m = 24 ->
               _processMessage m p = deliver (readCommand m) [] p).
  { intros m G16 Gm.
    destruct (_processMessage_frame p m 0 G16 Gm) as (tag & _ & v & _ & ->).
    cbn [Z.eqb orb].
    rewrite skipn_all2 by (unfold blength in Gm; lia). reflexivity. }
  split; [|split].
  - intros m' G16 Gm Hsame. rewrite (Hp m' G16 Gm), (Hp message H16 Hm).
    f_equal. unfold readCommand. f_equal.
    assert (Hc : forall m : Buffer,
              firstn 12 (skipn 4 m) = skipn 4 (firstn 16 (firstn 20 m))).
    { intros m. rewrite firstn_firstn, skipn_firstn_comm. reflexivity. }
    rewrite (Hc m'), (Hc message), Hsame. reflexivity.
  - intros Hcmd. rewrite (Hp message H16 Hm). unfold deliver.
    rewrite Hcmd. reflexivity.
  - intros Hcmd. rewrite (Hp message H16 Hm). unfold deliver.
    replace (jsstring_eqb (readCommand message) (str "SECURE")) with false
      by (symmetry; apply jsstring_eqb_neq; exact Hcmd).
    reflexivity.
Qed.


(** ** The fields of a frame built by [send] *)

Lemma le32_value (v : Z) :
  0 <= v <= 0xffffffff ->
  u8 (byte_of v) + u8 (byte_of (v / 2 ^ 8)) * 2 ^ 8
  + u8 (byte_of (v / 2 ^ 16)) * 2 ^ 16 + u8 (byte_of (v / 2 ^ 24)) * 2 ^ 24
  = v.
Proof.
  intros H. rewrite !u8_byte_of.
  change (2 ^ 8) with 256. change (2 ^ 16) with 65536.
  change (2 ^ 24) with 16777216.
  Z.div_mod_to_equations. lia.
Qed.

Lemma is_uint32_spec (v : Z) : is_uint32 v = true <-> 0 <= v <= 0xffffffff.
Proof.
  unfold is_uint32. rewrite andb_true_iff, !Z.leb_le. reflexivity.
Qed.

Lemma is_uint8_spec (c : Z) : is_uint8 c = true <-> 0 <= c <= 255.
Proof.
  unfold is_uint8. rewrite andb_true_iff, !Z.leb_le. reflexivity.
Qed.

Lemma readUInt32LE_le32 (v : Z) (rest : Buffer) :
  is_uint32 v = true -> readUInt32LE (le32 v ++ rest) 0 = Some v.
Proof.
  intros H. apply is_uint32_spec in H.
  unfold readUInt32LE. rewrite blength_app.
  replace (0 + 4 <=? blength (le32 v) + blength rest) with true
    by (symmetry; apply Z.leb_le; pose proof (blength_nonneg rest);
        unfold le32, blength; cbn [length]; lia).
  cbn [Z.leb andb Z.to_nat skipn le32 app].
  rewrite le32_value by exact H. reflexivity.
Qed.

Lemma commandField_length (command : jsstring) :
  length (commandField command) = 12%nat.
Proof.
  unfold commandField. rewrite length_app, length_map, repeat_length,
    length_firstn. lia.
Qed.

Lemma frameBytes_header (header : Z) (command : jsstring) (d : Buffer) :
  is_uint32 header = true ->
  readUInt32LE (frameBytes header command d) 0 = Some header.
Proof. intros H. unfold frameBytes. apply readUInt32LE_le32. exact H. Qed.

Lemma frameBytes_length_field (header : Z) (command : jsstring) (d : Buffer) :
  is_uint32 (blength d) = true ->
  readUInt32LE (frameBytes header command d) 16 = Some (blength d).
Proof.
  intros H. rewrite (readUInt32LE_skipn _ 16) by lia.
  unfold frameBytes. rewrite app_assoc, skipn_app.
  rewrite skipn_all2
    by (rewrite length_app, commandField_length; cbn [le32 length]; lia).
  rewrite length_app, commandField_length.
  cbn [le32 length Z.to_nat Pos.to_nat Pos.iter_op Nat.add Nat.sub skipn app].
  apply (readUInt32LE_le32 (blength d)). exact H.
Qed.

Lemma frameBytes_split (header : Z) (command : jsstring) (d : Buffer) :
  exists prefix, length prefix = 20%nat
    /\ frameBytes header command d = prefix ++ integrityTag command d ++ d.
Proof.
  exists (le32 header ++ commandField command ++ le32 (blength d)).
  split.
  - rewrite !length_app, commandField_length. reflexivity.
  - unfold frameBytes. rewrite <- !app_assoc. reflexivity.
Qed.

Lemma frameBytes_payload (header : Z) (command : jsstring) (d : Buffer) :
  skipn 24 (frameBytes header command d) = d.
Proof.
  destruct (frameBytes_split header command d) as (pre & Hpre & ->).
  rewrite app_assoc, skipn_app, skipn_all2
    by (rewrite length_app, Hpre, integrityTag_length; lia).
  rewrite length_app, Hpre, integrityTag_length. reflexivity.
Qed.

Lemma frameBytes_tag (header : Z) (command : jsstring) (d : Buffer) :
  Buffer_slice (frameBytes header command d) 20 24 = integrityTag command d.
Proof.
  destruct (frameBytes_split header command d) as (pre & Hpre & ->).
  unfold Buffer_slice.
  change (Z.to_nat (24 - 20)) with 4%nat. change (Z.to_nat 20) with 20%nat.
  rewrite skipn_app, skipn_all2 by lia. rewrite Hpre.
  cbn [Nat.sub skipn app].
  apply firstn_app_exact. apply integrityTag_length.
Qed.

Lemma readUInt32BE_app4 (a b : Buffer) :
  length a = 4%nat -> readUInt32BE (a ++ b) 0 = readUInt32BE a 0.
Proof.
  intros H. destruct a as [|a0 [|a1 [|a2 [|a3 [|a4 r]]]]]; try discriminate.
  unfold readUInt32BE, blength. cbn [app length Z.to_nat skipn].
  replace (0 + 4 <=? Z.of_nat (S (S (S (S (length b)))))) with true
    by (symmetry; apply Z.leb_le; lia).
  reflexivity.
Qed.

Lemma readUInt32BE_skipn (b : Buffer) (offset : Z) :
  0 <= offset ->
  readUInt32BE b offset = readUInt32BE (skipn (Z.to_nat offset) b) 0.
Proof.
  intros H. unfold readUInt32BE.
  rewrite blength_skipn. cbn [Z.to_nat skipn].
  destruct (offset + 4 <=? blength b) eqn:E1.
  - replace (0 <=? offset) with true by (symmetry; apply Z.leb_le; lia).
    replace (0 + 4 <=? Z.max 0 (blength b - Z.of_nat (Z.to_nat offset)))
      with true by (symmetry; apply Z.leb_le; apply Z.leb_le in E1; lia).
    reflexivity.
  - replace (0 + 4 <=? Z.max 0 (blength b - Z.of_nat (Z.to_nat offset)))
      with false by (symmetry; apply Z.leb_gt; apply Z.leb_gt in E1; lia).
    rewrite andb_false_r. reflexivity.
Qed.

Lemma frameBytes_tag_field (header : Z) (command : jsstring) (d : Buffer) :
  readUInt32BE (frameBytes header command d) 20
  = readUInt32BE (integrityTag command d) 0.
Proof.
  rewrite (readUInt32BE_skipn _ 20) by lia.
  destruct (frameBytes_split header command d) as (pre & Hpre & ->).
  change (Z.to_nat 20) with 20%nat.
  rewrite skipn_app, skipn_all2 by lia. rewrite Hpre.
  cbn [Nat.sub skipn app].
  apply readUInt32BE_app4, integrityTag_length.
Qed.

Lemma readCommand_field (chars : jsstring) (k : nat) :
  Forall (fun c => 0 < c <= 255) chars ->
  flat_map (fun s => if 0 <? u8 s then [u8 s] else [])
           (map byte_of chars ++ repeat x00 k)
  = chars.
Proof.
  induction 1 as [|c cs Hc Hcs IH].
  - cbn [map app]. induction k as [|k IHk]; [reflexivity|].
    cbn [repeat flat_map]. exact IHk.
  - cbn [map app flat_map]. rewrite u8_byte_of_small by lia.
    replace (0 <? c) with true by (symmetry; apply Z.ltb_lt; lia).
    cbn [app]. rewrite IH. reflexivity.
Qed.

Lemma frameBytes_command (header : Z) (command : jsstring) (d : Buffer) :
  (length command <= 12)%nat ->
  Forall (fun c => 0 < c <= 255) command ->
  readCommand (frameBytes header command d) = command.
Proof.
  intros Hlen Hc. unfold readCommand, frameBytes.
  change (skipn 4 (le32 header ++ commandField command ++ le32 (blength d)
                     ++ integrityTag command d ++ d))
    with (commandField command ++ le32 (blength d)
            ++ integrityTag command d ++ d).
  rewrite firstn_app_exact by apply commandField_length.
  unfold commandField. rewrite firstn_all2 by exact Hlen.
  apply readCommand_field. exact Hc.
Qed.

Lemma frameBytes_complete (header : Z) (command : jsstring) (d : Buffer) :
  is_uint32 header = true -> is_uint32 (blength d) = true ->
  complete_frame header (frameBytes header command d).
Proof.
  intros Hh Hd. split; [apply frameBytes_header; exact Hh|].
  exists (blength d). split; [apply frameBytes_length_field; exact Hd|].
  apply frameBytes_length.
Qed.


Lemma frameBytes_command_field (header : Z) (command : jsstring) (d : Buffer) :
  firstn 12 (skipn 4 (frameBytes header command d)) = commandField command.
Proof.
  unfold frameBytes, le32. cbn [app skipn].
  apply firstn_app_exact. apply commandField_length.
Qed.

Lemma readCommand_sent (header : Z) (command : jsstring) (d : Buffer) :
  Forall (fun c => 0 < c <= 255) (firstn 12 command) ->
  readCommand (frameBytes header command d) = firstn 12 command.
Proof.
  intros H. unfold readCommand. rewrite frameBytes_command_field.
  unfold commandField. apply readCommand_field. exact H.
Qed.

(** The command a receiver reads in a frame [send] wrote: the first twelve
    characters, without those of code 0. *)
Lemma readCommand_written (header : Z) (command : jsstring) (d : Buffer) :
  forallb is_uint8 (firstn 12 command) = true ->
  readCommand (frameBytes header command d)
  = filter (fun c => 0 <? c) (firstn 12 command).
Proof.
  intros H. unfold readCommand. rewrite frameBytes_command_field.
  unfold commandField.
  generalize (12 - length (firstn 12 command))%nat as k.
  induction (firstn 12 command) as [|c cs IH]; intros k.
  - cbn [map app filter]. induction k as [|k IHk]; [reflexivity|].
    cbn [repeat flat_map]. exact IHk.
  - cbn [forallb] in H. apply andb_true_iff in H. destruct H as [Hc Hcs].
    apply is_uint8_spec in Hc.
    cbn [map app flat_map filter].
    destruct (Z.eq_dec c 0) as [->|Hne].
    + cbn [app]. exact (IH Hcs k).
    + rewrite u8_byte_of_small by lia.
      replace (0 <? c) with true by (symmetry; apply Z.ltb_lt; lia).
      cbn [app]. rewrite (IH Hcs k). reflexivity.
Qed.

(** C6, as the code has it.  The integrity tag on the wire.  In every
    frame [send] writes, bytes 20 to 23 are the first four bytes of the hex
    text of the HMAC-SHA256, keyed by the command string, of the payload
    the frame carries (the data, transformed when it applies): the four hex
    characters of the first two bytes of the digest, not digest bytes.  The
    command a receiver reads in that frame is the first twelve characters
    of the sender's command, without those of code 0.  And
    [_processMessage] verifies a frame only when it declares a payload: it
    accepts a frame exactly when the declared length is 0 or the tag field
    equals, as a big-endian 32-bit integer, the first four bytes of the hex
    text of the HMAC it recomputes, keyed by the command it read, from the
    payload. *)
Theorem integrity_tag_format :
  (forall (p : Peer) (command : jsstring) (data : option SendData)
          (written : bool) (frame : Buffer),
     In (SocketWrite frame) (log_of (send command data written p)) ->
     payloadToSend p command data = Some (skipn 24 frame)
     /\ Buffer_slice frame 20 24
        = firstn 4 (utf8_encode
                      (hex_string
                         (SHA256.hmac (utf8_encode command) (skipn 24 frame))))
     /\ (exists d0 d1 rest,
           SHA256.hmac (utf8_encode command) (skipn 24 frame)
           = d0 :: d1 :: rest
           /\ Buffer_slice frame 20 24
              = map byte_of (hex_of_byte d0 ++ hex_of_byte d1))
     /\ readCommand frame = filter (fun c => 0 <? c) (firstn 12 command))
  /\ (forall (p : Peer) (message : Buffer) (messageLength : Z),
        readUInt32LE message 16 = Some messageLength ->
        blength message = messageLength + 24 ->
        exists tag verification,
          readUInt32BE message 20 = Some tag
          /\ readUInt32BE
               (firstn 4 (utf8_encode
                            (hex_string
                               (SHA256.hmac (utf8_encode (readCommand message))
                                            (skipn 24 message))))) 0
             = Some verification
          /\ _processMessage message p
             = if (messageLength =? 0) || (tag =? verification)
               then deliver (readCommand message) (skipn 24 message) p
               else (p, [], Returned tt)).
Proof.
  split.
  - intros p command data written frame Hin.
    rewrite send_eq in Hin.
    destruct (payloadToSend p command data) as [d|]; [|destruct Hin].
    destruct (is_uint32 (_header p)); [|destruct Hin].
    destruct (forallb is_uint8 (firstn 12 command)) eqn:Hc; [|destruct Hin].
    destruct (is_uint32 (blength d)); [|destruct Hin].
    cbn [andb] in Hin.
    destruct (_socket p); [|destruct Hin].
    unfold log_of in Hin. cbn [fst snd In] in Hin.
    destruct Hin as [E|[]]. injection E as <-.
    rewrite frameBytes_payload, frameBytes_tag.
    split; [reflexivity|]. split; [reflexivity|].
    split; [|apply readCommand_written; exact Hc].
    unfold integrityTag. rewrite checksum_bytes. unfold _calculateChecksum.
    pose proof (hmac_length (utf8_encode command) d) as Hl.
    destruct (SHA256.hmac (utf8_encode command) d) as [|d0 [|d1 rest]];
      try discriminate.
    exists d0, d1, rest. split; [reflexivity|].
    reflexivity.
  - intros p message len H16 Hm.
    destruct (_processMessage_frame p message len H16 Hm)
      as (tag & Ht & v & Hv & Hp).
    exists tag, v. split; [exact Ht|]. split; [exact Hv|].
    exact Hp.
Qed.


(** ** A fresh Peer *)

Lemma connect_accepted (host : Host) (header bufferSize maxAttempts : Z)
    (socket : Socket) (written : bool) :
  0 <= bufferSize ->
  connect (Some socket) written
    (Peer_constructor host header bufferSize maxAttempts)
  = (set_socket (Some socket)
       (set_state (Some connected)
          (set_inCursor 0
             (set_inBuffer (Some (repeat x00 (Z.to_nat bufferSize)))
                (Peer_constructor host header bufferSize maxAttempts)))),
     [], Returned (Some socket)).
Proof.
  intros H. unfold connect. munfold. unfold Buffer_alloc.
  cbn [_bufferSize Peer_constructor].
  replace (bufferSize <? 0) with false by (symmetry; apply Z.ltb_ge; lia).
  reflexivity.
Qed.

(** C1, as the code has it. Round trip: for a command of at most 12 ASCII
    characters, none NUL, other than the reserved SECURE, and a payload that
    with its 24-byte header fits the receiving buffer (and whose length fits
    the 32-bit length field), the frame [send] writes without a key pair,
    given in one data event to a fresh Peer with the same header constant,
    surfaces exactly one notification: the message with that command and
    that payload. *)
Theorem round_trip (host : Host) (header bufferSize maxAttempts : Z)
    (socket : Socket) (accepted : bool)
    (sender : Peer) (command : jsstring) (payload : Buffer) (written : bool) :
  is_uint32 header = true ->
  _header sender = header -> _keypair sender = None ->
  _socket sender <> None ->
  (length command <= 12)%nat ->
  Forall (fun c => 0 < c < 128) command ->
  command <> str "SECURE" ->
  blength payload + 24 <= bufferSize ->
  blength payload <= 0xffffffff ->
  let receiver :=
    peer_of (connect (Some socket) accepted
               (Peer_constructor host header bufferSize maxAttempts)) in
  exists frame,
    send command (Some (DataBuffer payload)) written sender
    = (sender, [SocketWrite frame], Returned written)
    /\ exists receiver',
         _socketEventData frame receiver
         = (receiver', [Emit (EvMessage command payload)], Returned tt).
Proof.
  intros Hh Hsh Hkp Hsock Hlen Hascii Hsecure Hfit H32 receiver.
  pose proof (blength_nonneg payload) as Hp0.
  assert (Hd32 : is_uint32 (blength payload) = true)
    by (apply is_uint32_spec; lia).
  assert (Hchars : Forall (fun c => 0 < c <= 255) command)
    by (revert Hascii; apply Forall_impl; intros; lia).
  exists (frameBytes header command payload). split.
  - rewrite send_eq. unfold payloadToSend. rewrite Hkp. cbn [Buffer_from].
    rewrite Hsh, Hh, Hd32.
    assert (Hfa : forallb is_uint8 (firstn 12 command) = true).
    { apply forallb_forall. intros c Hin. apply is_uint8_spec.
      rewrite firstn_all2 in Hin by exact Hlen.
      rewrite Forall_forall in Hchars. specialize (Hchars c Hin). lia. }
    rewrite Hfa. cbn [andb].
    destruct (_socket sender); [reflexivity | contradiction].
  - subst receiver. rewrite connect_accepted by lia.
    unfold peer_of. cbn [fst].
    set (r := set_socket _ _).
    pose proof (frameBytes_complete header command payload Hh Hd32) as Hcf.
    destruct (receive_frame r (repeat x00 (Z.to_nat bufferSize))
                (frameBytes header command payload))
      as (B' & n' & Hrun & _ & _); try reflexivity.
    { rewrite frameBytes_length, blength_repeat. lia. }
    { exact Hcf. }
    assert (Hpm : _processMessage (frameBytes header command payload) r
                  = (r, [Emit (EvMessage command payload)], Returned tt)).
    { destruct Hcf as (_ & len & H16 & Hm).
      destruct (_processMessage_frame r _ len H16 Hm)
        as (tag & Ht & v & Hv & ->).
      rewrite frameBytes_command, frameBytes_payload in * by assumption.
      rewrite frameBytes_tag_field, Hv in Ht. injection Ht as <-.
      rewrite Z.eqb_refl, orb_true_r.
      unfold deliver.
      replace (jsstring_eqb command (str "SECURE")) with false
        by (symmetry; apply jsstring_eqb_neq; exact Hsecure).
      reflexivity. }
    rewrite Hpm in Hrun.
    unfold peer_of, log_of, completion_of in Hrun. cbn [fst snd] in Hrun.
    eexists. exact Hrun.
Qed.


(** ** Reconnection *)

Lemma send_log (p : Peer) (command : jsstring) (data : option SendData)
    (written : bool) :
  peer_of (send command data written p) = p
  /\ events (log_of (send command data written p)) = []
  /\ dials (log_of (send command data written p)) = 0%nat.
Proof.
  rewrite send_eq.
  destruct (payloadToSend p command data) as [d|]; [|repeat split].
  destruct (_ && _ && _); [|repeat split].
  destruct (_socket p); repeat split.
Qed.

Lemma connect_alloc_fails (p : Peer) (socket : option Socket) (written : bool) :
  _bufferSize p < 0 ->
  connect socket written p = (p, [], Thrown RangeError).
Proof.
  intros H. unfold connect. rewrite bind_this. unfold Buffer_alloc.
  replace (_bufferSize p <? 0) with true by (symmetry; apply Z.ltb_lt; lia).
  reflexivity.
Qed.

(** A dial: [connect()] on a Peer without a socket. *)
Lemma connect_dial (p : Peer) (written : bool) :
  _socket p = None -> 0 <= _bufferSize p ->
  let q :=
    set_socket (Some (Dialed (_port (_host p)) (_address (_host p))))
      (set_state (Some connecting)
         (set_inCursor 0
            (set_inBuffer (Some (repeat x00 (Z.to_nat (_bufferSize p)))) p))) in
  connect None written p =
  match _keypair p with
  | Some keypair =>
      match send (str "SECURE") (Some (DataString (public keypair)))
                 written q with
      | (q', l, Returned _) =>
          (q', CreateConnection (_port (_host p)) (_address (_host p)) :: l,
           Returned (_socket q'))
      | (q', l, Thrown e) =>
          (q', CreateConnection (_port (_host p)) (_address (_host p)) :: l,
           Thrown e)
      end
  | None =>
      (q, [CreateConnection (_port (_host p)) (_address (_host p))],
       Returned (_socket q))
  end.
Proof.
  intros Hs Hb q. subst q. unfold connect. rewrite bind_this.
  unfold Buffer_alloc.
  replace (_bufferSize p <? 0) with false by (symmetry; apply Z.ltb_ge; lia).
  unfold orThrow at 1. rewrite bind_ret. rewrite Hs. cbn [is_null].
  destruct (_keypair p) as [kp|].
  - munfold.
    destruct (send _ _ _ _) as [[q' l'] [b|e]];
      cbn [app]; rewrite ?app_nil_r; reflexivity.
  - reflexivity.
Qed.

Lemma state_is_connecting (p : Peer) :
  state_is p connecting = true <-> _state p = Some connecting.
Proof.
  unfold state_is. destruct (_state p) as [[]|]; cbn; split;
    try discriminate; reflexivity.
Qed.

(** One transport error while connecting. *)
Lemma _socketEventError_connecting (p : Peer) (err : jsstring) (written : bool) :
  _state p = Some connecting ->
  let r := _socketEventError err written p in
  completion_of r = Returned tt
  /\ _state (peer_of r) = Some connecting
  /\ _connectionAttempts (peer_of r) = _connectionAttempts p + 1
  /\ _maxConnectionAttempts (peer_of r) = _maxConnectionAttempts p
  /\ _bufferSize (peer_of r) = _bufferSize p
  /\ _host (peer_of r) = _host p
  /\ events (log_of r) = []
  /\ (0 <= _bufferSize p ->
      _socket (peer_of r)
      = Some (Dialed (_port (_host p)) (_address (_host p)))
      /\ dials (log_of r) = 1%nat).
Proof.
  intros Hst r. subst r. unfold _socketEventError. rewrite bind_this.
  assert (Hc : state_is p connecting = true)
    by (apply state_is_connecting; exact Hst).
  rewrite Hc. munfold.
  destruct (Z_lt_le_dec (_bufferSize p) 0) as [Hlt|Hge].
  - rewrite connect_alloc_fails by exact Hlt.
    unfold state_is. cbn [_state set_socket set_connectionAttempts].
    rewrite Hst.
    cbn [State_eqb negb orb js_ge _maxConnectionAttemps].
    unfold peer_of, log_of, completion_of. cbn [fst snd app].
    repeat split; try assumption; lia.
  - rewrite connect_dial by (reflexivity || exact Hge).
    cbn [_keypair _host _bufferSize set_socket set_connectionAttempts].
    destruct (_keypair p) as [kp|].
    + match goal with
      | |- context [send ?c ?d ?w ?q] =>
          pose proof (send_log q c d w) as (H1 & H2 & H3);
          destruct (send c d w q) as [[q' l'] c']
      end.
      unfold peer_of, log_of in H1, H2, H3. cbn [fst snd] in H1, H2, H3.
      subst q'.
      destruct c' as [b|e];
        unfold state_is, peer_of, log_of, completion_of;
        cbn [fst snd _state set_socket set_state State_eqb negb orb js_ge
             _maxConnectionAttemps app];
        rewrite ?app_nil_r;
        (repeat split; try reflexivity;
         [ exact H2 | unfold dials in *; cbn [filter is_dial length];
                      rewrite H3; reflexivity ]).
    + unfold state_is, peer_of, log_of, completion_of.
      cbn [fst snd _state set_socket set_state State_eqb negb orb js_ge
           _maxConnectionAttemps app].
      repeat split; reflexivity.
Qed.

(** C3, on the code. Reconnection: a transport error on a Peer that is
    connecting increments the counter and calls [connect] again, which dials
    again; but whatever the counter and the configured maximum are, the Peer
    goes on retrying and raises no error notification: after [n] errors in a
    row it is still connecting, has dialled [n] times, and has notified
    nothing. *)
Theorem reconnection_never_stops (n : nat) :
  forall (p : Peer) (err : jsstring) (written : bool),
  _state p = Some connecting ->
  let r := socketErrors n err written p in
  completion_of r = Returned tt
  /\ _state (peer_of r) = Some connecting
  /\ _connectionAttempts (peer_of r) = _connectionAttempts p + Z.of_nat n
  /\ _maxConnectionAttempts (peer_of r) = _maxConnectionAttempts p
  /\ _bufferSize (peer_of r) = _bufferSize p
  /\ events (log_of r) = []
  /\ (0 <= _bufferSize p -> dials (log_of r) = n).
Proof.
  induction n as [|n IH]; intros p err written Hst r; subst r.
  - cbn. repeat split; try reflexivity; try assumption; lia.
  - cbn [socketErrors]. unfold bind.
    pose proof (_socketEventError_connecting p err written Hst) as H1.
    cbv zeta in H1.
    destruct (_socketEventError err written p) as [[p1 l1] c1].
    unfold peer_of, log_of, completion_of in H1. cbn [fst snd] in H1.
    destruct H1 as (-> & Hs1 & Ha1 & Hm1 & Hb1 & Hh1 & He1 & Hd1).
    specialize (IH p1 err written Hs1). cbv zeta in IH.
    destruct (socketErrors n err written p1) as [[p2 l2] c2].
    unfold peer_of, log_of, completion_of in *. cbn [fst snd] in *.
    destruct IH as (-> & Hs2 & Ha2 & Hm2 & Hb2 & He2 & Hd2).
    repeat split; try assumption; try congruence.
    + lia.
    + unfold events in *. rewrite flat_map_app, He1, He2. reflexivity.
    + intros Hge. unfold dials in *. rewrite filter_app, length_app.
      rewrite (proj2 (Hd1 Hge)), Hd2 by lia. reflexivity.
Qed.

(** ** [Host] *)

(** Construction, in full: an address that contains "localhost" anywhere
    stands for 127.0.0.1; then the address must be an IP literal. *)
Lemma Host_constructor_eq (address : jsstring) (port : Z) :
  Host_constructor address port =
  let normalized :=
    if includes address (str "localhost") then str "127.0.0.1" else address in
  if isIP normalized =? 0
  then Thrown (Error (str "Unknown address family"))
  else Returned {| _family := str "IPv" ++ [48 + isIP normalized];
                   _address := normalized;
                   _port := port |}.
Proof. reflexivity. Qed.

(** C8, on the code. Host validation: every address that contains the text
    localhost, whatever else it holds, constructs the Host 127.0.0.1 of
    family IPv4; the literal "localhost" is only one of them. *)
Theorem Host_localhost_substring (address : jsstring) (port : Z) :
  isIP (str "127.0.0.1") = 4 ->
  includes address (str "localhost") = true ->
  Host_constructor address port
  = Returned {| _family := str "IPv4";
                _address := str "127.0.0.1";
                _port := port |}.
Proof.
  intros Hip Hinc. unfold Host_constructor. rewrite Hinc, Hip. reflexivity.
Qed.

(** ** [send] raises *)

(** C9, on the code. [send] raises (its promise rejects) instead of
    returning false when a character among the first twelve of the command
    has a code above 255, and when the transform with the private key
    raises; only the failures of the transport write are returned as
    false. *)
Theorem send_raises (p : Peer) (command : jsstring) (data : option SendData)
    (written : bool) :
  (forallb is_uint8 (firstn 12 command) = false ->
   exists e, completion_of (send command data written p) = Thrown e)
  /\ (payloadToSend p command data = None ->
      send command data written p = (p, [], Thrown CryptoError))
  /\ (forall b, completion_of (send command data written p) = Returned b ->
      b = false \/ b = written).
Proof.
  rewrite send_eq. split; [|split].
  - intros Hc. destruct (payloadToSend p command data) as [d|].
    + rewrite Hc, andb_false_r. cbn [andb]. eexists. reflexivity.
    + eexists. reflexivity.
  - intros ->. reflexivity.
  - intros b. destruct (payloadToSend p command data) as [d|];
      [|discriminate].
    destruct (_ && _ && _); [|discriminate].
    destruct (_socket p); cbn; intros E; injection E as <-; auto.
Qed.

(** * Further properties of the code *)

(** ** [send] *)

(** X1. [send] is an observer of the Peer: whatever the command, the data
    and the outcome of the write, the Peer's fields are the same afterwards,
    no notification is raised, and the transport is written to at most once,
    with the one frame built from the header constant, the command and the
    payload. *)
Theorem send_frame_effect (p : Peer) (command : jsstring)
    (data : option SendData) (written : bool) :
  let r := send command data written p in
  peer_of r = p
  /\ events (log_of r) = []
  /\ (log_of r = []
      \/ exists d, payloadToSend p command data = Some d
           /\ log_of r = [SocketWrite (frameBytes (_header p) command d)]).
Proof.
  cbv zeta. rewrite send_eq.
  destruct (payloadToSend p command data) as [d|]; [|cbn; auto].
  destruct (_ && _ && _); [|cbn; auto].
  destruct (_socket p); cbn; [|auto].
  repeat split. right. exists d. auto.
Qed.

(** X2. [send] on a Peer that holds no socket (never connected, or reset by
    a transport error): when the frame can be built, the failure of
    [this._socket.write] on [null] is caught and [send] returns false,
    writing nothing. *)
Theorem send_without_socket (p : Peer) (command : jsstring)
    (data : option SendData) (written : bool) (d : Buffer) :
  _socket p = None ->
  payloadToSend p command data = Some d ->
  is_uint32 (_header p) = true ->
  Forall (fun c => 0 <= c <= 255) (firstn 12 command) ->
  blength d <= 0xffffffff ->
  send command data written p = (p, [], Returned false).
Proof.
  intros Hs Hd Hh Hc Hl. rewrite send_eq, Hd, Hh, Hs.
  assert (Hfa : forallb is_uint8 (firstn 12 command) = true).
  { apply forallb_forall. intros c Hin. apply is_uint8_spec.
    rewrite Forall_forall in Hc. exact (Hc c Hin). }
  assert (Hd32 : is_uint32 (blength d) = true).
  { apply is_uint32_spec. pose proof (blength_nonneg d). lia. }
  rewrite Hfa, Hd32. reflexivity.
Qed.

(** ** [connect] *)

(** [connect] on a Peer that holds a socket. *)
Lemma connect_held (p : Peer) (held : Socket) (socket : option Socket)
    (written : bool) :
  _socket p = Some held -> 0 <= _bufferSize p ->
  connect socket written p
  = (set_inCursor 0
       (set_inBuffer (Some (repeat x00 (Z.to_nat (_bufferSize p)))) p),
     [], Returned (Some held)).
Proof.
  intros Hs Hb. unfold connect. munfold. unfold Buffer_alloc.
  replace (_bufferSize p <? 0) with false by (symmetry; apply Z.ltb_ge; lia).
  rewrite Hs. cbn [is_null]. cbn [_socket set_inCursor set_inBuffer app].
  rewrite Hs. reflexivity.
Qed.

(** X3. [connect] on a Peer that already holds a socket only replaces the
    accumulation buffer by a zeroed one and resets the cursor: the bytes
    received of an incomplete frame are dropped, the socket passed in is
    ignored, nothing is dialled or written, and the state is left as it
    was. *)
Theorem connect_again (p : Peer) (held : Socket) (socket : option Socket)
    (written : bool) :
  _socket p = Some held -> 0 <= _bufferSize p ->
  connect socket written p
  = (set_inCursor 0
       (set_inBuffer (Some (repeat x00 (Z.to_nat (_bufferSize p)))) p),
     [], Returned (Some held)).
Proof.
  intros Hs Hb. unfold connect. munfold. unfold Buffer_alloc.
  replace (_bufferSize p <? 0) with false by (symmetry; apply Z.ltb_ge; lia).
  rewrite Hs. cbn [is_null]. cbn [_socket set_inCursor set_inBuffer app].
  rewrite Hs. reflexivity.
Qed.

(** [connect(socket)] with an accepted socket on a Peer without one. *)
Lemma connect_socket (p : Peer) (socket : Socket) (written : bool) :
  _socket p = None -> 0 <= _bufferSize p ->
  let q :=
    set_socket (Some socket)
      (set_state (Some connected)
         (set_inCursor 0
            (set_inBuffer (Some (repeat x00 (Z.to_nat (_bufferSize p)))) p))) in
  connect (Some socket) written p =
  match _keypair p with
  | Some keypair =>
      match send (str "SECURE") (Some (DataString (public keypair)))
                 written q with
      | (q', l, Returned _) => (q', l, Returned (_socket q'))
      | (q', l, Thrown e) => (q', l, Thrown e)
      end
  | None => (q, [], Returned (_socket q))
  end.
Proof.
  intros Hs Hb q. subst q. unfold connect. rewrite bind_this.
  unfold Buffer_alloc.
  replace (_bufferSize p <? 0) with false by (symmetry; apply Z.ltb_ge; lia).
  unfold orThrow at 1. rewrite bind_ret. rewrite Hs. cbn [is_null].
  destruct (_keypair p) as [kp|].
  - munfold.
    destruct (send _ _ _ _) as [[q' l'] [b|e]];
      cbn [app]; rewrite ?app_nil_r; reflexivity.
  - reflexivity.
Qed.

(** X4. The key exchange.  [connect] on a Peer with a key pair writes one
    frame, the command SECURE with the public key as payload, and nothing
    else; a Peer with the same header constant that receives this frame in a
    data event stores the public key (as [toString] decodes its bytes) as
    its remote key and raises no notification. *)
Theorem key_exchange (p q : Peer) (keys : Keypair) (socket : option Socket)
    (written : bool) (B : Buffer) :
  _socket p = None -> 0 <= _bufferSize p ->
  _keypair p = Some keys ->
  is_uint32 (_header p) = true ->
  blength (utf8_encode (public keys)) <= 0xffffffff ->
  _header q = _header p ->
  _inBuffer q = Some B -> _inCursor q = 0 ->
  blength (utf8_encode (public keys)) + 24 <= blength B ->
  let frame :=
    frameBytes (_header p) (str "SECURE") (utf8_encode (public keys)) in
  written_bytes (log_of (connect socket written p)) = frame
  /\ events (log_of (connect socket written p)) = []
  /\ exists B',
       _socketEventData frame q
       = (with_stream q (Some (Buffer_toString (utf8_encode (public keys))))
            B' 0,
          [], Returned tt).
Proof.
  intros Hs Hb Hk Hh Hl Hhq HB Hn Hfit frame.
  pose proof (blength_nonneg (utf8_encode (public keys))) as Hl0.
  assert (Hd32 : is_uint32 (blength (utf8_encode (public keys))) = true)
    by (apply is_uint32_spec; lia).
  assert (Hsend : forall q0, _socket q0 <> None -> _keypair q0 = Some keys ->
            _header q0 = _header p ->
            send (str "SECURE") (Some (DataString (public keys))) written q0
            = (q0, [SocketWrite frame], Returned written)).
  { intros q0 Hq0 Hk0 Hh0. rewrite send_eq. unfold payloadToSend.
    rewrite Hk0. cbn [Buffer_from].
    replace (match _remotePublicKey q0 with
             | Some _ =>
                 if negb (jsstring_eqb (str "SECURE") (str "SECURE"))
                 then privateEncrypt (private keys)
                        (utf8_encode (public keys))
                 else Some (utf8_encode (public keys))
             | None => Some (utf8_encode (public keys))
             end) with (Some (utf8_encode (public keys)))
      by (destruct (_remotePublicKey q0); reflexivity).
    rewrite Hh0, Hh, Hd32.
    replace (forallb is_uint8 (firstn 12 (str "SECURE"))) with true
      by reflexivity.
    cbn [andb]. destruct (_socket q0); [reflexivity | contradiction]. }
  split; [|split].
  - destruct socket as [s|].
    + rewrite connect_socket by assumption. cbv zeta. rewrite Hk.
      rewrite Hsend; [|discriminate|exact Hk|reflexivity].
      unfold log_of, written_bytes. cbn [fst snd flat_map app].
      apply app_nil_r.
    + rewrite connect_dial by assumption. cbv zeta. rewrite Hk.
      rewrite Hsend; [|discriminate|exact Hk|reflexivity].
      unfold log_of, written_bytes. cbn [fst snd flat_map app].
      apply app_nil_r.
  - destruct socket as [s|].
    + rewrite connect_socket by assumption. cbv zeta. rewrite Hk.
      rewrite Hsend; [|discriminate|exact Hk|reflexivity]. reflexivity.
    + rewrite connect_dial by assumption. cbv zeta. rewrite Hk.
      rewrite Hsend; [|discriminate|exact Hk|reflexivity]. reflexivity.
  - assert (Hframe : complete_frame (_header q) frame).
    { rewrite Hhq. apply frameBytes_complete; assumption. }
    assert (Hlen : blength frame = blength (utf8_encode (public keys)) + 24)
      by apply frameBytes_length.
    assert (Hcmd : readCommand frame = str "SECURE").
    { apply frameBytes_command; [cbn; lia|].
      let l := eval vm_compute in (str "SECURE") in
      change (str "SECURE") with l.
      repeat (apply Forall_cons; [lia|]). apply Forall_nil. }
    assert (Hproc : _processMessage frame q
                    = (set_remotePublicKey
                         (Some (Buffer_toString (utf8_encode (public keys))))
                         q, [], Returned tt)).
    { assert (Htf : readUInt32BE frame 20
                    = readUInt32BE
                        (integrityTag (str "SECURE")
                           (utf8_encode (public keys))) 0)
        by apply frameBytes_tag_field.
      assert (Hpl : skipn 24 frame = utf8_encode (public keys))
        by apply frameBytes_payload.
      destruct (_processMessage_frame q frame
                  (blength (utf8_encode (public keys))))
        as (tag & Htag & v & Hv & ->).
      - apply frameBytes_length_field. exact Hd32.
      - exact Hlen.
      - assert (Heq : (tag =? v) = true).
        { apply option_Z_eqb. rewrite <- Htag, <- Hv, Htf, Hcmd, Hpl.
          reflexivity. }
        rewrite Heq, orb_true_r. unfold deliver. rewrite Hcmd, Hpl.
        reflexivity. }
    destruct (receive_frame q B frame HB Hn ltac:(lia) Hframe)
      as (B' & n' & Hrun & _ & Hn').
    rewrite Hproc in Hrun, Hn'.
    unfold peer_of, log_of, completion_of in Hrun, Hn'.
    cbn [fst snd _remotePublicKey set_remotePublicKey] in Hrun, Hn'.
    rewrite (Hn' eq_refl) in Hrun. exists B'. exact Hrun.
Qed.

(** X5. A key pair can only be generated before the first [connect]: on a
    Peer that has never been connected [generateKeypair] stores the pair; once
    [connect] has run on a Peer without a socket (whatever it was given, and
    whether or not its own write succeeded), [generateKeypair] raises
    'Cannot generate keypair after connection' and the key pair is
    unchanged. *)
Theorem generateKeypair_before_connect (p : Peer) (socket : option Socket)
    (written : bool) (generated : Keypair) :
  _socket p = None -> 0 <= _bufferSize p ->
  (_state p = None ->
   generateKeypair generated p
   = (set_keypair (Some generated) p, [], Returned tt))
  /\ generateKeypair generated (peer_of (connect socket written p))
     = (peer_of (connect socket written p), [],
        Thrown (Error (str "Cannot generate keypair after connection")))
  /\ _keypair (peer_of (connect socket written p)) = _keypair p.
Proof.
  intros Hs Hb. split.
  { intros Hst. unfold generateKeypair. rewrite bind_this, Hst. reflexivity. }
  assert (Hst : _state (peer_of (connect socket written p)) <> None
                /\ _keypair (peer_of (connect socket written p)) = _keypair p).
  { destruct socket as [s|].
    - rewrite connect_socket by assumption. cbv zeta.
      destruct (_keypair p) as [kp|] eqn:Hk.
      + match goal with
        | |- context [send ?c ?d ?w ?q] =>
            pose proof (send_log q c d w) as (H1 & _ & _);
            destruct (send c d w q) as [[q' l'] c']
        end.
        unfold peer_of in H1. cbn [fst] in H1. subst q'.
        destruct c'; unfold peer_of; cbn; rewrite Hk; split;
          (discriminate || reflexivity).
      + unfold peer_of; cbn. rewrite Hk. split; (discriminate || reflexivity).
    - rewrite connect_dial by assumption. cbv zeta.
      destruct (_keypair p) as [kp|] eqn:Hk.
      + match goal with
        | |- context [send ?c ?d ?w ?q] =>
            pose proof (send_log q c d w) as (H1 & _ & _);
            destruct (send c d w q) as [[q' l'] c']
        end.
        unfold peer_of in H1. cbn [fst] in H1. subst q'.
        destruct c'; unfold peer_of; cbn; rewrite Hk; split;
          (discriminate || reflexivity).
      + unfold peer_of; cbn. rewrite Hk. split; (discriminate || reflexivity). }
  destruct Hst as [Hst Hk]. split; [|exact Hk].
  unfold generateKeypair. rewrite bind_this.
  destruct (_state (peer_of (connect socket written p)));
    [reflexivity | contradiction].
Qed.

(** ** Transport events *)

(** [emit('error', ...)], by what is attached to the emitter. *)
Lemma emit_error (err : jsstring) (p : Peer) :
  emit (EvError err) p
  = match _eventEmitter p with
    | NoErrorListener => (p, [], Thrown UnhandledError)
    | ErrorListeners => (p, [Emit (EvError err)], Returned tt)
    | ErrorListenerRaises => (p, [Emit (EvError err)], Thrown UnhandledError)
    end.
Proof. reflexivity. Qed.

Lemma error_outside_connecting_eq (p : Peer) (err : jsstring)
    (written : bool) :
  _state p <> Some connecting ->
  _socketEventError err written p = emit (EvError err) p.
Proof.
  intros Hst. unfold _socketEventError. rewrite bind_this.
  assert (Hc : state_is p connecting = false).
  { destruct (state_is p connecting) eqn:E; [|reflexivity].
    apply state_is_connecting in E. contradiction. }
  rewrite Hc. rewrite bind_ret, bind_this, Hc. reflexivity.
Qed.

(** X6. A transport error on a Peer that is not connecting (never
    connected, connected, disconnecting, destroying or closed) does nothing
    but emit 'error' with that error: no retry, no dial, no field changed.
    With a listener of 'error' attached that returns, that is exactly one
    error notification and the handler returns; with none attached the
    emitter raises out of the handler and nothing is notified; with a
    listener that raises, the notification is made and the handler raises. *)
Theorem error_outside_connecting (p : Peer) (err : jsstring) (written : bool) :
  _state p <> Some connecting ->
  _socketEventError err written p
  = match _eventEmitter p with
    | NoErrorListener => (p, [], Thrown UnhandledError)
    | ErrorListeners => (p, [Emit (EvError err)], Returned tt)
    | ErrorListenerRaises => (p, [Emit (EvError err)], Thrown UnhandledError)
    end.
Proof.
  intros Hst. unfold _socketEventError. rewrite bind_this.
  assert (Hc : state_is p connecting = false).
  { destruct (state_is p connecting) eqn:E; [|reflexivity].
    apply state_is_connecting in E. contradiction. }
  rewrite Hc. rewrite bind_ret, bind_this, Hc. cbn [negb orb].
  apply emit_error.
Qed.

(** After any number of transport errors, a Peer that was connecting still
    is, and nothing has been notified. *)
Lemma socketErrors_connecting (n : nat) :
  forall (p : Peer) (err : jsstring) (written : bool),
  _state p = Some connecting ->
  completion_of (socketErrors n err written p) = Returned tt
  /\ _state (peer_of (socketErrors n err written p)) = Some connecting
  /\ _connectionAttempts (peer_of (socketErrors n err written p))
     = _connectionAttempts p + Z.of_nat n
  /\ events (log_of (socketErrors n err written p)) = [].
Proof.
  induction n as [|n IH]; intros p err written Hst.
  - cbn. repeat split; try assumption; lia.
  - cbn [socketErrors]. unfold bind.
    pose proof (_socketEventError_connecting p err written Hst) as H1.
    cbv zeta in H1.
    destruct (_socketEventError err written p) as [[p1 l1] c1].
    unfold peer_of, log_of, completion_of in H1. cbn [fst snd] in H1.
    destruct H1 as (-> & Hs1 & Ha1 & _ & _ & _ & He1 & _).
    specialize (IH p1 err written Hs1).
    destruct (socketErrors n err written p1) as [[p2 l2] c2].
    unfold peer_of, log_of, completion_of in *. cbn [fst snd] in *.
    destruct IH as (-> & Hs2 & Ha2 & He2).
    repeat split; try assumption.
    + lia.
    + unfold events in *. rewrite flat_map_app, He1, He2. reflexivity.
Qed.

(** X7. A dial that succeeds after failed attempts: when the socket's
    connect event follows any number of transport errors on a connecting
    Peer, the Peer is connected, its attempt counter is back at 0 whatever it
    had reached, and the one notification of the whole run is the 'connect'
    one. *)
Theorem connect_event_after_retries (n : nat) (p : Peer) (err : jsstring)
    (written : bool) :
  _state p = Some connecting ->
  let r := (socketErrors n err written ;;; _socketEventConnect) p in
  completion_of r = Returned tt
  /\ _state (peer_of r) = Some connected
  /\ _connectionAttempts (peer_of r) = 0
  /\ events (log_of r) = [EvConnect].
Proof.
  intros Hst r. subst r. unfold bind, _socketEventConnect. munfold.
  pose proof (socketErrors_connecting n p err written Hst) as H.
  destruct (socketErrors n err written p) as [[p1 l1] c1].
  unfold peer_of, log_of, completion_of in *. cbn [fst snd] in *.
  destruct H as (-> & _ & _ & He).
  cbn [fst snd app].
  repeat split.
  unfold events in *. rewrite flat_map_app, He. reflexivity.
Qed.

Lemma disconnect_destroy_socket (p : Peer) (s : Socket) :
  _socket p = Some s ->
  disconnect p
  = (set_state (Some closed) p, [SocketEnd; Emit EvClose], Returned tt)
  /\ destroy p
     = (set_state (Some closed) p, [SocketDestroy; Emit EvClose], Returned tt).
Proof.
  intros Hs. unfold disconnect, destroy, _socketEventClose. munfold.
  cbn [_socket set_state]. rewrite Hs. cbn [app]. split; reflexivity.
Qed.

(** X8. [disconnect] and [destroy] on a Peer that holds a socket end
    (destroy) the transport once and, that done, leave the Peer closed and
    raise the one notification 'close'; the socket stays stored.  On a Peer
    without a socket they raise a TypeError, and the Peer is left
    disconnecting (destroying) with no notification. *)
Theorem disconnect_destroy (p : Peer) :
  (forall s, _socket p = Some s ->
     disconnect p
     = (set_state (Some closed) p, [SocketEnd; Emit EvClose], Returned tt)
     /\ destroy p
        = (set_state (Some closed) p, [SocketDestroy; Emit EvClose],
           Returned tt))
  /\ (_socket p = None ->
      disconnect p = (set_state (Some disconnecting) p, [], Thrown TypeError)
      /\ destroy p = (set_state (Some destroying) p, [], Thrown TypeError)).
Proof.
  split.
  - intros s Hs. exact (disconnect_destroy_socket p s Hs).
  - intros Hs. unfold disconnect, destroy, _socketEventClose. munfold.
    cbn [_socket set_state]. rewrite Hs. split; reflexivity.
Qed.

(** X9. A closed Peer cannot dial again: after [disconnect] (or [destroy])
    the socket is still stored, so a later [connect()] opens no connection
    and writes nothing; it returns the old socket and the Peer stays
    closed. *)
Theorem no_redial_after_close (p : Peer) (s : Socket) (socket : option Socket)
    (written : bool) :
  _socket p = Some s -> 0 <= _bufferSize p ->
  let r := (disconnect ;;; connect socket written) p in
  let r' := (destroy ;;; connect socket written) p in
  log_of r = [SocketEnd; Emit EvClose]
  /\ completion_of r = Returned (Some s)
  /\ _state (peer_of r) = Some closed
  /\ log_of r' = [SocketDestroy; Emit EvClose]
  /\ completion_of r' = Returned (Some s)
  /\ _state (peer_of r') = Some closed.
Proof.
  intros Hs Hb r r'. subst r r'.
  destruct (disconnect_destroy_socket p s Hs) as [Hd He].
  unfold bind. rewrite Hd, He.
  rewrite (connect_held (set_state (Some closed) p) s socket written)
    by assumption.
  unfold log_of, completion_of, peer_of. cbn [fst snd app].
  repeat split.
Qed.

(** ** Data events in any state *)

Lemma processKey_exn (message : Buffer) (key : option jsstring) (e : Exn) :
  snd (processKey message key) = Thrown e -> e = RangeError \/ e = CryptoError.
Proof.
  unfold processKey. rewrite _processMessage_eq.
  destruct (readUInt32LE message 16) as [len|];
    [|cbn; intros Q; injection Q as <-; auto].
  destruct (readUInt32BE message 20) as [checksum|];
    [|cbn; intros Q; injection Q as <-; auto].
  destruct (verifiedPayload message len checksum) as [[payload|]|e'] eqn:Ev.
  - unfold deliver. destruct (jsstring_eqb _ _); [cbn; discriminate|].
    cbn [_remotePublicKey set_remotePublicKey Peer_constructor].
    destruct key as [k|]; [|cbn; discriminate].
    destruct (publicDecrypt k _); cbn; [discriminate|].
    intros Q; injection Q as <-; auto.
  - cbn. discriminate.
  - cbn. intros Q; injection Q as <-. left.
    unfold verifiedPayload in Ev.
    destruct (0 <? len); [|discriminate].
    destruct (Buffer_alloc len); [|congruence].
    destruct (readUInt32BE _ 0); [discriminate | congruence].
Qed.

(** The scan loop changes nothing of the Peer but the remote key; it returns
    an offset within the received bytes, or raises the exception of a read or
    of the decryption. *)
Lemma scanLoop_frame (fuel : nat) :
  forall (cursor messageEnd : Z) (p : Peer) (B : Buffer),
  _inBuffer p = Some B ->
  0 <= cursor -> 0 <= messageEnd <= _inCursor p ->
  (Z.to_nat (_inCursor p - cursor) < fuel)%nat ->
  exists key l c,
    scanLoop fuel cursor messageEnd p = (set_remotePublicKey key p, l, c)
    /\ match c with
       | Returned e => 0 <= e <= _inCursor p
       | Thrown e => e = RangeError \/ e = CryptoError
       end.
Proof.
  induction fuel as [|fuel IH]; intros cursor messageEnd p B HB Hc Hm Hf; [lia|].
  cbn [scanLoop]. rewrite bind_this.
  destruct (cursor <? _inCursor p) eqn:E.
  2:{ exists (_remotePublicKey p), [], (Returned messageEnd).
      rewrite set_remotePublicKey_same. split; [reflexivity | exact Hm]. }
  apply Z.ltb_lt in E. rewrite HB. unfold orThrow at 1. rewrite bind_ret.
  destruct (readUInt32LE B cursor) as [word|].
  2:{ exists (_remotePublicKey p), [], (Thrown RangeError).
      rewrite set_remotePublicKey_same. split; [reflexivity | auto]. }
  unfold orThrow at 1. rewrite bind_ret.
  destruct (word =? _header p).
  - destruct (cursor + 16 <? _inCursor p).
    + destruct (readUInt32LE B (cursor + 16)) as [len|] eqn:El.
      2:{ exists (_remotePublicKey p), [], (Thrown RangeError).
          rewrite set_remotePublicKey_same. split; [reflexivity | auto]. }
      apply readUInt32LE_nonneg in El.
      unfold orThrow at 1. rewrite bind_ret.
      destruct (cursor + len + 24 <=? _inCursor p) eqn:Efit.
      * apply Z.leb_le in Efit.
        unfold bind. rewrite _processMessage_key.
        pose proof (processKey_exn
                      (Buffer_slice B cursor (cursor + len + 24))
                      (_remotePublicKey p)) as Hp.
        destruct (processKey _ (_remotePublicKey p)) as [[k1 l1] [[]|e]];
          cbn [fst snd] in *.
        -- destruct (IH (cursor + (len + 24)) (cursor + len + 24)
                        (set_remotePublicKey k1 p) B)
             as (key & l & c & Hrun & Hpost);
             try (cbn [_inBuffer _inCursor set_remotePublicKey]; lia).
           { exact HB. }
           rewrite Hrun. exists key, (l1 ++ l), c.
           rewrite set_remotePublicKey_twice. split; [reflexivity|].
           exact Hpost.
        -- exists k1, l1, (Thrown e). split; [reflexivity|].
           apply Hp. reflexivity.
      * apply (IH (cursor + (len + 24)) messageEnd p B); try assumption; lia.
    + apply (IH (_inCursor p) messageEnd p B); try assumption; lia.
  - apply (IH (cursor + 1) messageEnd p B); try assumption; lia.
Qed.

(** What a data event leaves of the stream fields, in every case. *)
Lemma _socketEventData_stream (d : Buffer) (p : Peer) (B : Buffer) :
  _inBuffer p = Some B -> 0 <= _inCursor p <= blength B + 1 ->
  exists key B' n' l c,
    _socketEventData d p = (with_stream p key B' n', l, c)
    /\ blength B' = blength B /\ 0 <= n' <= blength B + 1
    /\ match c with
       | Returned _ => True
       | Thrown e =>
           e = RangeError \/ e = CryptoError
           \/ (e = UnhandledError /\ _eventEmitter p <> ErrorListeners
               /\ blength B < blength d + _inCursor p)
       end.
Proof.
  intros HB Hn.
  pose proof (blength_nonneg d) as Hd.
  unfold _socketEventData. rewrite bind_this, HB.
  unfold orThrow at 1. rewrite bind_ret.
  destruct (blength B <? blength d + _inCursor p) eqn:Eover.
  - apply Z.ltb_lt in Eover.
    destruct (_eventEmitter p) eqn:Hem.
    + exists (_remotePublicKey p), B, (_inCursor p), [], (Thrown UnhandledError).
      split; [|split; [reflexivity | split; [lia|]]].
      * munfold. rewrite Hem. unfold with_stream.
        rewrite set_remotePublicKey_same.
        destruct p; cbn in HB; subst; reflexivity.
      * right. right. split; [reflexivity|]. split; [discriminate | exact Eover].
    + exists (_remotePublicKey p), B, (blength B + 1).
      eexists. exists (Returned tt).
      split; [|split; [reflexivity | split; [lia | exact I]]].
      munfold. rewrite Hem. unfold with_stream.
      rewrite set_remotePublicKey_same.
      destruct p; cbn in HB; subst; reflexivity.
    + exists (_remotePublicKey p), B, (_inCursor p).
      eexists. exists (Thrown UnhandledError).
      split; [|split; [reflexivity | split; [lia|]]].
      * munfold. rewrite Hem. unfold with_stream.
        rewrite set_remotePublicKey_same.
        destruct p; cbn in HB; subst; reflexivity.
      * right. right. split; [reflexivity|]. split; [discriminate | exact Eover].
  - apply Z.ltb_ge in Eover.
    set (B1 := Buffer_copy d B (_inCursor p) 0 (blength d)).
    set (n1 := _inCursor p + blength d).
    assert (HB1 : blength B1 = blength B) by (apply blength_copy_append; lia).
    munfold. cbn [_inCursor set_inCursor]. fold n1.
    destruct (n1 <? 20) eqn:E20.
    + exists (_remotePublicKey p), B1, n1, [], (Returned tt).
      split; [|split; [exact HB1 | split; [lia | exact I]]].
      unfold with_stream. rewrite set_remotePublicKey_same. reflexivity.
    + set (p1 := set_inCursor n1 (set_inBuffer (Some B1) p)).
      destruct (scanLoop_frame (S (Z.to_nat n1)) 0 0 p1 B1)
        as (key & l & c & Hrun & Hpost);
        try (cbn [_inBuffer _inCursor p1 set_inCursor set_inBuffer]; lia).
      { reflexivity. }
      rewrite Hrun. cbn [_inCursor p1 set_inCursor] in Hpost.
      destruct c as [e|ex].
      * destruct (0 <? e) eqn:Ee.
        -- apply Z.ltb_lt in Ee.
           cbn [_inBuffer _inCursor set_remotePublicKey p1 set_inCursor
                set_inBuffer].
           exists key, (Buffer_copy B1 B1 0 e n1), (n1 - e), l, (Returned tt).
           split; [|split; [|split; [lia | exact I]]].
           ++ cbn [app]. rewrite ?app_nil_r. reflexivity.
           ++ rewrite blength_copy_compact by lia. exact HB1.
        -- exists key, B1, n1, l, (Returned tt).
           split; [|split; [exact HB1 | split; [lia | exact I]]].
           cbn [app]. rewrite ?app_nil_r. reflexivity.
      * exists key, B1, n1, l, (Thrown ex).
        split; [|split; [exact HB1 | split; [lia|]]].
        -- cbn [app]. rewrite ?app_nil_r. reflexivity.
        -- destruct Hpost as [->| ->]; auto.
Qed.

(** X10. Data events always complete.  On a Peer that has a buffer (one that
    [connect] has run on), any sequence of data events ends: the scan loop of
    each terminates, and the run returns or stops at a RangeError (a read
    that reaches past the end of the buffer), at the exception of the
    decryption, or at the error the emitter raises when a chunk overflows the
    buffer and no listener of 'error' that returns is attached, never at
    anything else; afterwards the buffer has the capacity it had and the
    cursor is between 0 and the capacity plus one.  Before the first
    [connect] a data event raises a TypeError and changes nothing. *)
Theorem data_events_complete (chunks : list Buffer) :
  forall p : Peer,
  (forall B, _inBuffer p = Some B -> 0 <= _inCursor p <= blength B + 1 ->
     match completion_of (dataEvents chunks p) with
     | Returned _ => True
     | Thrown e =>
         e = RangeError \/ e = CryptoError
         \/ (e = UnhandledError /\ _eventEmitter p <> ErrorListeners)
     end
     /\ exists B',
          _inBuffer (peer_of (dataEvents chunks p)) = Some B'
          /\ blength B' = blength B
          /\ 0 <= _inCursor (peer_of (dataEvents chunks p)) <= blength B + 1)
  /\ (_inBuffer p = None -> chunks <> [] ->
      dataEvents chunks p = (p, [], Thrown TypeError)).
Proof.
  induction chunks as [|d ds IH]; intros p; split.
  - intros B HB Hn. cbn. split; [exact I|]. exists B. auto.
  - intros _ H. contradiction.
  - intros B HB Hn. cbn [dataEvents]. unfold bind.
    destruct (_socketEventData_stream d p B HB Hn)
      as (key & B' & n' & l & c & Hrun & HB' & Hn' & Hc).
    rewrite Hrun.
    destruct c as [[]|e].
    + destruct (IH (with_stream p key B' n')) as [IH1 _].
      specialize (IH1 B' eq_refl).
      cbn [_inCursor with_stream set_inCursor] in IH1. rewrite HB' in IH1.
      specialize (IH1 Hn').
      destruct (dataEvents ds (with_stream p key B' n')) as [[p2 l2] c2].
      unfold completion_of, peer_of in *. cbn [fst snd] in *.
      destruct IH1 as (H1 & B2 & H2 & H3 & H4).
      split; [exact H1|]. exists B2. rewrite H3. auto.
    + unfold completion_of, peer_of. cbn [fst snd].
      split; [|exists B'; auto].
      destruct Hc as [Hc|[Hc|(Hc & Hem & _)]]; auto.
  - intros HB _. cbn [dataEvents]. unfold bind, _socketEventData.
    rewrite bind_this, HB. reflexivity.
Qed.

(** ** Frames in a stream *)

Lemma readUInt32LE_low_byte (b : byte) (s : Buffer) (w : Z) :
  readUInt32LE (b :: s) 0 = Some w -> w mod 256 = u8 b.
Proof.
  unfold readUInt32LE. destruct (_ && _); [|discriminate].
  cbn [Z.to_nat skipn]. destruct s as [|b1 [|b2 [|b3 r]]]; try discriminate.
  intros E. injection E as <-.
  pose proof (u8_range b).
  change (Z.pow_pos 2 8) with 256. change (Z.pow_pos 2 16) with (256 * 256).
  change (Z.pow_pos 2 24) with (256 * 256 * 256).
  replace (u8 b + u8 b1 * 256 + u8 b2 * (256 * 256)
           + u8 b3 * (256 * 256 * 256))
    with (u8 b + (u8 b1 + u8 b2 * 256 + u8 b3 * (256 * 256)) * 256) by lia.
  rewrite Z.mod_add by lia. apply Z.mod_small. lia.
Qed.

(** Bytes that are not the low byte of the header constant start no
    frame. *)
Lemma find_frame_junk (header : Z) (junk s : Buffer) :
  Forall (fun b => u8 b <> header mod 256) junk ->
  find_frame header (junk ++ s) = find_frame header s.
Proof.
  induction 1 as [|b junk Hb _ IH]; [reflexivity|].
  cbn [app find_frame]. unfold decide.
  destruct (readUInt32LE (b :: junk ++ s) 0) as [w|] eqn:Ew.
  - apply readUInt32LE_low_byte in Ew.
    replace (w =? header) with false
      by (symmetry; apply Z.eqb_neq; intros ->; congruence).
    exact IH.
  - rewrite <- IH. symmetry. apply find_frame_short.
    unfold readUInt32LE in Ew. cbn [Z.leb andb Z.to_nat skipn] in Ew.
    change (0 <=? 0) with true in Ew. cbn [andb] in Ew.
    destruct (0 + 4 <=? blength (b :: junk ++ s)) eqn:El.
    + apply Z.leb_le in El.
      destruct (junk ++ s) as [|b1 [|b2 [|b3 r]]]; try discriminate;
        cbn in El; lia.
    + apply Z.leb_gt in El. rewrite blength_cons in El. lia.
Qed.

Lemma frames_junk (header : Z) (junk s : Buffer) :
  Forall (fun b => u8 b <> header mod 256) junk ->
  fst (frames header (junk ++ s)) = fst (frames header s).
Proof.
  intros H. rewrite (frames_eq header (junk ++ s)), (frames_eq header s).
  rewrite (find_frame_junk header junk s H).
  destruct (find_frame header s) as [[f s']|]; [|reflexivity].
  destruct (frames header s') as [fs r]. reflexivity.
Qed.

(** X11. Resynchronisation.  Bytes received ahead of the frames are skipped
    one by one as long as none of them is the low byte of the header
    constant: a Peer with an empty buffer that first receives such bytes
    raises, over the whole run, exactly the notifications it raises without
    them. *)
Theorem junk_before_frames (p : Peer) (B junk : Buffer)
    (chunks : list Buffer) :
  _inBuffer p = Some B -> _inCursor p = 0 ->
  Forall (fun b => u8 b <> _header p mod 256) junk ->
  blength junk + blength (concat chunks) <= blength B ->
  log_of (dataEvents (junk :: chunks) p) = log_of (dataEvents chunks p).
Proof.
  intros HB Hn Hjunk Hfit.
  pose proof (blength_nonneg junk) as Hj.
  rewrite (dataEvents_spec (junk :: chunks) p B []),
          (dataEvents_spec chunks p B []);
    try assumption; try reflexivity.
  - cbn [concat app]. rewrite frames_junk by exact Hjunk. reflexivity.
  - cbn [blength length Z.of_nat]. lia.
  - cbn [concat]. rewrite blength_app. cbn [blength length Z.of_nat]. lia.
Qed.

Lemma dataEvents_one (d : Buffer) (p : Peer) :
  log_of (dataEvents [d] p) = log_of (_socketEventData d p).
Proof.
  cbn [dataEvents]. unfold bind, ret, log_of.
  destruct (_socketEventData d p) as [[p1 l1] [[]|e]]; cbn [fst snd];
    [apply app_nil_r | reflexivity].
Qed.

(** A proper prefix of a complete frame holds no complete frame. *)
Lemma frames_prefix (header : Z) (message : Buffer) (k : nat) :
  complete_frame header message -> (k < length message)%nat ->
  frames header (firstn k message) = ([], firstn k message).
Proof.
  intros (H0 & len & H16 & Hlen) Hk.
  rewrite frames_eq.
  assert (Hl : blength (firstn k message) = Z.of_nat k)
    by (rewrite blength_firstn; unfold blength; lia).
  assert (D : decide header (firstn k message) = Stop).
  { unfold decide.
    destruct (Z_lt_le_dec (Z.of_nat k) 4) as [H4|H4].
    { rewrite readUInt32LE_None by lia. reflexivity. }
    rewrite readUInt32LE_firstn, H0, Z.eqb_refl by lia.
    destruct (Z_lt_le_dec (Z.of_nat k) 20) as [H20|H20].
    { rewrite readUInt32LE_None by lia. reflexivity. }
    rewrite readUInt32LE_firstn, H16 by lia.
    replace (len + 24 <=? blength (firstn k message)) with false
      by (symmetry; apply Z.leb_gt; unfold blength in *; lia).
    reflexivity. }
  destruct (firstn k message) as [|x m] eqn:E; cbn [find_frame];
    rewrite D; reflexivity.
Qed.

(** X12. No notification before the last byte.  When a complete frame
    reaches a Peer with an empty buffer in two data events, cut anywhere
    before its end, the first event raises nothing, and the two together
    raise what [_processMessage] raises on the frame. *)
Theorem frame_waits_for_last_byte (p : Peer) (B message : Buffer) (k : nat) :
  _inBuffer p = Some B -> _inCursor p = 0 ->
  complete_frame (_header p) message ->
  blength message <= blength B ->
  (k < length message)%nat ->
  log_of (_socketEventData (firstn k message) p) = []
  /\ log_of (dataEvents [firstn k message; skipn k message] p)
     = log_of (_processMessage message p).
Proof.
  intros HB Hn Hframe Hfit Hk. split.
  - rewrite <- dataEvents_one.
    rewrite (dataEvents_spec _ p B []);
      try assumption; try reflexivity.
    + cbn [concat app]. rewrite app_nil_r.
      rewrite frames_prefix by assumption. reflexivity.
    + cbn [concat]. rewrite app_nil_r, blength_firstn.
      cbn [blength length Z.of_nat]. unfold blength in *. lia.
  - rewrite (dataEvents_spec _ p B []);
      try assumption; try reflexivity.
    + cbn [concat app]. rewrite app_nil_r, firstn_skipn.
      rewrite complete_frame_frames by assumption.
      cbn [fst processKeys]. rewrite _processMessage_key.
      unfold log_of. cbn [fst snd].
      destruct (processKey message (_remotePublicKey p)) as [[k1 l1] [[]|e]];
        cbn [fst snd]; [apply app_nil_r | reflexivity].
    + cbn [concat]. rewrite app_nil_r, firstn_skipn.
      cbn [blength length Z.of_nat]. unfold blength in *. lia.
Qed.

(** ** Frames from [send] to [_processMessage] *)

(** What a receiver does with the frame [send] builds for any command: it
    reads the first twelve characters of the command, and verifies the tag,
    keyed by the whole command, against the one keyed by what it read. *)
Lemma _processMessage_sent (p : Peer) (header : Z) (command : jsstring)
    (d : Buffer) :
  is_uint32 (blength d) = true ->
  Forall (fun c => 0 < c <= 255) (firstn 12 command) ->
  exists t t',
    readUInt32BE (integrityTag command d) 0 = Some t
    /\ readUInt32BE (integrityTag (firstn 12 command) d) 0 = Some t'
    /\ _processMessage (frameBytes header command d) p
       = if (blength d =? 0) || (t =? t')
         then deliver (firstn 12 command) d p
         else (p, [], Returned tt).
Proof.
  intros Hd Hc.
  destruct (_processMessage_frame p (frameBytes header command d) (blength d))
    as (tag & Htag & v & Hv & Hrun).
  - apply frameBytes_length_field. exact Hd.
  - apply frameBytes_length.
  - rewrite frameBytes_tag_field in Htag.
    rewrite readCommand_sent, frameBytes_payload in Hv, Hrun by exact Hc.
    exists tag, v. auto.
Qed.

Lemma forallb_is_uint8 (chars : jsstring) :
  Forall (fun c => 0 < c <= 255) chars -> forallb is_uint8 chars = true.
Proof.
  intros H. apply forallb_forall. intros c Hin. apply is_uint8_spec.
  rewrite Forall_forall in H. specialize (H c Hin). lia.
Qed.

(** X13. A command longer than twelve characters.  [send] frames any
    command whose first twelve characters have codes in 1..255: the command
    field holds those twelve, while the tag is keyed by the whole command.
    The receiver reads the twelve characters and keys its verification with
    them; so the message is raised, under the truncated command, only when
    there is no payload or when the two tags happen to agree, and is dropped
    without a notification otherwise. *)
Theorem command_longer_than_12 (sender receiver : Peer) (command : jsstring)
    (payload : Buffer) (written : bool) :
  _keypair sender = None -> _socket sender <> None ->
  is_uint32 (_header sender) = true ->
  Forall (fun c => 0 < c <= 255) (firstn 12 command) ->
  blength payload <= 0xffffffff ->
  firstn 12 command <> str "SECURE" ->
  _remotePublicKey receiver = None ->
  let frame := frameBytes (_header sender) command payload in
  send command (Some (DataBuffer payload)) written sender
  = (sender, [SocketWrite frame], Returned written)
  /\ exists t t',
       readUInt32BE (integrityTag command payload) 0 = Some t
       /\ readUInt32BE (integrityTag (firstn 12 command) payload) 0 = Some t'
       /\ _processMessage frame receiver
          = if (blength payload =? 0) || (t =? t')
            then (receiver,
                  [Emit (EvMessage (firstn 12 command) payload)], Returned tt)
            else (receiver, [], Returned tt).
Proof.
  intros Hk Hs Hh Hc Hl Hsec Hkey frame.
  pose proof (blength_nonneg payload) as Hp0.
  assert (Hd32 : is_uint32 (blength payload) = true)
    by (apply is_uint32_spec; lia).
  split.
  - rewrite send_eq. unfold payloadToSend. rewrite Hk. cbn [Buffer_from].
    rewrite Hh, Hd32, (forallb_is_uint8 _ Hc). cbn [andb].
    destruct (_socket sender); [reflexivity | contradiction].
  - destruct (_processMessage_sent receiver (_header sender) command payload
                Hd32 Hc) as (t & t' & Ht & Ht' & Hrun).
    exists t, t'. split; [exact Ht | split; [exact Ht'|]].
    fold frame in Hrun. rewrite Hrun. unfold deliver.
    replace (jsstring_eqb (firstn 12 command) (str "SECURE")) with false
      by (symmetry; apply jsstring_eqb_neq; exact Hsec).
    rewrite Hkey. reflexivity.
Qed.

(** The frames of a list of messages, as [send] writes them one after the
    other. *)
Lemma sendAll_log (msgs : list (jsstring * Buffer)) :
  forall (sender : Peer) (written : bool),
  _keypair sender = None -> _socket sender <> None ->
  is_uint32 (_header sender) = true ->
  Forall sendable msgs ->
  written_bytes (log_of (sendAll msgs written sender))
  = concat (map (fun m => frameBytes (_header sender) (fst m) (snd m)) msgs)
  /\ peer_of (sendAll msgs written sender) = sender.
Proof.
  induction msgs as [|[command payload] msgs IH];
    intros sender written Hk Hs Hh Hall.
  - split; reflexivity.
  - inversion Hall as [|m ms (Hlen & Hc & _ & Hl) Hrest]; subst.
    cbn [fst snd] in *.
    pose proof (blength_nonneg payload) as Hp0.
    cbn [sendAll map concat fst snd]. unfold bind.
    rewrite send_eq. unfold payloadToSend. rewrite Hk. cbn [Buffer_from].
    rewrite Hh.
    replace (is_uint32 (blength payload)) with true
      by (symmetry; apply is_uint32_spec; lia).
    rewrite firstn_all2 by exact Hlen.
    rewrite (forallb_is_uint8 _ Hc). cbn [andb].
    destruct (_socket sender) as [s|] eqn:Es; [|contradiction].
    destruct (IH sender written Hk ltac:(rewrite Es; discriminate) Hh Hrest)
      as [IH1 IH2].
    destruct (sendAll msgs written sender) as [[p2 l2] c2].
    unfold log_of, peer_of in *. cbn [fst snd] in *.
    destruct written; cbn [fst snd].
    + split; [|exact IH2].
      unfold written_bytes in *. cbn [flat_map app]. rewrite IH1.
      reflexivity.
    + split; [|exact IH2].
      unfold written_bytes in *. cbn [flat_map app]. rewrite IH1.
      reflexivity.
Qed.

Lemma frames_concat (header : Z) (fs : list Buffer) :
  Forall (complete_frame header) fs ->
  frames header (concat fs) = (fs, []).
Proof.
  induction 1 as [|f fs Hf _ IH].
  - reflexivity.
  - cbn [concat]. rewrite frames_app.
    rewrite (complete_frame_frames header f Hf). cbn [fst snd app].
    rewrite IH. reflexivity.
Qed.

Lemma processKeys_sendable (header : Z) (msgs : list (jsstring * Buffer)) :
  Forall sendable msgs ->
  processKeys (map (fun m => frameBytes header (fst m) (snd m)) msgs) None
  = (None, map (fun m => Emit (EvMessage (fst m) (snd m))) msgs, Returned tt).
Proof.
  induction 1 as [|[command payload] msgs (Hlen & Hc & Hsec & Hl) _ IH].
  - reflexivity.
  - cbn [fst snd] in *. cbn [map processKeys fst snd].
    pose proof (blength_nonneg payload) as Hp0.
    unfold processKey.
    set (p0 := set_remotePublicKey None _).
    destruct (_processMessage_sent p0 header command payload)
      as (t & t' & Ht & Ht' & Hrun).
    + apply is_uint32_spec. lia.
    + rewrite firstn_all2 by exact Hlen. exact Hc.
    + rewrite Hrun. rewrite firstn_all2 in * by exact Hlen.
      rewrite Ht in Ht'. injection Ht' as <-.
      rewrite Z.eqb_refl, orb_true_r. unfold deliver.
      replace (jsstring_eqb command (str "SECURE")) with false
        by (symmetry; apply jsstring_eqb_neq; exact Hsec).
      cbn [_remotePublicKey p0 set_remotePublicKey]. rewrite IH.
      reflexivity.
Qed.

(** The notifications of a Peer that receives the frames of a list of
    messages. *)
Lemma dataEvents_sendable (receiver : Peer) (B : Buffer) (header : Z)
    (msgs : list (jsstring * Buffer)) (chunks : list Buffer) :
  is_uint32 header = true -> _header receiver = header ->
  _remotePublicKey receiver = None ->
  _inBuffer receiver = Some B -> _inCursor receiver = 0 ->
  Forall sendable msgs ->
  concat chunks
  = concat (map (fun m => frameBytes header (fst m) (snd m)) msgs) ->
  blength (concat chunks) <= blength B ->
  log_of (dataEvents chunks receiver)
  = map (fun m => Emit (EvMessage (fst m) (snd m))) msgs.
Proof.
  intros Hh Hhr Hkey HB Hn Hall Hwire Hfit.
  rewrite (dataEvents_spec chunks receiver B []);
    try assumption; try reflexivity.
  cbn [app]. rewrite Hwire, Hhr, frames_concat.
  - cbn [fst]. rewrite Hkey, processKeys_sendable by exact Hall.
    reflexivity.
  - apply Forall_map. revert Hall. apply Forall_impl.
    intros [command payload] (_ & _ & _ & Hl). cbn [fst snd] in *.
    apply frameBytes_complete; [exact Hh|].
    apply is_uint32_spec. pose proof (blength_nonneg payload). lia.
Qed.

(** X14. A conversation.  Whatever messages a Peer without a key pair sends
    one after the other (each a command of at most 12 characters with codes
    in 1..255, other than SECURE), and however the transport cuts the bytes
    written into data events, a receiving Peer with the same header
    constant, no remote key and an empty buffer that they fit raises exactly
    these messages, in the order sent, and no other notification. *)
Theorem conversation (sender receiver : Peer) (B : Buffer)
    (msgs : list (jsstring * Buffer)) (chunks : list Buffer) :
  _keypair sender = None -> _socket sender <> None ->
  is_uint32 (_header sender) = true ->
  _header receiver = _header sender ->
  _remotePublicKey receiver = None ->
  _inBuffer receiver = Some B -> _inCursor receiver = 0 ->
  Forall sendable msgs ->
  concat chunks = written_bytes (log_of (sendAll msgs true sender)) ->
  blength (concat chunks) <= blength B ->
  log_of (dataEvents chunks receiver)
  = map (fun m => Emit (EvMessage (fst m) (snd m))) msgs.
Proof.
  intros Hk Hs Hh Hhr Hkey HB Hn Hall Hwire Hfit.
  destruct (sendAll_log msgs sender true Hk Hs Hh Hall) as [Hlog _].
  rewrite Hlog in Hwire.
  exact (dataEvents_sendable receiver B (_header sender) msgs chunks
           Hh Hhr Hkey HB Hn Hall Hwire Hfit).
Qed.

(** X15. The encrypted path.  A Peer with a key pair that knows a remote
    key transforms the payload with its private key before framing it, and
    tags the transformed bytes; a receiver that knows a remote key verifies
    the tag on the bytes received and passes them to [publicDecrypt]: the
    message it raises carries what that returns, and when that raises, the
    exception escapes and nothing is notified. *)
Theorem encrypted_round_trip (sender receiver : Peer) (keys : Keypair)
    (remote : jsstring) (command : jsstring) (payload cipher : Buffer)
    (written : bool) :
  _keypair sender = Some keys -> _remotePublicKey sender <> None ->
  _socket sender <> None -> is_uint32 (_header sender) = true ->
  sendable (command, cipher) ->
  privateEncrypt (private keys) payload = Some cipher ->
  _remotePublicKey receiver = Some remote ->
  let frame := frameBytes (_header sender) command cipher in
  send command (Some (DataBuffer payload)) written sender
  = (sender, [SocketWrite frame], Returned written)
  /\ _processMessage frame receiver
     = match publicDecrypt remote cipher with
       | Some decrypted =>
           (receiver, [Emit (EvMessage command decrypted)], Returned tt)
       | None => (receiver, [], Thrown CryptoError)
       end.
Proof.
  intros Hk Hrk Hs Hh (Hlen & Hc & Hsec & Hl) Henc Hkey frame.
  cbn [fst snd] in *.
  pose proof (blength_nonneg cipher) as Hp0.
  assert (Hd32 : is_uint32 (blength cipher) = true)
    by (apply is_uint32_spec; lia).
  assert (Hne : jsstring_eqb command (str "SECURE") = false)
    by (apply jsstring_eqb_neq; exact Hsec).
  split.
  - rewrite send_eq. unfold payloadToSend. rewrite Hk. cbn [Buffer_from].
    destruct (_remotePublicKey sender) as [k|]; [|contradiction].
    rewrite Hne. cbn [negb]. rewrite Henc, Hh, Hd32.
    rewrite firstn_all2 by exact Hlen.
    rewrite (forallb_is_uint8 _ Hc). cbn [andb].
    destruct (_socket sender); [reflexivity | contradiction].
  - destruct (_processMessage_sent receiver (_header sender) command cipher)
      as (t & t' & Ht & Ht' & Hrun).
    + exact Hd32.
    + rewrite firstn_all2 by exact Hlen. exact Hc.
    + fold frame in Hrun. rewrite Hrun.
      rewrite firstn_all2 in * by exact Hlen.
      rewrite Ht in Ht'. injection Ht' as <-.
      rewrite Z.eqb_refl, orb_true_r. unfold deliver.
      rewrite Hne, Hkey. reflexivity.
Qed.

(** ** [Host] *)

(** X16. The address families of a Host.  For an address that does not
    contain the text localhost, construction follows [net.isIP] on the
    address as given: 0 raises 'Unknown address family', 4 and 6 give a Host
    of family IPv4 and IPv6 with that address; the port is stored as it is,
    whatever it is. *)
Theorem Host_constructor_families (address : jsstring) (port : Z) :
  includes address (str "localhost") = false ->
  (isIP address = 0 ->
   Host_constructor address port
   = Thrown (Error (str "Unknown address family")))
  /\ (isIP address = 4 ->
      Host_constructor address port
      = Returned {| _family := str "IPv4"; _address := address;
                    _port := port |})
  /\ (isIP address = 6 ->
      Host_constructor address port
      = Returned {| _family := str "IPv6"; _address := address;
                    _port := port |}).
Proof.
  intros Hinc. unfold Host_constructor. rewrite Hinc.
  repeat split; intros ->; reflexivity.
Qed.

(** ** A Peer through all its calls *)

(** The Peer [connect] leaves, in each of its three cases. *)
Lemma connect_peer (p : Peer) (socket : option Socket) (written : bool) :
  peer_of (connect socket written p)
  = if _bufferSize p <? 0 then p
    else
      let q := set_inCursor 0
                 (set_inBuffer (Some (repeat x00 (Z.to_nat (_bufferSize p))))
                    p) in
      match _socket p, socket with
      | Some _, _ => q
      | None, Some s => set_socket (Some s) (set_state (Some connected) q)
      | None, None =>
          set_socket (Some (Dialed (_port (_host p)) (_address (_host p))))
            (set_state (Some connecting) q)
      end.
Proof.
  destruct (_bufferSize p <? 0) eqn:E.
  - apply Z.ltb_lt in E. rewrite connect_alloc_fails by exact E. reflexivity.
  - apply Z.ltb_ge in E. cbv zeta.
    destruct (_socket p) as [held|] eqn:Hs.
    + rewrite (connect_held p held) by assumption. reflexivity.
    + destruct socket as [s|].
      * rewrite connect_socket by assumption. cbv zeta.
        destruct (_keypair p) as [kp|]; [|reflexivity].
        match goal with
        | |- context [send ?c ?d ?w ?q] =>
            pose proof (send_log q c d w) as (H1 & _ & _);
            destruct (send c d w q) as [[q' l'] c']
        end.
        unfold peer_of in *. cbn [fst] in *. subst q'.
        destruct c'; reflexivity.
      * rewrite connect_dial by assumption. cbv zeta.
        destruct (_keypair p) as [kp|]; [|reflexivity].
        match goal with
        | |- context [send ?c ?d ?w ?q] =>
            pose proof (send_log q c d w) as (H1 & _ & _);
            destruct (send c d w q) as [[q' l'] c']
        end.
        unfold peer_of in *. cbn [fst] in *. subst q'.
        destruct c'; reflexivity.
Qed.

(** C7. Poisoned buffer, on a Peer whose emitter has a listener of 'error'
    that returns: a data chunk that would take the cursor past the capacity
    of the accumulation buffer raises one error notification and pins the
    cursor at capacity + 1, appending nothing; after that, every data event
    leaves the buffer and the cursor as they are and surfaces no message
    (only the same error notification again).  The fault lasts until
    [connect] is called: with a buffer size it can allocate, [connect] puts
    the cursor back at 0. *)
Theorem poisoned_buffer (p : Peer) (B data : Buffer) (later : list Buffer) :
  _inBuffer p = Some B ->
  blength B < blength data + _inCursor p ->
  _eventEmitter p = ErrorListeners ->
  let first := _socketEventData data p in
  let rest := dataEvents later (peer_of first) in
  completion_of first = Returned tt
  /\ events (log_of first)
     = [EvError (str "Peer exceeded max receiving buffer")]
  /\ _inBuffer (peer_of first) = Some B
  /\ _inCursor (peer_of first) = blength B + 1
  /\ completion_of rest = Returned tt
  /\ _inBuffer (peer_of rest) = Some B
  /\ _inCursor (peer_of rest) = blength B + 1
  /\ messages (log_of rest) = []
  /\ forall (socket : option Socket) (written : bool),
       _inCursor (peer_of (connect socket written (peer_of rest)))
       = if _bufferSize p <? 0 then blength B + 1 else 0.
Proof.
  intros HB Hover Hem first rest. subst rest first.
  rewrite (_socketEventData_overflow p B data HB Hover Hem).
  destruct (dataEvents_poisoned later (set_inCursor (blength B + 1) p) B)
    as (H1 & H2 & H3); [exact HB | reflexivity | exact Hem |].
  unfold peer_of, completion_of, log_of in *. cbn [fst snd] in *.
  rewrite H1, H2, H3.
  repeat split; try reflexivity; try exact HB.
  - clear. unfold messages. induction later as [|d ds IH]; [reflexivity|].
    cbn. exact IH.
  - intros socket written.
    pose proof (connect_peer (set_inCursor (blength B + 1) p) socket written)
      as Hc.
    unfold peer_of in Hc. rewrite Hc.
    cbn [_bufferSize set_inCursor].
    destruct (_bufferSize p <? 0); [reflexivity|]. cbv zeta.
    cbn [_socket set_inCursor].
    destruct (_socket p); [reflexivity|].
    destruct socket; reflexivity.
Qed.

Lemma connect_wellformed (host : Host) (header bufferSize maxAttempts : Z)
    (p : Peer) (socket : option Socket) (written : bool) :
  wellformed host header bufferSize maxAttempts p ->
  wellformed host header bufferSize maxAttempts
    (peer_of (connect socket written p)).
Proof.
  intros (H1 & H2 & H3 & H4 & H5 & H6 & H7). rewrite connect_peer.
  destruct (_bufferSize p <? 0) eqn:E.
  { repeat split; try assumption; apply H6; assumption. }
  apply Z.ltb_ge in E. cbv zeta.
  assert (Hlen : blength (repeat x00 (Z.to_nat (_bufferSize p))) = bufferSize)
    by (rewrite blength_repeat; lia).
  destruct (_socket p) as [held|] eqn:Hs; [|destruct socket as [s|]];
    unfold wellformed;
    cbn [_host _header _bufferSize _maxConnectionAttempts _connectionAttempts
         _socket _state _inBuffer _inCursor set_socket set_state set_inCursor
         set_inBuffer];
    repeat split; try assumption; try discriminate; try lia.
  all: apply H6; discriminate.
Qed.

(** X17. The invariant of a Peer.  From its construction on, through any
    sequence of calls of its methods and of its socket listeners, in any
    order and whether they return or raise, a Peer keeps the host, header
    constant, buffer size and maximum it was constructed with; its attempt
    counter is never negative; whenever it holds a socket it has a state and
    a buffer; and its buffer, once allocated, always has the configured size,
    with the cursor between 0 and that size plus one. *)
Theorem peer_invariant (host : Host) (header bufferSize maxAttempts : Z)
    (calls : list Call) :
  wellformed host header bufferSize maxAttempts
    (after calls (Peer_constructor host header bufferSize maxAttempts)).
Proof.
  assert (Hstep : forall c p,
            wellformed host header bufferSize maxAttempts p ->
            wellformed host header bufferSize maxAttempts (call c p)).
  { intros c p Hp. destruct c; cbn [call].
    - apply connect_wellformed. exact Hp.
    - destruct (send_log p command data written) as (-> & _). exact Hp.
    - destruct Hp as (H1 & H2 & H3 & H4 & H5 & H6 & H7).
      assert (Hq : peer_of (disconnect p)
                   = set_state (Some disconnecting) p
                   \/ peer_of (disconnect p) = set_state (Some closed) p).
      { destruct (_socket p) as [s|] eqn:Hs.
        - right. destruct (disconnect_destroy_socket p s Hs) as [-> _].
          reflexivity.
        - left. unfold disconnect. munfold. cbn [_socket set_state].
          rewrite Hs. reflexivity. }
      destruct Hq as [-> | ->]; unfold wellformed;
        cbn [_host _header _bufferSize _maxConnectionAttempts
             _connectionAttempts _socket _state _inBuffer _inCursor set_state];
        repeat split; try assumption; try discriminate; apply H6; assumption.
    - destruct Hp as (H1 & H2 & H3 & H4 & H5 & H6 & H7).
      assert (Hq : peer_of (destroy p) = set_state (Some destroying) p
                   \/ peer_of (destroy p) = set_state (Some closed) p).
      { destruct (_socket p) as [s|] eqn:Hs.
        - right. destruct (disconnect_destroy_socket p s Hs) as [_ ->].
          reflexivity.
        - left. unfold destroy. munfold. cbn [_socket set_state].
          rewrite Hs. reflexivity. }
      destruct Hq as [-> | ->]; unfold wellformed;
        cbn [_host _header _bufferSize _maxConnectionAttempts
             _connectionAttempts _socket _state _inBuffer _inCursor set_state];
        repeat split; try assumption; try discriminate; apply H6; assumption.
    - unfold generateKeypair. rewrite bind_this.
      destruct (is_null (_state p)); [|exact Hp].
      destruct Hp as (H1 & H2 & H3 & H4 & H5 & H6 & H7).
      repeat split; try assumption; apply H6; assumption.
    - destruct Hp as (H1 & H2 & H3 & H4 & H5 & H6 & H7).
      repeat split; try assumption; apply H6; assumption.
    - destruct Hp as (H1 & H2 & H3 & H4 & H5 & H6 & H7).
      unfold _socketEventConnect. munfold. unfold peer_of. cbn [fst].
      unfold wellformed;
        cbn [_host _header _bufferSize _maxConnectionAttempts
             _connectionAttempts _socket _state _inBuffer _inCursor set_state
             set_connectionAttempts];
        repeat split; try assumption; try discriminate; try lia.
      apply H6; assumption.
    - destruct (_inBuffer p) as [B|] eqn:HB.
      + destruct Hp as (H1 & H2 & H3 & H4 & H5 & H6 & H7).
        rewrite HB in H7. destruct H7 as [H7 H8].
        destruct (_socketEventData_stream data p B HB ltac:(lia))
          as (key & B' & n' & l & c & -> & HB' & Hn' & _).
        unfold peer_of, with_stream, wellformed.
        cbn [fst _host _header _bufferSize _maxConnectionAttempts
             _connectionAttempts _socket _state _inBuffer _inCursor
             set_inCursor set_inBuffer set_remotePublicKey].
        repeat split; try assumption; try discriminate; try lia.
        apply H6; assumption.
      + unfold _socketEventData. rewrite bind_this, HB. exact Hp.
    - exact Hp.
    - destruct Hp as (H1 & H2 & H3 & H4 & H5 & H6 & H7).
      unfold _socketEventError. rewrite bind_this.
      destruct (state_is p connecting) eqn:Ec.
      + set (p1 := set_socket None
                     (set_connectionAttempts (_connectionAttempts p + 1) p)).
        assert (Hp1 : wellformed host header bufferSize maxAttempts p1).
        { unfold wellformed, p1.
          cbn [_host _header _bufferSize _maxConnectionAttempts
               _connectionAttempts _socket _state _inBuffer _inCursor
               set_socket set_connectionAttempts].
          repeat split; try assumption; try contradiction; lia. }
        pose proof (connect_wellformed _ _ _ _ p1 None written Hp1) as Hq.
        munfold. fold p1.
        destruct (connect None written p1) as [[q l] c].
        unfold peer_of in *. cbn [fst] in *.
        destruct (_ || _); [destruct (_eventEmitter q)|]; cbn [fst]; exact Hq.
      + rewrite bind_ret, bind_this, Ec. cbn [negb orb].
        rewrite emit_error. unfold peer_of.
        destruct (_eventEmitter p); cbn [fst];
          repeat split; try assumption; apply H6; assumption.
    - destruct Hp as (H1 & H2 & H3 & H4 & H5 & H6 & H7).
      unfold _socketEventClose. munfold. unfold peer_of. cbn [fst].
      unfold wellformed;
        cbn [_host _header _bufferSize _maxConnectionAttempts
             _connectionAttempts _socket _state _inBuffer _inCursor set_state];
        repeat split; try assumption; try discriminate.
      apply H6; assumption.
    - destruct Hp as (H1 & H2 & H3 & H4 & H5 & H6 & H7).
      unfold on, peer_of. munfold.
      destruct (jsstring_eqb event (str "error"));
        [destruct (_eventEmitter p)|]; cbn [fst];
        repeat split; try assumption; apply H6; assumption. }
  assert (Hall : forall cs p,
            wellformed host header bufferSize maxAttempts p ->
            wellformed host header bufferSize maxAttempts (after cs p)).
  { induction cs as [|c cs IH]; intros p Hp; [exact Hp|].
    cbn [after]. apply IH, Hstep, Hp. }
  apply Hall. unfold wellformed, Peer_constructor. cbn.
  repeat split; try reflexivity; try lia; contradiction.
Qed.

(** ** A key exchange on one side only *)

Lemma processKey_sent (header : Z) (command : jsstring) (d : Buffer)
    (key : option jsstring) :
  (length command <= 12)%nat ->
  Forall (fun c => 0 < c <= 255) command ->
  blength d <= 0xffffffff ->
  processKey (frameBytes header command d) key
  = match deliver command d
            (set_remotePublicKey key
               (Peer_constructor (mkHost [] [] 0) 0 0 0)) with
    | (p, l, c) => (_remotePublicKey p, l, c)
    end.
Proof.
  intros Hlen Hc Hl. unfold processKey.
  pose proof (blength_nonneg d) as Hd0.
  set (p0 := set_remotePublicKey key _).
  destruct (_processMessage_sent p0 header command d)
    as (t & t' & Ht & Ht' & Hrun).
  - apply is_uint32_spec. lia.
  - rewrite firstn_all2 by exact Hlen. exact Hc.
  - rewrite Hrun. rewrite firstn_all2 in * by exact Hlen.
    rewrite Ht in Ht'. injection Ht' as <-.
    rewrite Z.eqb_refl, orb_true_r. reflexivity.
Qed.

(** X18. A key exchange on one side only.  Each side decides alone: [send]
    transforms the payload only on a Peer that has a key pair and a remote
    key, and [_processMessage] decrypts on any Peer that has a remote key.
    So when a Peer with a key pair connects and then sends a message to a
    Peer without one, the bytes on the wire are the frame of its public key
    followed by the frame of the untransformed payload; the receiver,
    however the bytes are cut, stores the key and then passes the
    untransformed payload to [publicDecrypt]: the one message it raises
    carries what that returns, and it raises none when that fails. *)
Theorem one_sided_key_exchange (sender receiver : Peer) (keys : Keypair)
    (socket : option Socket) (written : bool) (B : Buffer)
    (command : jsstring) (payload : Buffer) (chunks : list Buffer) :
  _socket sender = None -> 0 <= _bufferSize sender ->
  _keypair sender = Some keys -> _remotePublicKey sender = None ->
  is_uint32 (_header sender) = true ->
  blength (utf8_encode (public keys)) <= 0xffffffff ->
  sendable (command, payload) ->
  _header receiver = _header sender ->
  _remotePublicKey receiver = None ->
  _inBuffer receiver = Some B -> _inCursor receiver = 0 ->
  let wire :=
    frameBytes (_header sender) (str "SECURE") (utf8_encode (public keys))
      ++ frameBytes (_header sender) command payload in
  concat chunks = wire -> blength wire <= blength B ->
  written_bytes
    (log_of ((connect socket true ;;;
              send command (Some (DataBuffer payload)) written) sender))
  = wire
  /\ log_of (dataEvents chunks receiver)
     = match publicDecrypt (Buffer_toString (utf8_encode (public keys)))
               payload with
       | Some decrypted => [Emit (EvMessage command decrypted)]
       | None => []
       end.
Proof.
  intros Hs Hb Hk Hrk Hh Hpl (Hlen & Hc & Hsec & Hl) Hhr Hkey HB Hn
         wire Hwire Hfit.
  cbn [fst snd] in *.
  pose proof (blength_nonneg (utf8_encode (public keys))) as Hl0.
  pose proof (blength_nonneg payload) as Hp0.
  assert (Hd32 : is_uint32 (blength (utf8_encode (public keys))) = true)
    by (apply is_uint32_spec; lia).
  assert (Hp32 : is_uint32 (blength payload) = true)
    by (apply is_uint32_spec; lia).
  assert (Hsend : forall q0 c d, _socket q0 <> None ->
            _keypair q0 = Some keys -> _remotePublicKey q0 = None ->
            _header q0 = _header sender ->
            forallb is_uint8 (firstn 12 c) = true ->
            is_uint32 (blength (Buffer_from d)) = true ->
            forall w,
            send c (Some d) w q0
            = (q0, [SocketWrite (frameBytes (_header sender) c
                                   (Buffer_from d))],
               Returned w)).
  { intros q0 c d Hq0 Hk0 Hr0 Hh0 Hfa Hd w. rewrite send_eq.
    unfold payloadToSend. rewrite Hk0, Hr0, Hh0, Hh, Hfa, Hd. cbn [andb].
    destruct (_socket q0); [reflexivity | contradiction]. }
  split.
  - unfold bind.
    assert (Hconn : exists q,
              connect socket true sender
              = (q, filter is_dial (log_of (connect socket true sender))
                    ++ [SocketWrite
                          (frameBytes (_header sender) (str "SECURE")
                             (utf8_encode (public keys)))],
                 Returned (_socket q))
              /\ _socket q <> None /\ _keypair q = Some keys
              /\ _remotePublicKey q = None /\ _header q = _header sender).
    { destruct socket as [s|].
      - rewrite connect_socket by assumption. cbv zeta. rewrite Hk.
        rewrite (Hsend _ (str "SECURE") (DataString (public keys)));
          try assumption; try reflexivity; try discriminate.
        eexists. split; [reflexivity|].
        cbn. repeat split; try assumption. discriminate.
      - rewrite connect_dial by assumption. cbv zeta. rewrite Hk.
        rewrite (Hsend _ (str "SECURE") (DataString (public keys)));
          try assumption; try reflexivity; try discriminate.
        eexists. split; [reflexivity|].
        cbn. repeat split; try assumption. discriminate. }
    destruct Hconn as (q & -> & Hq1 & Hq2 & Hq3 & Hq4).
    rewrite (Hsend q command (DataBuffer payload)); try assumption.
    + unfold log_of, written_bytes. cbn [fst snd Buffer_from].
      rewrite !flat_map_app. cbn [flat_map]. rewrite !app_nil_r.
      assert (Hnone : forall l, flat_map
                (fun e => match e with SocketWrite b => b | _ => [] end)
                (filter is_dial l) = []).
      { induction l as [|e l IH]; [reflexivity|].
        cbn [filter]. destruct e; cbn [is_dial]; exact IH. }
      rewrite Hnone. reflexivity.
    + rewrite firstn_all2 by exact Hlen. apply forallb_is_uint8. exact Hc.
  - rewrite (dataEvents_spec chunks receiver B []);
      try assumption; try reflexivity.
    2:{ cbn [blength length Z.of_nat]. rewrite Hwire. lia. }
    cbn [app]. rewrite Hwire, Hhr, Hkey. unfold wire.
    replace (frameBytes (_header sender) (str "SECURE")
               (utf8_encode (public keys))
             ++ frameBytes (_header sender) command payload)
      with (concat [frameBytes (_header sender) (str "SECURE")
                      (utf8_encode (public keys));
                    frameBytes (_header sender) command payload])
      by (cbn [concat]; rewrite app_nil_r; reflexivity).
    rewrite frames_concat
      by (repeat constructor; apply frameBytes_complete; assumption).
    cbn [fst processKeys].
    rewrite (processKey_sent _ (str "SECURE")); try assumption.
    2:{ cbn. lia. }
    2:{ let l := eval vm_compute in (str "SECURE") in
        change (str "SECURE") with l.
        repeat (apply Forall_cons; [lia|]). apply Forall_nil. }
    unfold deliver at 1.
    replace (jsstring_eqb (str "SECURE") (str "SECURE")) with true
      by reflexivity.
    cbn [_remotePublicKey set_remotePublicKey].
    rewrite processKey_sent by assumption.
    unfold deliver.
    replace (jsstring_eqb command (str "SECURE")) with false
      by (symmetry; apply jsstring_eqb_neq; exact Hsec).
    cbn [_remotePublicKey set_remotePublicKey Peer_constructor].
    destruct (publicDecrypt _ payload); reflexivity.
Qed.

(** ** [Node] *)

Lemma nth_error_app_last {A} (l : list A) (a : A) :
  nth_error (l ++ [a]) (length l) = Some a.
Proof. induction l as [|x l IH]; [reflexivity | exact IH]. Qed.

Lemma store_app_last {A} (l : list A) (a b : A) :
  store (length l) b (l ++ [a]) = l ++ [b].
Proof.
  induction l as [|x l IH]; [reflexivity|].
  cbn [length app store]. rewrite IH. reflexivity.
Qed.

Lemma store_same {A} (l : list A) (id : nat) (a : A) :
  nth_error l id = Some a -> store id a l = l.
Proof.
  revert id. induction l as [|x l IH]; intros [|id] H; try discriminate.
  - cbn in H. injection H as ->. reflexivity.
  - cbn [store]. rewrite (IH id H). reflexivity.
Qed.

Lemma nth_error_store {A} (l : list A) (id : nat) (a b : A) :
  nth_error l id = Some a -> nth_error (store id b l) id = Some b.
Proof.
  revert id. induction l as [|x l IH]; intros [|id] H; try discriminate.
  - reflexivity.
  - cbn [store nth_error]. exact (IH id H).
Qed.

Lemma nth_error_store_other {A} (l : list A) (id id' : nat) (b : A) :
  id <> id' -> nth_error (store id b l) id' = nth_error l id'.
Proof.
  revert id id'. induction l as [|x l IH]; intros [|id] [|id'] H;
    try reflexivity; try contradiction.
  cbn [store nth_error]. apply IH. congruence.
Qed.

Lemma store_store {A} (l : list A) (id : nat) (a b : A) :
  store id b (store id a l) = store id b l.
Proof.
  revert id. induction l as [|x l IH]; intros [|id]; try reflexivity.
  cbn [store]. rewrite IH. reflexivity.
Qed.

Lemma length_store {A} (l : list A) (id : nat) (a : A) :
  length (store id a l) = length l.
Proof.
  revert id. induction l as [|x l IH]; intros [|id]; try reflexivity.
  cbn [store length]. rewrite IH. reflexivity.
Qed.

Lemma set_eventEmitter_same (p : Peer) :
  set_eventEmitter (_eventEmitter p) p = p.
Proof. destruct p; reflexivity. Qed.

Lemma set_eventEmitter_twice (e1 e2 : Listeners) (p : Peer) :
  set_eventEmitter e2 (set_eventEmitter e1 p) = set_eventEmitter e2 p.
Proof. reflexivity. Qed.

(** The Peer the store keeps after a call that left the Peer as it was. *)
Lemma onPeer_restores (n : Node) (listeners : nat) (peer : Peer) :
  match listeners with
  | O => set_eventEmitter (attached n listeners (_eventEmitter peer)) peer
  | S _ =>
      set_eventEmitter (_eventEmitter peer)
        (set_eventEmitter (attached n listeners (_eventEmitter peer)) peer)
  end = peer.
Proof.
  destruct listeners; [cbn [attached]|rewrite set_eventEmitter_twice];
    apply set_eventEmitter_same.
Qed.

(** [send] does not look at the emitter. *)
Lemma send_eventEmitter (e : Listeners) (p : Peer) (command : jsstring)
    (data : option SendData) (written : bool) :
  send command data written (set_eventEmitter e p)
  = (set_eventEmitter e p, log_of (send command data written p),
     completion_of (send command data written p)).
Proof.
  rewrite !send_eq.
  change (payloadToSend (set_eventEmitter e p) command data)
    with (payloadToSend p command data).
  change (_header (set_eventEmitter e p)) with (_header p).
  change (_socket (set_eventEmitter e p)) with (_socket p).
  destruct (payloadToSend p command data) as [d|]; [|reflexivity].
  destruct (_ && _ && _); [|reflexivity].
  destruct (_socket p); reflexivity.
Qed.

(** The frame that carries a public key. *)
Lemma send_SECURE (q : Peer) (keys : Keypair) (socket : Socket)
    (written : bool) :
  _socket q = Some socket -> _keypair q = Some keys ->
  is_uint32 (_header q) = true ->
  blength (utf8_encode (public keys)) <= 0xffffffff ->
  send (str "SECURE") (Some (DataString (public keys))) written q
  = (q, [SocketWrite (frameBytes (_header q) (str "SECURE")
                        (utf8_encode (public keys)))],
     Returned written).
Proof.
  intros Hs Hk Hh Hl. rewrite send_eq. unfold payloadToSend.
  rewrite Hk. cbn [Buffer_from].
  replace (match _remotePublicKey q with
           | Some _ =>
               if negb (jsstring_eqb (str "SECURE") (str "SECURE"))
               then privateEncrypt (private keys) (utf8_encode (public keys))
               else Some (utf8_encode (public keys))
           | None => Some (utf8_encode (public keys))
           end) with (Some (utf8_encode (public keys)))
    by (destruct (_remotePublicKey q); reflexivity).
  rewrite Hh, Hs.
  replace (is_uint32 (blength (utf8_encode (public keys)))) with true
    by (symmetry; apply is_uint32_spec;
        pose proof (blength_nonneg (utf8_encode (public keys))); lia).
  reflexivity.
Qed.

Lemma accepted_peer_configuration_eq (n : Node) (socket : Socket)
    (remoteHost : Host) (hash : jsstring) (written : bool) :
  blength (utf8_encode (public (node_keypair n))) <= 0xffffffff ->
  match Host_constructor (_address remoteHost) (_port remoteHost) with
  | Thrown e =>
      connectPeer (ASocket socket remoteHost) hash written n
      = (n, [], Thrown e)
  | Returned host =>
      let id := length (peers n) in
      let peer :=
        set_hash (Some hash)
          (set_socket (Some socket)
             (set_state (Some connected)
                (set_inCursor 0
                   (set_inBuffer
                      (Some (repeat x00 (Z.to_nat default_bufferSize)))
                      (set_keypair (Some (node_keypair n))
                         (Peer_constructor host default_header
                            default_bufferSize
                            default_maxConnectionAttempts)))))) in
      connectPeer (ASocket socket remoteHost) hash written n
      = (set_peerList (assign hash id (node_peerList n))
           (set_peers (peers n ++ [(peer, 1%nat)]) n),
         [PeerDid id
            (SocketWrite
               (frameBytes default_header (str "SECURE")
                  (utf8_encode (public (node_keypair n)))));
          NodeEmit (NodePeerConnected id hash remoteHost)],
         Returned tt)
  end.
Proof.
  intros Hl. unfold connectPeer.
  destruct (Host_constructor _ _) as [host|e]; [|reflexivity].
  cbv zeta. unfold onPeer.
  cbn [peers set_peers]. rewrite nth_error_app_last.
  cbv zeta. cbn [attached]. rewrite set_eventEmitter_same.
  unfold detached.
  rewrite connect_socket by (cbn; unfold default_bufferSize; lia || reflexivity).
  cbv zeta. cbn [_keypair set_keypair Peer_constructor].
  rewrite (send_SECURE _ (node_keypair n) socket written);
    try reflexivity; try exact Hl.
  cbn [relay _hash set_socket set_state set_inCursor set_inBuffer set_keypair
       Peer_constructor app].
  unfold register. cbn [peers set_peers]. rewrite store_app_last.
  rewrite nth_error_app_last, store_app_last.
  reflexivity.
Qed.

(** X19. The Peer a Node makes for an accepted socket.  Whatever header
    constant and buffer size the Node was constructed with, the Peer that
    [connectPeer] makes for a socket has the default header constant
    0xA27CC1A2 and the default buffer size: the Node's own are not passed
    on.  The Peer gets the Node's key pair, is connected at once, and writes
    the Node's public key in a SECURE frame; it is stored under the hash,
    with the Node's listeners attached once, and the Node raises
    'peerConnected'.  When the address of the socket makes no Host,
    [connectPeer] raises and changes nothing. *)
Theorem accepted_peer_configuration (n : Node) (socket : Socket)
    (remoteHost : Host) (hash : jsstring) (written : bool) :
  blength (utf8_encode (public (node_keypair n))) <= 0xffffffff ->
  match Host_constructor (_address remoteHost) (_port remoteHost) with
  | Thrown e =>
      connectPeer (ASocket socket remoteHost) hash written n
      = (n, [], Thrown e)
  | Returned host =>
      let id := length (peers n) in
      let peer :=
        set_hash (Some hash)
          (set_socket (Some socket)
             (set_state (Some connected)
                (set_inCursor 0
                   (set_inBuffer
                      (Some (repeat x00 (Z.to_nat default_bufferSize)))
                      (set_keypair (Some (node_keypair n))
                         (Peer_constructor host default_header
                            default_bufferSize
                            default_maxConnectionAttempts)))))) in
      connectPeer (ASocket socket remoteHost) hash written n
      = (set_peerList (assign hash id (node_peerList n))
           (set_peers (peers n ++ [(peer, 1%nat)]) n),
         [PeerDid id
            (SocketWrite
               (frameBytes default_header (str "SECURE")
                  (utf8_encode (public (node_keypair n)))));
          NodeEmit (NodePeerConnected id hash remoteHost)],
         Returned tt)
  end.
Proof.
  intros Hl. unfold connectPeer.
  destruct (Host_constructor _ _) as [host|e]; [|reflexivity].
  cbv zeta. unfold onPeer.
  cbn [peers set_peers]. rewrite nth_error_app_last.
  cbv zeta. cbn [attached]. rewrite set_eventEmitter_same.
  unfold detached.
  rewrite connect_socket by (cbn; unfold default_bufferSize; lia || reflexivity).
  cbv zeta. cbn [_keypair set_keypair Peer_constructor].
  rewrite (send_SECURE _ (node_keypair n) socket written);
    try reflexivity; try exact Hl.
  cbn [relay _hash set_socket set_state set_inCursor set_inBuffer set_keypair
       Peer_constructor app].
  unfold register. cbn [peers set_peers]. rewrite store_app_last.
  rewrite nth_error_app_last, store_app_last.
  reflexivity.
Qed.

Lemma relay_no_events (id : nat) (hash : option jsstring) (listeners : nat)
    (l : list Effect) (n : Node) :
  events l = [] -> relay id hash listeners l n = (n, map (PeerDid id) l).
Proof.
  induction l as [|e l IH]; intros H; [reflexivity|].
  cbn [relay map]. destruct e as [ev| | | |]; try discriminate;
    cbn [events flat_map app] in H; rewrite (IH H); reflexivity.
Qed.

Lemma onPeer_send (n : Node) (id : nat) (peer : Peer) (listeners : nat)
    (command : jsstring) (data : option SendData) (written : bool) :
  nth_error (peers n) id = Some (peer, listeners) ->
  onPeer id (detached (send command data written)) n
  = (n, map (PeerDid id) (log_of (send command data written peer)),
     Returned tt).
Proof.
  intros H. unfold onPeer, detached. rewrite H. cbv zeta.
  rewrite send_eventEmitter.
  destruct (send_log peer command data written) as (_ & H2 & _).
  rewrite (onPeer_restores n listeners peer).
  rewrite relay_no_events by exact H2.
  rewrite (store_same _ _ _ H). destruct n; reflexivity.
Qed.

Lemma notified_PeerDid (id : nat) (l : list Effect) :
  notified (map (PeerDid id) l) = [].
Proof. induction l as [|e l IH]; [reflexivity | exact IH]. Qed.

Lemma broadcastTo_spec (keys : list (jsstring * nat)) (command : jsstring)
    (data : option SendData) (written : bool) (n : Node) :
  Forall (fun id => (id < length (peers n))%nat) (map snd keys) ->
  broadcastTo keys command data written n
  = (n, flat_map
          (fun id =>
             match nth_error (peers n) id with
             | Some (peer, _) =>
                 map (PeerDid id) (log_of (send command data written peer))
             | None => []
             end) (map snd keys)).
Proof.
  induction keys as [|[key id] keys IH]; intros H; [reflexivity|].
  cbn [map snd] in H. inversion H as [|x xs Hid Hrest]; subst.
  cbn [broadcastTo map snd flat_map].
  destruct (nth_error (peers n) id) as [[peer listeners]|] eqn:E.
  - rewrite (onPeer_send n id peer listeners) by exact E.
    rewrite (IH Hrest). reflexivity.
  - apply nth_error_None in E. lia.
Qed.

(** X20. [broadcast] calls [send] once on the Peer of each key of the list,
    in the order the keys were inserted, and awaits none of them: it never
    raises, whatever the Peers do, and raises no notification; the Node and
    its Peers are the same afterwards, and what is written to the
    transports is what each [send] writes.  On an empty list it does
    nothing. *)
Theorem broadcast_effect (n : Node) (command : jsstring)
    (data : option SendData) (written : bool) :
  references_ok n ->
  broadcast command data written n
  = (n,
     flat_map
       (fun id =>
          match nth_error (peers n) id with
          | Some (peer, _) =>
              map (PeerDid id) (log_of (send command data written peer))
          | None => []
          end) (listed n),
     Returned tt)
  /\ notified (effects_of (broadcast command data written n)) = [].
Proof.
  intros H. unfold broadcast.
  rewrite (broadcastTo_spec _ _ _ _ n H). split; [reflexivity|].
  unfold effects_of. cbn [fst snd]. fold (listed n).
  induction (listed n) as [|id ids IH]; [reflexivity|].
  cbn [flat_map]. unfold notified in *. rewrite flat_map_app, IH, app_nil_r.
  destruct (nth_error (peers n) id) as [[peer k]|]; [|reflexivity].
  apply notified_PeerDid.
Qed.

Lemma assign_assign (key : jsstring) (a b : nat) (o : list (jsstring * nat)) :
  assign key b (assign key a o) = assign key b o.
Proof.
  induction o as [|[k v] o IH]; cbn [assign].
  - replace (jsstring_eqb key key) with true
      by (symmetry; apply jsstring_eqb_eq; reflexivity).
    reflexivity.
  - destruct (jsstring_eqb k key) eqn:E; cbn [assign]; rewrite E;
      [reflexivity | rewrite IH; reflexivity].
Qed.

Lemma delete_assign (key : jsstring) (a : nat) (o : list (jsstring * nat)) :
  delete key (assign key a o) = delete key o.
Proof.
  unfold delete. induction o as [|[k v] o IH]; cbn [assign filter fst].
  - replace (jsstring_eqb key key) with true
      by (symmetry; apply jsstring_eqb_eq; reflexivity).
    reflexivity.
  - destruct (jsstring_eqb k key) eqn:E; cbn [filter fst]; rewrite E;
      cbn [negb]; [reflexivity | rewrite IH; reflexivity].
Qed.

Lemma listed_assign (key : jsstring) (a id : nat) (o : list (jsstring * nat)) :
  In id (map snd (assign key a o)) -> id = a \/ In id (map snd o).
Proof.
  induction o as [|[k v] o IH]; cbn [assign map snd In].
  - intros [<-|[]]. auto.
  - destruct (jsstring_eqb k key); cbn [map snd In].
    + intros [<-|H]; auto.
    + intros [<-|H]; auto. destruct (IH H); auto.
Qed.

Lemma listed_delete (key : jsstring) (id : nat) (o : list (jsstring * nat)) :
  In id (map snd (delete key o)) -> In id (map snd o).
Proof.
  unfold delete. induction o as [|[k v] o IH]; cbn [filter map snd In fst];
    [auto|].
  destruct (negb (jsstring_eqb k key)); cbn [map snd In]; intuition.
Qed.

Lemma peer_error_unlists_eq (n : Node) (id : nat) (peer : Peer) (k : nat)
    (hash err : jsstring) (written : bool) :
  nth_error (peers n) id = Some (peer, S k) ->
  _hash peer = Some hash ->
  _state peer <> Some connecting ->
  onPeer id (_socketEventError err written) n
  = (set_peerList (delete hash (node_peerList n)) n,
     PeerDid id (Emit (EvError err))
       :: match node_eventEmitter n with
          | NoErrorListener => []
          | ErrorListeners => repeat (NodeEmit (NodeError id)) (S k)
          | ErrorListenerRaises => [NodeEmit (NodeError id)]
          end,
     match attached n (S k) (_eventEmitter peer) with
     | ErrorListeners => Returned tt
     | _ => Thrown UnhandledError
     end).
Proof.
  intros Hid Hh Hst. unfold onPeer. rewrite Hid. cbv zeta.
  rewrite error_outside_connecting_eq by exact Hst.
  rewrite emit_error. cbn [_eventEmitter set_eventEmitter].
  pose proof (onPeer_restores n (S k) peer) as Hsame.
  assert (Hrelay :
            relay id (Some hash) (S k) [Emit (EvError err)]
              (set_peers (store id (peer, S k) (peers n)) n)
            = (set_peerList (delete hash (node_peerList n)) n,
               PeerDid id (Emit (EvError err))
                 :: match node_eventEmitter n with
                    | NoErrorListener => []
                    | ErrorListeners => repeat (NodeEmit (NodeError id)) (S k)
                    | ErrorListenerRaises => [NodeEmit (NodeError id)]
                    end)).
  { rewrite (store_same _ _ _ Hid). cbn [relay notify].
    rewrite app_nil_r. destruct n as [ho he bs se kp pl st ib ic em ps].
    destruct em; reflexivity. }
  assert (Hatt : attached n (S k) (_eventEmitter peer) <> NoErrorListener).
  { cbn [attached].
    destruct (node_eventEmitter n), (_eventEmitter peer); discriminate. }
  destruct (attached n (S k) (_eventEmitter peer)); [contradiction| |];
    rewrite Hsame, Hh, Hrelay; reflexivity.
Qed.

(** X21. A transport error on a listed Peer.  When a Peer that the Node has
    attached its listeners to emits 'error' (its socket fails while it is
    not connecting), the Node deletes the key that is the Peer's hash from
    its list and emits its own 'error', without passing the error on.  When
    a listener of 'error' is attached to the Node, the Node raises its
    'error' once for each time [connectPeer] was called on that Peer, and
    the Peer's handler returns (unless another listener of the Peer
    raises).  When none is attached, the Node's emitter raises out of the
    first of the Node's listeners, after the deletion: nothing is notified,
    and the Peer's handler raises.  A Peer that is connecting emits nothing,
    so the Node keeps it listed. *)
Theorem peer_error_unlists (n : Node) (id : nat) (peer : Peer) (k : nat)
    (hash err : jsstring) (written : bool) :
  nth_error (peers n) id = Some (peer, S k) ->
  _hash peer = Some hash ->
  (_state peer <> Some connecting ->
   onPeer id (_socketEventError err written) n
   = (set_peerList (delete hash (node_peerList n)) n,
      PeerDid id (Emit (EvError err))
        :: match node_eventEmitter n with
           | NoErrorListener => []
           | ErrorListeners => repeat (NodeEmit (NodeError id)) (S k)
           | ErrorListenerRaises => [NodeEmit (NodeError id)]
           end,
      match node_eventEmitter n, _eventEmitter peer with
      | ErrorListeners, NoErrorListener
      | ErrorListeners, ErrorListeners => Returned tt
      | _, _ => Thrown UnhandledError
      end))
  /\ (_state peer = Some connecting ->
      notified (effects_of (onPeer id (_socketEventError err written) n)) = []
      /\ node_peerList (node_of (onPeer id (_socketEventError err written) n))
         = node_peerList n).
Proof.
  intros Hid Hh. split.
  - intros Hst.
    rewrite (peer_error_unlists_eq n id peer k hash err written Hid Hh Hst).
    cbn [attached].
    destruct (node_eventEmitter n), (_eventEmitter peer); reflexivity.
  - intros Hst. unfold onPeer. rewrite Hid. cbv zeta.
    set (q0 := set_eventEmitter _ peer).
    pose proof (_socketEventError_connecting q0 err written Hst) as H.
    cbv zeta in H.
    destruct (_socketEventError err written q0) as [[q l] c].
    unfold peer_of, log_of, completion_of in H. cbn [fst snd] in H.
    destruct H as (_ & _ & _ & _ & _ & _ & He & _).
    rewrite relay_no_events by exact He.
    unfold effects_of, node_of. cbn [fst snd].
    split; [apply notified_PeerDid | reflexivity].
Qed.

Lemma connectPeer_socket (n : Node) (socket : Socket) (remoteHost host : Host)
    (hash : jsstring) (written : bool) :
  blength (utf8_encode (public (node_keypair n))) <= 0xffffffff ->
  Host_constructor (_address remoteHost) (_port remoteHost) = Returned host ->
  exists peer,
    node_of (connectPeer (ASocket socket remoteHost) hash written n)
    = set_peerList (assign hash (length (peers n)) (node_peerList n))
        (set_peers (peers n ++ [(peer, 1%nat)]) n)
    /\ _hash peer = Some hash /\ _state peer = Some connected.
Proof.
  intros Hl Hhost.
  pose proof (accepted_peer_configuration_eq n socket remoteHost hash written
                Hl) as H.
  rewrite Hhost in H. cbv zeta in H. rewrite H.
  eexists. split; [reflexivity|]. split; reflexivity.
Qed.

(** X22. Two connections in the same millisecond.  The key of a Peer in the
    Node's list is the md5 of the time of [connectPeer]; when two sockets
    are accepted at the same time, the second Peer takes the key of the
    first: the first is no longer in the list, so [broadcast] does not reach
    it, although it is connected and the Node listens to it.  And when the
    first then raises 'error', the Node deletes that key: the second Peer is
    out of the list as well. *)
Theorem same_hash_connections (n : Node) (socket1 socket2 : Socket)
    (remote1 remote2 host1 host2 : Host) (hash err : jsstring)
    (written1 written2 written3 : bool) :
  blength (utf8_encode (public (node_keypair n))) <= 0xffffffff ->
  Host_constructor (_address remote1) (_port remote1) = Returned host1 ->
  Host_constructor (_address remote2) (_port remote2) = Returned host2 ->
  references_ok n ->
  let first := length (peers n) in
  let second := S first in
  let n1 := node_of (connectPeer (ASocket socket1 remote1) hash written1 n) in
  let n2 := node_of (connectPeer (ASocket socket2 remote2) hash written2 n1) in
  let n3 := node_of (onPeer first (_socketEventError err written3) n2) in
  node_peerList n2 = assign hash second (node_peerList n)
  /\ ~ In first (listed n2)
  /\ In second (listed n2)
  /\ node_peerList n3 = delete hash (node_peerList n)
  /\ ~ In second (listed n3).
Proof.
  intros Hl H1 H2 Hok first second n1 n2 n3.
  destruct (connectPeer_socket n socket1 remote1 host1 hash written1 Hl H1)
    as (peer1 & Hn1 & Hh1 & Hs1).
  fold n1 in Hn1.
  assert (Hk1 : node_keypair n1 = node_keypair n) by (rewrite Hn1; reflexivity).
  assert (Hp1 : peers n1 = peers n ++ [(peer1, 1%nat)])
    by (rewrite Hn1; reflexivity).
  assert (Hlen1 : length (peers n1) = second)
    by (rewrite Hp1, length_app; cbn [length]; unfold second, first; lia).
  destruct (connectPeer_socket n1 socket2 remote2 host2 hash written2
              ltac:(rewrite Hk1; exact Hl) H2)
    as (peer2 & Hn2 & Hh2 & Hs2).
  fold n2 in Hn2. rewrite Hlen1 in Hn2.
  assert (Hlist2 : node_peerList n2 = assign hash second (node_peerList n)).
  { rewrite Hn2. cbn [node_peerList set_peerList set_peers].
    rewrite Hn1. cbn [node_peerList set_peerList set_peers].
    apply assign_assign. }
  assert (Hfresh : forall id, In id (listed n) -> (id < first)%nat).
  { intros id Hin. unfold references_ok in Hok.
    rewrite Forall_forall in Hok. exact (Hok id Hin). }
  assert (Hpeer1 : nth_error (peers n2) first = Some (peer1, 1%nat)).
  { rewrite Hn2. cbn [peers set_peerList set_peers]. rewrite Hp1.
    rewrite nth_error_app1
      by (rewrite length_app; cbn [length]; unfold first; lia).
    apply nth_error_app_last. }
  assert (Hlist3 : node_peerList n3 = delete hash (node_peerList n)).
  { unfold n3.
    rewrite (peer_error_unlists_eq n2 first peer1 0 hash err written3
               Hpeer1 Hh1 ltac:(rewrite Hs1; discriminate)).
    unfold node_of. cbn [fst node_peerList set_peerList].
    rewrite Hlist2. apply delete_assign. }
  split; [exact Hlist2|]. split; [|split; [|split; [exact Hlist3|]]].
  - unfold listed. rewrite Hlist2. intros Hin.
    apply listed_assign in Hin. destruct Hin as [Hin|Hin].
    + unfold second in Hin. lia.
    + apply Hfresh in Hin. lia.
  - unfold listed. rewrite Hlist2.
    clear. induction (node_peerList n) as [|[k v] o IH]; cbn [assign].
    + left. reflexivity.
    + destruct (jsstring_eqb k hash); cbn [map snd In]; auto.
  - unfold listed. rewrite Hlist3. intros Hin.
    apply listed_delete in Hin. apply Hfresh in Hin.
    unfold second in Hin. lia.
Qed.

Lemma relay_messages (id : nat) (hash : option jsstring) (listeners : nat)
    (msgs : list (jsstring * Buffer)) (n : Node) :
  relay id hash listeners
    (map (fun m => Emit (EvMessage (fst m) (snd m))) msgs) n
  = (n, flat_map
          (fun m =>
             PeerDid id (Emit (EvMessage (fst m) (snd m)))
               :: repeat (NodeEmit (NodeMessage id (fst m) (snd m))) listeners)
          msgs).
Proof.
  induction msgs as [|m msgs IH]; [reflexivity|].
  cbn [map relay notify flat_map]. rewrite IH. reflexivity.
Qed.

Lemma notified_repeat (ev : NodeEvent) (k : nat) :
  notified (repeat (NodeEmit ev) k) = repeat ev k.
Proof.
  induction k as [|k IH]; [reflexivity|].
  cbn [repeat]. unfold notified in *. cbn [flat_map app]. rewrite IH.
  reflexivity.
Qed.

(** X23. What a Node hears of a conversation.  When the frames of a list of
    messages reach a Peer of a Node, cut into data events in any way, the
    Node raises 'message' for each of them, in the order sent, as many times
    as [connectPeer] has been called on that Peer: once for an accepted
    socket, twice for a Peer object connected twice.  Nothing else is
    notified, and the list of the Node is unchanged. *)
Theorem node_hears_conversation (n : Node) (id : nat) (peer : Peer)
    (listeners : nat) (B : Buffer) (msgs : list (jsstring * Buffer))
    (chunks : list Buffer) :
  nth_error (peers n) id = Some (peer, listeners) ->
  is_uint32 (_header peer) = true ->
  _remotePublicKey peer = None ->
  _inBuffer peer = Some B -> _inCursor peer = 0 ->
  Forall sendable msgs ->
  concat chunks
  = concat (map (fun m => frameBytes (_header peer) (fst m) (snd m)) msgs) ->
  blength (concat chunks) <= blength B ->
  let r := onPeer id (dataEvents chunks) n in
  notified (effects_of r)
  = flat_map (fun m => repeat (NodeMessage id (fst m) (snd m)) listeners) msgs
  /\ node_peerList (node_of r) = node_peerList n.
Proof.
  intros Hid Hh Hkey HB Hn Hall Hwire Hfit r. subst r.
  unfold onPeer. rewrite Hid. cbv zeta.
  set (q0 := set_eventEmitter _ peer).
  pose proof (dataEvents_sendable q0 B (_header peer) msgs chunks
                Hh eq_refl Hkey HB Hn Hall Hwire Hfit) as Hlog.
  destruct (dataEvents chunks q0) as [[q l] c].
  unfold log_of in Hlog. cbn [fst snd] in Hlog. subst l.
  rewrite relay_messages. unfold effects_of, node_of. cbn [fst snd].
  split; [|reflexivity].
  clear. induction msgs as [|m msgs IH]; [reflexivity|].
  cbn [flat_map]. unfold notified in *. cbn [flat_map app].
  rewrite flat_map_app, IH.
  fold (notified (repeat (NodeEmit (NodeMessage id (fst m) (snd m)))
                    listeners)).
  rewrite notified_repeat. reflexivity.
Qed.

Lemma connectPeer_peer (n : Node) (id : nat) (peer : Peer) (listeners : nat)
    (hash : jsstring) (written : bool) :
  nth_error (peers n) id = Some (peer, listeners) ->
  connectPeer (APeer id) hash written n
  = (set_peerList (assign hash id (node_peerList n))
       (set_peers
          (store id (set_hash (Some hash) peer, S listeners) (peers n)) n),
     [NodeEmit (NodePeerConnected id hash (_host peer))], Returned tt).
Proof.
  intros Hid. unfold connectPeer, register. rewrite Hid. reflexivity.
Qed.

(** X24. A Peer object connected twice.  [connectPeer] on a Peer object
    gives it a new hash and lists it under that key, and attaches the
    Node's listeners once more; the key of the earlier call stays in the
    list.  After two calls at different times the Peer is listed twice, so
    [broadcast] sends to it twice, and has the listeners twice more. *)
Theorem peer_connected_twice (n : Node) (id : nat) (peer : Peer)
    (listeners : nat) (hash1 hash2 : jsstring) (written1 written2 : bool) :
  nth_error (peers n) id = Some (peer, listeners) ->
  node_peerList n = [] ->
  hash1 <> hash2 ->
  let n1 := node_of (connectPeer (APeer id) hash1 written1 n) in
  let r2 := connectPeer (APeer id) hash2 written2 n1 in
  node_peerList (node_of r2) = [(hash1, id); (hash2, id)]
  /\ nth_error (peers (node_of r2)) id
     = Some (set_hash (Some hash2) peer, S (S listeners))
  /\ notified (effects_of r2)
     = [NodePeerConnected id hash2 (_host peer)]
  /\ snd r2 = Returned tt.
Proof.
  intros Hid Hlist Hne n1 r2.
  set (peers1 := store id (set_hash (Some hash1) peer, S listeners) (peers n)).
  assert (Hn1 : n1 = set_peerList [(hash1, id)] (set_peers peers1 n)).
  { unfold n1.
    rewrite (connectPeer_peer n id peer listeners hash1 written1 Hid).
    rewrite Hlist. reflexivity. }
  assert (Hid1 : nth_error (peers n1) id
                 = Some (set_hash (Some hash1) peer, S listeners)).
  { rewrite Hn1. cbn [peers set_peers set_peerList].
    exact (nth_error_store _ _ _ _ Hid). }
  assert (Hr2 : r2 = (set_peerList (assign hash2 id (node_peerList n1))
                        (set_peers
                           (store id (set_hash (Some hash2)
                                        (set_hash (Some hash1) peer),
                                      S (S listeners)) (peers n1)) n1),
                      [NodeEmit (NodePeerConnected id hash2
                                   (_host (set_hash (Some hash1) peer)))],
                      Returned tt)).
  { unfold r2. apply connectPeer_peer. exact Hid1. }
  rewrite Hr2. unfold node_of, effects_of.
  cbn [fst snd peers set_peers set_peerList node_peerList].
  rewrite Hn1. cbn [peers set_peers set_peerList node_peerList assign].
  replace (jsstring_eqb hash1 hash2) with false
    by (symmetry; apply jsstring_eqb_neq; exact Hne).
  unfold peers1. rewrite store_store, (nth_error_store _ _ _ _ Hid).
  repeat split.
Qed.

(** X25. [listen] starts the server once.  The first call on a Node with a
    buffer size that is not negative starts a server on the port of the
    Node's host; a second call starts nothing and leaves the Node as it
    was.  With a negative buffer size [listen] raises a RangeError before
    any server is made. *)
Theorem listen_once (n : Node) :
  node_server n = None ->
  (0 <= node_bufferSize n ->
   let r1 := listen n in
   let r2 := listen (node_of r1) in
   effects_of r1 = [ServerListen (_port (node_host n))]
   /\ snd r1 = Returned tt
   /\ node_server (node_of r1) = Some (_port (node_host n))
   /\ r2 = (node_of r1, [], Returned tt))
  /\ (node_bufferSize n < 0 ->
      effects_of (listen n) = [] /\ snd (listen n) = Thrown RangeError
      /\ node_server (node_of (listen n)) = None).
Proof.
  intros Hs. destruct n as [ho he bs se kp pl st ib ic em ps].
  cbn [node_server] in Hs. subst se.
  cbn [node_server node_bufferSize node_host].
  split.
  - intros Hb.
    set (r1 := listen _). set (r2 := listen (node_of r1)).
    assert (Halloc : Buffer_alloc bs = Some (repeat x00 (Z.to_nat bs))).
    { unfold Buffer_alloc.
      replace (bs <? 0) with false by (symmetry; apply Z.ltb_ge; lia).
      reflexivity. }
    assert (H1 : r1 = (mkNode ho he bs (Some (_port ho)) kp pl
                         (Some connecting)
                         (Some (repeat x00 (Z.to_nat bs))) 0 em ps,
                       [ServerListen (_port ho)], Returned tt)).
    { unfold r1, listen. cbn [node_bufferSize]. rewrite Halloc. reflexivity. }
    assert (H2 : r2 = (node_of r1, [], Returned tt)).
    { unfold r2. rewrite H1. unfold node_of, listen.
      cbn [fst node_bufferSize]. rewrite Halloc. reflexivity. }
    rewrite H2, H1. unfold effects_of, node_of. cbn [fst snd node_server].
    repeat split.
  - intros Hb. unfold listen. cbn [node_bufferSize]. unfold Buffer_alloc.
    replace (bs <? 0) with true by (symmetry; apply Z.ltb_lt; lia).
    unfold effects_of, node_of. cbn [fst snd node_server].
    repeat split.
Qed.

(** ** The accumulation buffer over a connection's life *)

(** X26. Only [connect] revives a Peer whose buffer overflowed, on a Peer
    whose emitter has a listener of 'error' that returns.  After a data
    event that did not fit (the cursor is one past the capacity) a further
    frame only raises the overflow error; a call
    of [connect], which dials nothing since the socket is still stored,
    gives the Peer a zeroed buffer and a cursor at 0; a frame that then
    arrives is processed as on a new connection. *)
Theorem connect_revives_poisoned (p : Peer) (held : Socket) (B data : Buffer)
    (socket : option Socket) (written : bool) (message : Buffer) :
  _socket p = Some held -> _inBuffer p = Some B ->
  blength B = _bufferSize p ->
  blength B < blength data + _inCursor p ->
  _eventEmitter p = ErrorListeners ->
  complete_frame (_header p) message -> blength message <= blength B ->
  let poisoned := peer_of (_socketEventData data p) in
  let revived := peer_of (connect socket written poisoned) in
  _inCursor poisoned = blength B + 1
  /\ log_of (_socketEventData message poisoned)
     = [Emit (EvError (str "Peer exceeded max receiving buffer"))]
  /\ log_of (connect socket written poisoned) = []
  /\ _inCursor revived = 0
  /\ log_of (_socketEventData message revived)
     = log_of (_processMessage message revived).
Proof.
  intros Hs HB Hsize Hover Hem Hframe Hfit poisoned revived.
  pose proof (blength_nonneg B) as HB0.
  pose proof (blength_nonneg message) as Hm0.
  assert (Hp : poisoned = set_inCursor (blength B + 1) p).
  { unfold poisoned. rewrite (_socketEventData_overflow p B data HB Hover Hem).
    reflexivity. }
  assert (Hr : connect socket written poisoned
               = (set_inCursor 0
                    (set_inBuffer
                       (Some (repeat x00 (Z.to_nat (_bufferSize p))))
                       poisoned), [], Returned (Some held))).
  { rewrite (connect_held poisoned held socket written).
    - rewrite Hp. reflexivity.
    - rewrite Hp. exact Hs.
    - rewrite Hp. cbn [_bufferSize set_inCursor]. lia. }
  split; [rewrite Hp; reflexivity|]. split; [|split; [|split]].
  - rewrite (_socketEventData_overflow poisoned B message).
    + reflexivity.
    + rewrite Hp. exact HB.
    + rewrite Hp. cbn [_inCursor set_inCursor]. lia.
    + rewrite Hp. exact Hem.
  - rewrite Hr. reflexivity.
  - unfold revived. rewrite Hr. reflexivity.
  - destruct (receive_frame revived (repeat x00 (Z.to_nat (_bufferSize p)))
                message) as (B' & n' & Hrun & _).
    + unfold revived. rewrite Hr. reflexivity.
    + unfold revived. rewrite Hr. reflexivity.
    + rewrite blength_repeat. lia.
    + unfold revived. rewrite Hr, Hp. exact Hframe.
    + rewrite Hrun. reflexivity.
Qed.

(** X30. An overflow nobody listens to.  On a Peer with no listener of
    'error', which is how the constructor and [connect] leave it, a data
    event that does not fit the buffer raises the emitter's error: nothing
    is notified and the Peer is as it was, the cursor included, so the bytes
    received before stay in the buffer.  Once [on('error', ...)] has
    attached a listener, the same data event returns, notifies the error
    and pins the cursor one past the capacity. *)
Theorem overflow_unhandled (p : Peer) (B data : Buffer) :
  _inBuffer p = Some B ->
  blength B < blength data + _inCursor p ->
  _eventEmitter p = NoErrorListener ->
  let listened := peer_of (on (str "error") p) in
  _socketEventData data p = (p, [], Thrown UnhandledError)
  /\ _socketEventData data listened
     = (set_inCursor (blength B + 1) listened,
        [Emit (EvError (str "Peer exceeded max receiving buffer"))],
        Returned tt).
Proof.
  intros HB Hover Hem listened. split.
  - rewrite (_socketEventData_overflow_raises p B data HB Hover)
      by (rewrite Hem; discriminate).
    rewrite Hem. reflexivity.
  - assert (Hl : listened = set_eventEmitter ErrorListeners p).
    { unfold listened, on.
      replace (jsstring_eqb (str "error") (str "error")) with true
        by (symmetry; apply jsstring_eqb_eq; reflexivity).
      unfold peer_of, modify. cbn [fst]. rewrite Hem. reflexivity. }
    rewrite Hl. apply _socketEventData_overflow.
    + exact HB.
    + exact Hover.
    + reflexivity.
Qed.

(** The bytes after the last complete frame of a stream are its tail. *)
Lemma frames_residue_suffix (header : Z) :
  forall s : Buffer, exists k, snd (frames header s) = skipn k s.
Proof.
  apply (frames_ind header).
  - intros s Hnone. rewrite frames_eq, Hnone. exists 0%nat. reflexivity.
  - intros s f s' Hsome [k Hk]. rewrite frames_eq, Hsome.
    destruct (find_frame_Some header s f s' Hsome)
      as (_ & _ & k0 & _ & _ & Hs').
    destruct (frames header s') as [fs r]. cbn [snd] in *.
    exists (k0 + length f + k)%nat. rewrite Hk, Hs', skipn_skipn.
    f_equal. lia.
Qed.

(** X27. What stays in the buffer.  When a data event on a Peer with an
    empty buffer returns, the bytes it leaves in the buffer, from offset 0 up
    to the cursor, are exactly the bytes of the chunk after its last
    complete frame (a tail of the chunk): nothing of an incomplete frame is
    lost, and nothing of a processed one is kept.  The buffer keeps its
    capacity. *)
Theorem buffer_keeps_residue (p : Peer) (B d : Buffer) :
  _inBuffer p = Some B -> _inCursor p = 0 -> blength d <= blength B ->
  completion_of (_socketEventData d p) = Returned tt ->
  let q := peer_of (_socketEventData d p) in
  let r := snd (frames (_header p) d) in
  (exists k, r = skipn k d)
  /\ _inCursor q = blength r
  /\ exists B',
       _inBuffer q = Some B' /\ blength B' = blength B
       /\ firstn (length r) B' = r.
Proof.
  intros HB Hn Hfit Hret q r.
  split; [apply frames_residue_suffix|].
  destruct (frames (_header p) d) as [fs r0] eqn:HF.
  destruct (processKeys fs (_remotePublicKey p)) as [[key log] c] eqn:HK.
  destruct (_socketEventData_spec p B d 0 fs r0 key log c)
    as (B' & n' & c' & Hrun & HB' & Hpost); try assumption; try lia.
  unfold q, r. rewrite Hrun in *. unfold completion_of, peer_of in *.
  cbn [fst snd] in *. subst c'.
  destruct c as [[]|e].
  - destruct Hpost as [(_ & -> & Hr)|(Hc & _)]; [|discriminate].
    split; [reflexivity|]. exists B'. split; [reflexivity|].
    split; [exact HB'|].
    unfold received in Hr. unfold blength in Hr.
    rewrite Nat2Z.id in Hr. exact Hr.
  - discriminate.
Qed.

(** ** The layout of a frame *)

(** X28. The wire format.  Every frame that [send] hands to the transport
    is 24 bytes longer than the payload it carries (the data, transformed
    when it applies): bytes 0 to 3 are the header constant, least
    significant byte first; bytes 4 to 15 the first twelve characters of the
    command, one byte each, padded with zero bytes; bytes 16 to 19 the
    length of the payload, least significant byte first; bytes 20 to 23 the
    tag; the payload follows from byte 24. *)
Theorem frame_layout (p : Peer) (command : jsstring) (data : option SendData)
    (written : bool) (frame : Buffer) :
  In (SocketWrite frame) (log_of (send command data written p)) ->
  exists payload,
    payloadToSend p command data = Some payload
    /\ blength frame = blength payload + 24
    /\ readUInt32LE frame 0 = Some (_header p)
    /\ Buffer_slice frame 4 16
       = map byte_of (firstn 12 command)
           ++ repeat x00 (12 - length (firstn 12 command))
    /\ readUInt32LE frame 16 = Some (blength payload)
    /\ Buffer_slice frame 20 24 = integrityTag command payload
    /\ skipn 24 frame = payload.
Proof.
  rewrite send_eq.
  destruct (payloadToSend p command data) as [d|]; [|intros []].
  destruct (is_uint32 (_header p)) eqn:Hh; [|intros []].
  destruct (forallb is_uint8 (firstn 12 command)); [|intros []].
  destruct (is_uint32 (blength d)) eqn:Hd; [|intros []].
  cbn [andb].
  destruct (_socket p); [|intros []].
  unfold log_of. cbn [fst snd In]. intros [E|[]]. injection E as <-.
  exists d. split; [reflexivity|].
  split; [apply frameBytes_length|].
  split; [apply frameBytes_header; exact Hh|].
  split; [|split; [apply frameBytes_length_field; exact Hd|
                   split; [apply frameBytes_tag | apply frameBytes_payload]]].
  unfold Buffer_slice. change (Z.to_nat (16 - 4)) with 12%nat.
  change (Z.to_nat 4) with 4%nat.
  exact (frameBytes_command_field (_header p) command d).
Qed.

(** ** The notifications of each call *)

Lemma connect_events (p : Peer) (socket : option Socket) (written : bool) :
  events (log_of (connect socket written p)) = [].
Proof.
  destruct (Z_lt_le_dec (_bufferSize p) 0) as [Hlt|Hge].
  { rewrite connect_alloc_fails by exact Hlt. reflexivity. }
  destruct (_socket p) as [held|] eqn:Hs.
  { rewrite (connect_held p held) by assumption. reflexivity. }
  destruct socket as [s|].
  - rewrite connect_socket by assumption. cbv zeta.
    destruct (_keypair p) as [kp|]; [|reflexivity].
    match goal with
    | |- context [send ?c ?d ?w ?q] =>
        pose proof (send_log q c d w) as (_ & H2 & _);
        destruct (send c d w q) as [[q' l'] c']
    end.
    unfold log_of in *. cbn [fst snd] in *.
    destruct c'; exact H2.
  - rewrite connect_dial by assumption. cbv zeta.
    destruct (_keypair p) as [kp|]; [|reflexivity].
    match goal with
    | |- context [send ?c ?d ?w ?q] =>
        pose proof (send_log q c d w) as (_ & H2 & _);
        destruct (send c d w q) as [[q' l'] c']
    end.
    unfold log_of in *. cbn [fst snd] in *.
    destruct c'; exact H2.
Qed.

Lemma processKey_log (message : Buffer) (key : option jsstring) :
  Forall (fun e => exists command data, e = Emit (EvMessage command data))
         (snd (fst (processKey message key))).
Proof.
  unfold processKey. rewrite _processMessage_eq.
  destruct (readUInt32LE message 16) as [len|]; [|constructor].
  destruct (readUInt32BE message 20) as [checksum|]; [|constructor].
  destruct (verifiedPayload message len checksum) as [[payload|]|e'];
    try constructor.
  unfold deliver. destruct (jsstring_eqb _ _); [constructor|].
  cbn [_remotePublicKey set_remotePublicKey Peer_constructor].
  destruct key as [k|].
  - destruct (publicDecrypt k payload); cbn [fst snd]; repeat constructor.
    eauto.
  - cbn [fst snd]. repeat constructor. eauto.
Qed.

Lemma scanLoop_log (fuel : nat) :
  forall (cursor messageEnd : Z) (p : Peer),
  Forall (fun e => exists command data, e = Emit (EvMessage command data))
         (log_of (scanLoop fuel cursor messageEnd p)).
Proof.
  induction fuel as [|fuel IH]; intros cursor messageEnd p; [constructor|].
  cbn [scanLoop]. rewrite bind_this.
  destruct (cursor <? _inCursor p); [|constructor].
  destruct (_inBuffer p) as [B|]; [|constructor].
  unfold orThrow at 1. rewrite bind_ret.
  destruct (readUInt32LE B cursor) as [word|]; [|constructor].
  unfold orThrow at 1. rewrite bind_ret.
  destruct (word =? _header p); [|apply IH].
  destruct (cursor + 16 <? _inCursor p); [|apply IH].
  destruct (readUInt32LE B (cursor + 16)) as [len|]; [|constructor].
  unfold orThrow at 1. rewrite bind_ret.
  destruct (cursor + len + 24 <=? _inCursor p); [|apply IH].
  unfold bind. rewrite _processMessage_key.
  pose proof (processKey_log (Buffer_slice B cursor (cursor + len + 24))
                (_remotePublicKey p)) as Hp.
  destruct (processKey _ (_remotePublicKey p)) as [[k1 l1] [[]|e]];
    cbn [fst snd] in *; [|exact Hp].
  specialize (IH (cursor + (len + 24)) (cursor + len + 24)
                 (set_remotePublicKey k1 p)).
  destruct (scanLoop fuel _ _ (set_remotePublicKey k1 p)) as [[p2 l2] c2].
  unfold log_of in *. cbn [fst snd] in *.
  apply Forall_app. split; assumption.
Qed.

Lemma _socketEventData_log (data : Buffer) (p : Peer) :
  log_of (_socketEventData data p)
  = [Emit (EvError (str "Peer exceeded max receiving buffer"))]
  \/ Forall (fun e => exists command data, e = Emit (EvMessage command data))
            (log_of (_socketEventData data p)).
Proof.
  unfold _socketEventData. munfold.
  destruct (_inBuffer p) as [B|]; [|right; constructor].
  destruct (blength B <? blength data + _inCursor p);
    [destruct (_eventEmitter p);
     [right; constructor | left; reflexivity | left; reflexivity]|].
  right. cbn [_inCursor set_inCursor].
  destruct (_inCursor p + blength data <? 20); [constructor|].
  set (p1 := set_inCursor _ _).
  pose proof (scanLoop_log (S (Z.to_nat (_inCursor p + blength data))) 0 0 p1)
    as Hl.
  destruct (scanLoop _ 0 0 p1) as [[p2 l2] [e|ex]].
  - unfold log_of in *. cbn [fst snd] in *.
    destruct (0 <? e).
    + destruct (_inBuffer p2); cbn [fst snd app]; rewrite ?app_nil_r;
        exact Hl.
    + cbn [fst snd app]. rewrite ?app_nil_r. exact Hl.
  - unfold log_of in *. cbn [fst snd app] in *. rewrite ?app_nil_r.
    exact Hl.
Qed.

(** X29. Which call raises which notification.  On any Peer: 'connect' is
    raised by the socket's connect listener alone, 'end' by
    [_socketEventEnd] alone (which [connect] attaches to no event of the
    socket), 'close' by [disconnect], [destroy] and [_socketEventClose]
    alone, 'error' by the error listener, with the error it was given, and by
    a data event that overflows the buffer, and 'message' by data events
    alone; [connect], [send], [generateKeypair], the setter of the hash and
    [on] raise nothing. *)
Theorem notifications_of_calls (c : Call) (p : Peer) :
  match c with
  | OnConnect => events (call_log c p) = [EvConnect]
  | OnEnd => events (call_log c p) = [EvEnd]
  | OnClose => events (call_log c p) = [EvClose]
  | CallDisconnect | CallDestroy =>
      events (call_log c p) = [EvClose] \/ events (call_log c p) = []
  | OnError err _ =>
      events (call_log c p) = [EvError err] \/ events (call_log c p) = []
  | OnData _ =>
      events (call_log c p)
      = [EvError (str "Peer exceeded max receiving buffer")]
      \/ Forall (fun e => is_message e = true) (events (call_log c p))
  | CallConnect _ _ | CallSend _ _ _ | CallGenerateKeypair _
  | CallSetHash _ | CallOn _ => events (call_log c p) = []
  end.
Proof.
  destruct c; cbn [call_log].
  - apply connect_events.
  - apply send_log.
  - destruct (_socket p) as [s|] eqn:Hs.
    + left. destruct (disconnect_destroy_socket p s Hs) as [-> _].
      reflexivity.
    + right. unfold disconnect. munfold. cbn [_socket set_state].
      rewrite Hs. reflexivity.
  - destruct (_socket p) as [s|] eqn:Hs.
    + left. destruct (disconnect_destroy_socket p s Hs) as [_ ->].
      reflexivity.
    + right. unfold destroy. munfold. cbn [_socket set_state].
      rewrite Hs. reflexivity.
  - unfold generateKeypair. rewrite bind_this.
    destruct (is_null (_state p)); reflexivity.
  - reflexivity.
  - reflexivity.
  - destruct (_socketEventData_log data p) as [-> | H]; [left; reflexivity|].
    right. induction H as [|e l (cmd & d & ->) _ IH]; [constructor|].
    cbn [events flat_map app]. constructor; [reflexivity | exact IH].
  - reflexivity.
  - destruct (state_is p connecting) eqn:E.
    + right. apply state_is_connecting in E.
      apply (_socketEventError_connecting p err written E).
    + rewrite error_outside_connecting_eq, emit_error.
      * destruct (_eventEmitter p); [right | left | left]; reflexivity.
      * intros H. apply state_is_connecting in H. congruence.
  - reflexivity.
  - unfold on. munfold.
    destruct (jsstring_eqb event (str "error")); reflexivity.
Qed.

End PeerNode.

(** * The theorems, run on examples *)

(** The example Peer is what [connect(socket)] makes of a new Peer. *)
Lemma example_peer_fresh :
  peer_of (connect privateEncrypt_2048 (Some (Accepted 1)) true
             (Peer_constructor example_host default_header 64
                default_maxConnectionAttempts))
  = example_peer 64.
Proof. vm_compute. reflexivity. Qed.

Lemma round_trip_witness :
  exists frame,
    send privateEncrypt_2048 (str "TEST")
      (Some (DataBuffer (utf8_encode (str "hello")))) true (example_peer 64)
    = (example_peer 64, [SocketWrite frame], Returned true)
    /\ exists receiver',
         _socketEventData toString_ascii publicDecrypt_2048 frame
           (peer_of (connect privateEncrypt_2048 (Some (Accepted 1)) true
                       (Peer_constructor example_host default_header 64
                          default_maxConnectionAttempts)))
         = (receiver',
            [Emit (EvMessage (str "TEST") (utf8_encode (str "hello")))],
            Returned tt).
Proof.
  apply (round_trip toString_ascii privateEncrypt_2048 publicDecrypt_2048
           example_host default_header 64 default_maxConnectionAttempts
           (Accepted 1) true (example_peer 64) (str "TEST")
           (utf8_encode (str "hello")) true).
  - reflexivity.
  - reflexivity.
  - reflexivity.
  - discriminate.
  - vm_compute. lia.
  - vm_compute. repeat constructor.
  - vm_compute. discriminate.
  - vm_compute. discriminate.
  - vm_compute. discriminate.
Defined.

(** C1 as stated fails for the command SECURE: the frame round-trips into no
    message notification (the payload becomes the remote key). *)
Lemma round_trip_SECURE_counterexample :
  exists frame,
    send privateEncrypt_2048 (str "SECURE")
      (Some (DataBuffer (utf8_encode (str "hello")))) true (example_peer 64)
    = (example_peer 64, [SocketWrite frame], Returned true)
    /\ log_of (_socketEventData toString_ascii publicDecrypt_2048 frame
                 (example_peer 64)) = []
    /\ _remotePublicKey
         (peer_of (_socketEventData toString_ascii publicDecrypt_2048 frame
                     (example_peer 64)))
       = Some (str "hello").
Proof.
  eexists. split; [vm_compute; reflexivity|].
  split; vm_compute; reflexivity.
Qed.

(** Two frames and some noise, cut at arbitrary places. *)
Lemma fragmentation_independence_witness :
  let stream :=
    frameBytes default_header (str "TEST") (utf8_encode (str "hello"))
      ++ [x01; x02; x03]
      ++ frameBytes default_header (str "PING") [] in
  let chunks := [firstn 7 stream; firstn 30 (skipn 7 stream); [];
                 skipn 37 stream] in
  concat chunks = stream
  /\ messages (log_of (dataEvents toString_ascii publicDecrypt_2048 chunks
                         (example_peer 64)))
     = messages (log_of (dataEvents toString_ascii publicDecrypt_2048
                           [concat chunks] (example_peer 64)))
  /\ messages (log_of (dataEvents toString_ascii publicDecrypt_2048 chunks
                         (example_peer 64)))
     = [EvMessage (str "TEST") (utf8_encode (str "hello"));
        EvMessage (str "PING") []].
Proof.
  intros stream chunks. split; [vm_compute; reflexivity|]. split.
  - apply (fragmentation_independence toString_ascii publicDecrypt_2048
             (example_peer 64) (repeat x00 64) chunks).
    + reflexivity.
    + reflexivity.
    + vm_compute. discriminate.
  - vm_compute. reflexivity.
Defined.

Lemma reconnection_never_stops_witness :
  _state example_dialer = Some connecting
  /\ _maxConnectionAttempts example_dialer = 10
  /\ let r := socketErrors privateEncrypt_2048 10 (str "ECONNREFUSED") true
                example_dialer in
     completion_of r = Returned tt
     /\ _state (peer_of r) = Some connecting
     /\ _connectionAttempts (peer_of r) = 10
     /\ _maxConnectionAttempts (peer_of r) = 10
     /\ _bufferSize (peer_of r) = 64
     /\ events (log_of r) = []
     /\ (0 <= 64 -> dials (log_of r) = 10%nat).
Proof.
  split; [reflexivity|]. split; [reflexivity|].
  exact (reconnection_never_stops privateEncrypt_2048 10 example_dialer
           (str "ECONNREFUSED") true eq_refl).
Defined.

(** C4 as stated fails for a frame without payload: its tag is not looked
    at, and the message is raised whatever the tag. *)
Lemma integrity_mismatch_counterexample :
  let message :=
    frame_with_tag default_header (str "TEST") [x00; x00; x00; x00] [] in
  complete_frame default_header message
  /\ readUInt32BE message 20
     <> readUInt32BE (integrityTag (readCommand message) (skipn 24 message)) 0
  /\ log_of (_socketEventData toString_ascii publicDecrypt_2048 message
               (example_peer 64))
     = [Emit (EvMessage (str "TEST") [])]
  /\ _processMessage toString_ascii publicDecrypt_2048 message
       (example_peer 64)
     = (example_peer 64, [Emit (EvMessage (str "TEST") [])], Returned tt).
Proof.
  intros message. split; [|split; [|split]].
  - split; [vm_compute; reflexivity|].
    exists 0. split; vm_compute; reflexivity.
  - vm_compute. discriminate.
  - vm_compute. reflexivity.
  - vm_compute. reflexivity.
Qed.

Lemma integrity_mismatch_discarded_witness :
  let message :=
    frame_with_tag default_header (str "TEST") [x00; x00; x00; x00]
      (utf8_encode (str "hello")) in
  _processMessage toString_ascii publicDecrypt_2048 message (example_peer 64)
  = (example_peer 64, [], Returned tt)
  /\ exists B',
       _socketEventData toString_ascii publicDecrypt_2048 message
         (example_peer 64)
       = (set_inCursor 0 (set_inBuffer (Some B') (example_peer 64)),
          [], Returned tt).
Proof.
  intros message.
  destruct (integrity_mismatch_discarded toString_ascii publicDecrypt_2048
              (example_peer 64) (repeat x00 64) message) as [H1 H2].
  - split; [vm_compute; reflexivity|].
    exists 5. split; vm_compute; reflexivity.
  - vm_compute. reflexivity.
  - vm_compute. discriminate.
  - split; [exact H1|]. apply H2.
    + reflexivity.
    + reflexivity.
    + vm_compute. discriminate.
Defined.

(** C5 as stated fails on a Peer that has learned a remote key: the empty
    payload goes to [publicDecrypt], which raises on it, and no message is
    raised. *)
Lemma zero_length_counterexample :
  let message :=
    frame_with_tag default_header (str "TEST") [x00; x00; x00; x00] [] in
  readUInt32LE message 16 = Some 0
  /\ blength message = 24
  /\ readCommand message <> str "SECURE"
  /\ _processMessage toString_ascii publicDecrypt_2048 message
       example_keyed_peer
     = (example_keyed_peer, [], Thrown CryptoError).
Proof.
  intros message. repeat split; vm_compute; try reflexivity; discriminate.
Qed.

Lemma zero_length_unverified_witness :
  let message :=
    frame_with_tag default_header (str "TEST") [x00; x00; x00; x00] [] in
  let message' :=
    frame_with_tag default_header (str "TEST") [xff; x12; x34; x56] [] in
  _processMessage toString_ascii publicDecrypt_2048 message' (example_peer 64)
  = _processMessage toString_ascii publicDecrypt_2048 message (example_peer 64)
  /\ _processMessage toString_ascii publicDecrypt_2048 message (example_peer 64)
     = (example_peer 64, [Emit (EvMessage (str "TEST") [])], Returned tt).
Proof.
  intros message message'.
  destruct (zero_length_unverified toString_ascii publicDecrypt_2048
              (example_peer 64) message) as (H1 & H2 & H3).
  - vm_compute. reflexivity.
  - vm_compute. reflexivity.
  - split.
    + apply H1; vm_compute; reflexivity.
    + rewrite H3 by (vm_compute; discriminate). vm_compute. reflexivity.
Defined.

(** C6 as stated fails twice.  The frame [send] writes for a command
    without data is not verified: with any other tag it is accepted as
    well.  And for a command of thirteen characters the receiver recomputes
    another HMAC, keyed by the twelve it read: the frame [send] wrote is
    dropped. *)
Lemma integrity_tag_counterexample :
  let sent := frameBytes default_header (str "PING") [] in
  let forged :=
    frame_with_tag default_header (str "PING") [x00; x00; x00; x00] [] in
  let command := str "ABCDEFGHIJKLM" in
  let long := frameBytes default_header command (utf8_encode (str "hello")) in
  send privateEncrypt_2048 (str "PING") None true (example_peer 64)
  = (example_peer 64, [SocketWrite sent], Returned true)
  /\ readUInt32BE forged 20
     <> readUInt32BE (integrityTag (readCommand forged) (skipn 24 forged)) 0
  /\ _processMessage toString_ascii publicDecrypt_2048 forged
       (example_peer 64)
     = (example_peer 64, [Emit (EvMessage (str "PING") [])], Returned tt)
  /\ _processMessage toString_ascii publicDecrypt_2048 sent (example_peer 64)
     = (example_peer 64, [Emit (EvMessage (str "PING") [])], Returned tt)
  /\ send privateEncrypt_2048 command
       (Some (DataBuffer (utf8_encode (str "hello")))) true (example_peer 64)
     = (example_peer 64, [SocketWrite long], Returned true)
  /\ readCommand long = str "ABCDEFGHIJKL"
  /\ _processMessage toString_ascii publicDecrypt_2048 long (example_peer 64)
     = (example_peer 64, [], Returned tt).
Proof.
  intros sent forged command long.
  split; [|split; [|split; [|split; [|split; [|split]]]]].
  - vm_compute. reflexivity.
  - vm_compute. discriminate.
  - vm_compute. reflexivity.
  - vm_compute. reflexivity.
  - vm_compute. reflexivity.
  - vm_compute. reflexivity.
  - vm_compute. reflexivity.
Qed.

Lemma integrity_tag_format_witness :
  let payload := utf8_encode (str "hello") in
  let frame := frameBytes default_header (str "TEST") payload in
  let empty := frameBytes default_header (str "PING") [] in
  Buffer_slice frame 20 24
  = firstn 4 (utf8_encode
                (hex_string
                   (SHA256.hmac (utf8_encode (str "TEST")) (skipn 24 frame))))
  /\ readCommand frame = filter (fun c => 0 <? c) (firstn 12 (str "TEST"))
  /\ (exists tag verification,
        readUInt32BE frame 20 = Some tag
        /\ readUInt32BE
             (firstn 4 (utf8_encode
                          (hex_string
                             (SHA256.hmac (utf8_encode (readCommand frame))
                                          (skipn 24 frame))))) 0
           = Some verification
        /\ _processMessage toString_ascii publicDecrypt_2048 frame
             (example_peer 64)
           = if (5 =? 0) || (tag =? verification)
             then deliver toString_ascii publicDecrypt_2048
                    (readCommand frame) (skipn 24 frame) (example_peer 64)
             else (example_peer 64, [], Returned tt))
  /\ exists tag verification,
       readUInt32BE empty 20 = Some tag
       /\ readUInt32BE
            (firstn 4 (utf8_encode
                         (hex_string
                            (SHA256.hmac (utf8_encode (readCommand empty))
                                         (skipn 24 empty))))) 0
          = Some verification
       /\ _processMessage toString_ascii publicDecrypt_2048 empty
            (example_peer 64)
          = if (0 =? 0) || (tag =? verification)
            then deliver toString_ascii publicDecrypt_2048
                   (readCommand empty) (skipn 24 empty) (example_peer 64)
            else (example_peer 64, [], Returned tt).
Proof.
  intros payload frame empty.
  destruct (integrity_tag_format toString_ascii privateEncrypt_2048
              publicDecrypt_2048) as [Hsend Hrecv].
  destruct (Hsend (example_peer 64) (str "TEST")
              (Some (DataBuffer payload)) true frame) as (_ & H & _ & Hc).
  { vm_compute. left. reflexivity. }
  split; [exact H|]. split; [exact Hc|]. split.
  - apply (Hrecv (example_peer 64) frame 5).
    + vm_compute. reflexivity.
    + vm_compute. reflexivity.
  - apply (Hrecv (example_peer 64) empty 0).
    + vm_compute. reflexivity.
    + vm_compute. reflexivity.
Defined.

(** C7 as stated fails on a Peer nobody listens to for 'error', which is
    what [connect] leaves: the emitter raises the error out of the data
    event before the cursor is pinned, nothing is notified, and the Peer is
    as it was; a frame that arrives next is surfaced. *)
Lemma poisoned_buffer_counterexample :
  let p := example_peer 64 in
  let data := repeat x00 70 in
  let frame :=
    frame_with_tag default_header (str "T") [x00; x00; x00; x00] [] in
  let first := _socketEventData toString_ascii publicDecrypt_2048 data p in
  let next :=
    _socketEventData toString_ascii publicDecrypt_2048 frame (peer_of first) in
  _eventEmitter p = NoErrorListener
  /\ _inBuffer p = Some (repeat x00 64)
  /\ blength (repeat x00 64) < blength data + _inCursor p
  /\ first = (p, [], Thrown UnhandledError)
  /\ _inCursor (peer_of first) = 0
  /\ log_of next = [Emit (EvMessage (str "T") [])]
  /\ completion_of next = Returned tt.
Proof.
  intros p data frame first next.
  split; [|split; [|split; [|split; [|split; [|split]]]]];
    vm_compute; reflexivity.
Qed.

Lemma poisoned_buffer_witness :
  let p := example_listened_peer 8 in
  let data := utf8_encode (str "ten bytes!") in
  let later := [utf8_encode (str "a"); frameBytes default_header (str "T") []] in
  let first := _socketEventData toString_ascii publicDecrypt_2048 data p in
  let rest :=
    dataEvents toString_ascii publicDecrypt_2048 later (peer_of first) in
  completion_of first = Returned tt
  /\ events (log_of first)
     = [EvError (str "Peer exceeded max receiving buffer")]
  /\ _inBuffer (peer_of first) = Some (repeat x00 8)
  /\ _inCursor (peer_of first) = 8 + 1
  /\ completion_of rest = Returned tt
  /\ _inBuffer (peer_of rest) = Some (repeat x00 8)
  /\ _inCursor (peer_of rest) = 8 + 1
  /\ messages (log_of rest) = []
  /\ forall (socket : option Socket) (written : bool),
       _inCursor (peer_of (connect privateEncrypt_2048 socket written
                             (peer_of rest)))
       = 0.
Proof.
  intros p data later.
  apply (poisoned_buffer toString_ascii privateEncrypt_2048
           publicDecrypt_2048 p (repeat x00 8) data later).
  - reflexivity.
  - vm_compute. reflexivity.
  - reflexivity.
Defined.

Lemma Host_localhost_substring_witness :
  isIP_dotted_quad (str "xlocalhost") = 0
  /\ Host_constructor isIP_dotted_quad (str "xlocalhost") 3000
     = Returned {| _family := str "IPv4";
                   _address := str "127.0.0.1";
                   _port := 3000 |}.
Proof.
  split; [vm_compute; reflexivity|].
  apply (Host_localhost_substring isIP_dotted_quad (str "xlocalhost") 3000).
  - vm_compute. reflexivity.
  - vm_compute. reflexivity.
Defined.

Lemma send_raises_witness :
  (exists e,
     completion_of (send privateEncrypt_2048 [0x20AC] None true
                      (example_peer 64)) = Thrown e)
  /\ send privateEncrypt_2048 (str "TEST")
       (Some (DataBuffer (repeat x61 300))) true example_keyed_peer
     = (example_keyed_peer, [], Thrown CryptoError).
Proof.
  split.
  - apply (send_raises privateEncrypt_2048 (example_peer 64) [0x20AC] None
             true).
    vm_compute. reflexivity.
  - apply (send_raises privateEncrypt_2048 example_keyed_peer (str "TEST")
             (Some (DataBuffer (repeat x61 300))) true).
    vm_compute. reflexivity.
Defined.

Lemma secure_frame_stored_witness :
  let message :=
    frameBytes default_header (str "SECURE") (utf8_encode (str "PEM")) in
  _processMessage toString_ascii publicDecrypt_2048 message (example_peer 64)
  = (set_remotePublicKey (Some (str "PEM")) (example_peer 64), [],
     Returned tt)
  /\ exists B',
       _socketEventData toString_ascii publicDecrypt_2048 message
         (example_peer 64)
       = (with_stream (example_peer 64) (Some (str "PEM")) B' 0, [],
          Returned tt).
Proof.
  intros message.
  destruct (secure_frame_stored toString_ascii publicDecrypt_2048
              (example_peer 64) (repeat x00 64) message) as [H1 H2].
  - split; [vm_compute; reflexivity|].
    exists 3. split; vm_compute; reflexivity.
  - vm_compute. reflexivity.
  - vm_compute. reflexivity.
  - split.
    + rewrite H1. vm_compute. reflexivity.
    + destruct H2 as (B' & H); [reflexivity | reflexivity
                               | vm_compute; discriminate |].
      exists B'. rewrite H. vm_compute. reflexivity.
Defined.

(** * The further properties, run on examples *)

Lemma send_without_socket_witness :
  let p := Peer_constructor example_host default_header 64 10 in
  send privateEncrypt_2048 (str "TEST") (Some (DataString (str "hello")))
    true p
  = (p, [], Returned false).
Proof.
  intros p.
  apply (send_without_socket privateEncrypt_2048 p (str "TEST")
           (Some (DataString (str "hello"))) true
           (utf8_encode (str "hello"))).
  - reflexivity.
  - reflexivity.
  - reflexivity.
  - vm_compute. repeat constructor; discriminate.
  - vm_compute. discriminate.
Defined.

Lemma connect_again_witness :
  connect privateEncrypt_2048 (Some (Accepted 2)) true
    (set_inCursor 7 (example_peer 64))
  = (example_peer 64, [], Returned (Some (Accepted 1))).
Proof.
  exact (connect_again privateEncrypt_2048 (set_inCursor 7 (example_peer 64))
           (Accepted 1) (Some (Accepted 2)) true eq_refl
           ltac:(vm_compute; discriminate)).
Defined.

Lemma key_exchange_witness :
  let keys := mkKeypair (str "PEM") (str "private") in
  let p :=
    set_keypair (Some keys)
      (Peer_constructor example_host default_header 64 10) in
  let frame :=
    frameBytes default_header (str "SECURE") (utf8_encode (str "PEM")) in
  written_bytes (log_of (connect privateEncrypt_2048 None true p)) = frame
  /\ events (log_of (connect privateEncrypt_2048 None true p)) = []
  /\ exists B',
       _socketEventData toString_ascii publicDecrypt_2048 frame
         (example_peer 64)
       = (with_stream (example_peer 64) (Some (str "PEM")) B' 0, [],
          Returned tt).
Proof.
  intros keys p frame.
  exact (key_exchange toString_ascii privateEncrypt_2048 publicDecrypt_2048
           p (example_peer 64) keys None true (repeat x00 64)
           eq_refl ltac:(vm_compute; discriminate) eq_refl eq_refl
           ltac:(vm_compute; discriminate) eq_refl eq_refl eq_refl
           ltac:(vm_compute; discriminate)).
Defined.

Lemma generateKeypair_before_connect_witness :
  let p := Peer_constructor example_host default_header 64 10 in
  let keys := mkKeypair (str "PEM") (str "private") in
  generateKeypair keys p = (set_keypair (Some keys) p, [], Returned tt)
  /\ completion_of
       (generateKeypair keys
          (peer_of (connect privateEncrypt_2048 None true p)))
     = Thrown (Error (str "Cannot generate keypair after connection")).
Proof.
  intros p keys.
  destruct (generateKeypair_before_connect privateEncrypt_2048 p None true
              keys eq_refl ltac:(vm_compute; discriminate))
    as (H1 & H2 & _).
  split; [exact (H1 eq_refl)|]. rewrite H2. reflexivity.
Defined.

Lemma error_outside_connecting_witness :
  _socketEventError privateEncrypt_2048 (str "EPIPE") true (example_peer 64)
  = (example_peer 64, [], Thrown UnhandledError)
  /\ _socketEventError privateEncrypt_2048 (str "EPIPE") true
       (example_listened_peer 64)
     = (example_listened_peer 64, [Emit (EvError (str "EPIPE"))],
        Returned tt).
Proof.
  split.
  - exact (error_outside_connecting privateEncrypt_2048 (example_peer 64)
             (str "EPIPE") true ltac:(discriminate)).
  - exact (error_outside_connecting privateEncrypt_2048
             (example_listened_peer 64) (str "EPIPE") true
             ltac:(discriminate)).
Defined.

Lemma connect_event_after_retries_witness :
  let r :=
    bind (socketErrors privateEncrypt_2048 3 (str "ECONNREFUSED") true)
         (fun _ => _socketEventConnect) example_dialer in
  completion_of r = Returned tt
  /\ _state (peer_of r) = Some connected
  /\ _connectionAttempts (peer_of r) = 0
  /\ events (log_of r) = [EvConnect].
Proof.
  exact (connect_event_after_retries privateEncrypt_2048 3 example_dialer
           (str "ECONNREFUSED") true eq_refl).
Defined.

Lemma disconnect_destroy_witness :
  disconnect (example_peer 64)
  = (set_state (Some closed) (example_peer 64), [SocketEnd; Emit EvClose],
     Returned tt)
  /\ destroy (Peer_constructor example_host default_header 64 10)
     = (set_state (Some destroying)
          (Peer_constructor example_host default_header 64 10), [],
        Thrown TypeError).
Proof.
  split.
  - destruct (disconnect_destroy (example_peer 64)) as [H _].
    exact (proj1 (H (Accepted 1) eq_refl)).
  - destruct (disconnect_destroy
                (Peer_constructor example_host default_header 64 10))
      as [_ H].
    exact (proj2 (H eq_refl)).
Defined.

Lemma no_redial_after_close_witness :
  let r :=
    bind disconnect (fun _ => connect privateEncrypt_2048 None true)
      (example_peer 64) in
  let r' :=
    bind destroy (fun _ => connect privateEncrypt_2048 None true)
      (example_peer 64) in
  log_of r = [SocketEnd; Emit EvClose]
  /\ completion_of r = Returned (Some (Accepted 1))
  /\ _state (peer_of r) = Some closed
  /\ log_of r' = [SocketDestroy; Emit EvClose]
  /\ completion_of r' = Returned (Some (Accepted 1))
  /\ _state (peer_of r') = Some closed.
Proof.
  exact (no_redial_after_close privateEncrypt_2048 (example_peer 64)
           (Accepted 1) None true eq_refl ltac:(vm_compute; discriminate)).
Defined.

Lemma data_events_complete_witness :
  let chunks :=
    [utf8_encode (str "noise");
     frameBytes default_header (str "TEST") (utf8_encode (str "hello"))] in
  (match completion_of
           (dataEvents toString_ascii publicDecrypt_2048 chunks
              (example_peer 64)) with
   | Returned _ => True
   | Thrown e =>
       e = RangeError \/ e = CryptoError
       \/ (e = UnhandledError
           /\ _eventEmitter (example_peer 64) <> ErrorListeners)
   end
   /\ exists B',
        _inBuffer (peer_of (dataEvents toString_ascii publicDecrypt_2048
                              chunks (example_peer 64))) = Some B'
        /\ blength B' = blength (repeat x00 64)
        /\ 0 <= _inCursor (peer_of (dataEvents toString_ascii
                                      publicDecrypt_2048 chunks
                                      (example_peer 64)))
           <= blength (repeat x00 64) + 1)
  /\ dataEvents toString_ascii publicDecrypt_2048 chunks
       (Peer_constructor example_host default_header 64 10)
     = (Peer_constructor example_host default_header 64 10, [],
        Thrown TypeError).
Proof.
  intros chunks. split.
  - destruct (data_events_complete toString_ascii publicDecrypt_2048 chunks
                (example_peer 64)) as [H _].
    exact (H (repeat x00 64) eq_refl ltac:(vm_compute; split; discriminate)).
  - destruct (data_events_complete toString_ascii publicDecrypt_2048 chunks
                (Peer_constructor example_host default_header 64 10))
      as [_ H].
    exact (H eq_refl ltac:(discriminate)).
Defined.

Lemma junk_before_frames_witness :
  let frame :=
    frame_with_tag default_header (str "PING") [x00; x00; x00; x00] [] in
  log_of (dataEvents toString_ascii publicDecrypt_2048
            [[x01; x02; x03]; frame] (example_peer 64))
  = log_of (dataEvents toString_ascii publicDecrypt_2048 [frame]
              (example_peer 64))
  /\ log_of (dataEvents toString_ascii publicDecrypt_2048 [frame]
               (example_peer 64))
     = [Emit (EvMessage (str "PING") [])].
Proof.
  intros frame. split; [|vm_compute; reflexivity].
  apply (junk_before_frames toString_ascii publicDecrypt_2048
           (example_peer 64) (repeat x00 64) [x01; x02; x03] [frame]).
  - reflexivity.
  - reflexivity.
  - repeat constructor; vm_compute; discriminate.
  - vm_compute. discriminate.
Defined.

Lemma frame_waits_for_last_byte_witness :
  let message :=
    frameBytes default_header (str "TEST") (utf8_encode (str "hello")) in
  log_of (_socketEventData toString_ascii publicDecrypt_2048
            (firstn 28 message) (example_peer 64)) = []
  /\ log_of (dataEvents toString_ascii publicDecrypt_2048
               [firstn 28 message; skipn 28 message] (example_peer 64))
     = log_of (_processMessage toString_ascii publicDecrypt_2048 message
                 (example_peer 64)).
Proof.
  intros message.
  assert (Hlen : blength message = 29) by apply frameBytes_length.
  apply (frame_waits_for_last_byte toString_ascii publicDecrypt_2048
           (example_peer 64) (repeat x00 64) message 28).
  - reflexivity.
  - reflexivity.
  - apply frameBytes_complete; reflexivity.
  - rewrite Hlen. vm_compute. discriminate.
  - unfold blength in Hlen. lia.
Defined.

Lemma command_longer_than_12_witness :
  let command := str "ABCDEFGHIJKLM" in
  let payload := utf8_encode (str "hello") in
  let frame := frameBytes default_header command payload in
  send privateEncrypt_2048 command (Some (DataBuffer payload)) true
    (example_peer 64)
  = (example_peer 64, [SocketWrite frame], Returned true)
  /\ _processMessage toString_ascii publicDecrypt_2048 frame (example_peer 64)
     = (example_peer 64, [], Returned tt)
  /\ _processMessage toString_ascii publicDecrypt_2048
       (frameBytes default_header command []) (example_peer 64)
     = (example_peer 64, [Emit (EvMessage (str "ABCDEFGHIJKL") [])],
        Returned tt).
Proof.
  intros command payload frame.
  assert (Hc : Forall (fun c => 0 < c <= 255) (firstn 12 command)).
  { vm_compute. repeat constructor; discriminate. }
  destruct (command_longer_than_12 toString_ascii privateEncrypt_2048
              publicDecrypt_2048 (example_peer 64) (example_peer 64)
              command payload true eq_refl ltac:(discriminate) eq_refl Hc
              ltac:(vm_compute; discriminate)
              ltac:(vm_compute; discriminate) eq_refl)
    as (Hsend & t & t' & Ht & Ht' & Hrun).
  destruct (command_longer_than_12 toString_ascii privateEncrypt_2048
              publicDecrypt_2048 (example_peer 64) (example_peer 64)
              command [] true eq_refl ltac:(discriminate) eq_refl Hc
              ltac:(vm_compute; discriminate)
              ltac:(vm_compute; discriminate) eq_refl)
    as (_ & u & u' & _ & _ & Hrun0).
  change (_header (example_peer 64)) with default_header in Hrun, Hrun0.
  split; [exact Hsend | split].
  - fold frame in Hrun. rewrite Hrun.
    vm_compute in Ht. vm_compute in Ht'.
    injection Ht as <-. injection Ht' as <-. reflexivity.
  - rewrite Hrun0. reflexivity.
Defined.

Lemma conversation_witness :
  let msgs :=
    [(str "HELLO", utf8_encode (str "world")); (str "PING", [])] in
  let wire :=
    written_bytes (log_of (sendAll privateEncrypt_2048 msgs true
                             (example_peer 64))) in
  log_of (dataEvents toString_ascii publicDecrypt_2048
            [firstn 10 wire; skipn 10 wire] (example_peer 64))
  = [Emit (EvMessage (str "HELLO") (utf8_encode (str "world")));
     Emit (EvMessage (str "PING") [])].
Proof.
  intros msgs wire.
  assert (Hall : Forall sendable msgs).
  { repeat constructor; vm_compute; try discriminate; repeat constructor;
      discriminate. }
  assert (Hcut : concat [firstn 10 wire; skipn 10 wire] = wire).
  { cbn [concat]. rewrite app_nil_r. apply firstn_skipn. }
  apply (conversation toString_ascii privateEncrypt_2048 publicDecrypt_2048
           (example_peer 64) (example_peer 64) (repeat x00 64) msgs
           [firstn 10 wire; skipn 10 wire]).
  - reflexivity.
  - discriminate.
  - reflexivity.
  - reflexivity.
  - reflexivity.
  - reflexivity.
  - reflexivity.
  - exact Hall.
  - exact Hcut.
  - rewrite Hcut. unfold wire.
    rewrite (proj1 (sendAll_log privateEncrypt_2048 msgs (example_peer 64)
                      true eq_refl ltac:(discriminate) eq_refl Hall)).
    cbn [msgs map concat fst snd].
    rewrite !blength_app, !frameBytes_length. vm_compute. discriminate.
Defined.

(** A transform and its inverse, to run the encrypted path on. *)
Lemma encrypted_round_trip_witness :
  let reverse := fun (_ : jsstring) (d : Buffer) => Some (rev d) in
  let payload := utf8_encode (str "hello") in
  let frame := frameBytes default_header (str "TEST") (rev payload) in
  send reverse (str "TEST") (Some (DataBuffer payload)) true
    example_keyed_peer
  = (example_keyed_peer, [SocketWrite frame], Returned true)
  /\ _processMessage toString_ascii reverse frame example_keyed_peer
     = (example_keyed_peer, [Emit (EvMessage (str "TEST") payload)],
        Returned tt).
Proof.
  intros reverse payload frame.
  destruct (encrypted_round_trip toString_ascii reverse reverse
              example_keyed_peer example_keyed_peer
              (mkKeypair (str "public key") (str "private key"))
              (str "remote public key") (str "TEST") payload (rev payload)
              true eq_refl ltac:(discriminate) ltac:(discriminate) eq_refl)
    as [H1 H2].
  - split; [vm_compute; repeat constructor|].
    split; [vm_compute; repeat constructor; discriminate|].
    split; vm_compute; discriminate.
  - reflexivity.
  - reflexivity.
  - split; [exact H1|].
    change (_header example_keyed_peer) with default_header in H2.
    fold frame in H2. rewrite H2. reflexivity.
Defined.

Lemma Host_constructor_families_witness :
  Host_constructor isIP_dotted_quad (str "10.0.0.1") 4000
  = Returned {| _family := str "IPv4"; _address := str "10.0.0.1";
                _port := 4000 |}
  /\ Host_constructor isIP_dotted_quad (str "example.org") 4000
     = Thrown (Error (str "Unknown address family")).
Proof.
  split.
  - destruct (Host_constructor_families isIP_dotted_quad (str "10.0.0.1")
                4000 eq_refl) as (_ & H & _).
    exact (H eq_refl).
  - destruct (Host_constructor_families isIP_dotted_quad (str "example.org")
                4000 eq_refl) as (H & _).
    exact (H eq_refl).
Defined.

Lemma one_sided_key_exchange_witness :
  let keys := mkKeypair (str "PEM") (str "private") in
  let sender :=
    set_keypair (Some keys)
      (Peer_constructor example_host default_header 64 10) in
  let payload := utf8_encode (str "hello") in
  let wire :=
    frameBytes default_header (str "SECURE") (utf8_encode (str "PEM"))
      ++ frameBytes default_header (str "TEST") payload in
  written_bytes
    (log_of (bind (connect privateEncrypt_2048 None true)
                  (fun _ => send privateEncrypt_2048 (str "TEST")
                              (Some (DataBuffer payload)) true) sender))
  = wire
  /\ log_of (dataEvents toString_ascii publicDecrypt_2048
               [firstn 33 wire; skipn 33 wire] (example_peer 64))
     = []
  /\ log_of (dataEvents toString_ascii
               (fun (_ : jsstring) (d : Buffer) => Some (rev d))
               [firstn 33 wire; skipn 33 wire] (example_peer 64))
     = [Emit (EvMessage (str "TEST") (rev payload))].
Proof.
  intros keys sender payload wire.
  assert (Hm : sendable (str "TEST", payload)).
  { split; [vm_compute; repeat constructor|].
    split; [vm_compute; repeat constructor; discriminate|].
    split; vm_compute; discriminate. }
  assert (Hcut : concat [firstn 33 wire; skipn 33 wire] = wire).
  { cbn [concat]. rewrite app_nil_r. apply firstn_skipn. }
  assert (Hfit : blength wire <= blength (repeat x00 64)).
  { unfold wire. rewrite blength_app, !frameBytes_length.
    vm_compute. discriminate. }
  destruct (one_sided_key_exchange toString_ascii privateEncrypt_2048
              publicDecrypt_2048 sender (example_peer 64) keys None true
              (repeat x00 64) (str "TEST") payload
              [firstn 33 wire; skipn 33 wire]
              eq_refl ltac:(vm_compute; discriminate) eq_refl eq_refl eq_refl
              ltac:(vm_compute; discriminate) Hm eq_refl eq_refl eq_refl
              eq_refl Hcut Hfit) as [H1 H2].
  destruct (one_sided_key_exchange toString_ascii privateEncrypt_2048
              (fun (_ : jsstring) (d : Buffer) => Some (rev d))
              sender (example_peer 64) keys None true
              (repeat x00 64) (str "TEST") payload
              [firstn 33 wire; skipn 33 wire]
              eq_refl ltac:(vm_compute; discriminate) eq_refl eq_refl eq_refl
              ltac:(vm_compute; discriminate) Hm eq_refl eq_refl eq_refl
              eq_refl Hcut Hfit) as [_ H3].
  split; [exact H1 | split; [rewrite H2 | rewrite H3]; reflexivity].
Defined.

Lemma accepted_peer_configuration_witness :
  let remote := mkHost (str "IPv4") (str "10.0.0.1") 4000 in
  Host_constructor isIP_dotted_quad (_address remote) (_port remote)
  = Returned remote
  /\ match Host_constructor isIP_dotted_quad (_address remote)
             (_port remote) with
     | Thrown e =>
         connectPeer isIP_dotted_quad privateEncrypt_2048
           (ASocket (Accepted 7) remote) (str "h1") true example_node
         = (example_node, [], Thrown e)
     | Returned host =>
         let id := length (peers example_node) in
         let peer :=
           set_hash (Some (str "h1"))
             (set_socket (Some (Accepted 7))
                (set_state (Some connected)
                   (set_inCursor 0
                      (set_inBuffer
                         (Some (repeat x00 (Z.to_nat default_bufferSize)))
                         (set_keypair (Some (node_keypair example_node))
                            (Peer_constructor host default_header
                               default_bufferSize
                               default_maxConnectionAttempts)))))) in
         connectPeer isIP_dotted_quad privateEncrypt_2048
           (ASocket (Accepted 7) remote) (str "h1") true example_node
         = (set_peerList (assign (str "h1") id (node_peerList example_node))
              (set_peers (peers example_node ++ [(peer, 1%nat)])
                 example_node),
            [PeerDid id
               (SocketWrite
                  (frameBytes default_header (str "SECURE")
                     (utf8_encode (public (node_keypair example_node)))));
             NodeEmit (NodePeerConnected id (str "h1") remote)],
            Returned tt)
     end.
Proof.
  intros remote. split; [vm_compute; reflexivity|].
  exact (accepted_peer_configuration isIP_dotted_quad privateEncrypt_2048
           example_node (Accepted 7) remote (str "h1") true
           ltac:(vm_compute; discriminate)).
Defined.

Lemma broadcast_effect_witness :
  let frame :=
    frameBytes default_header (str "TEST") (utf8_encode (str "hello")) in
  broadcast privateEncrypt_2048 (str "TEST")
    (Some (DataString (str "hello"))) true (example_node_listing 1)
  = (example_node_listing 1, [PeerDid 0 (SocketWrite frame)], Returned tt).
Proof.
  intros frame.
  destruct (broadcast_effect privateEncrypt_2048 (example_node_listing 1)
              (str "TEST") (Some (DataString (str "hello"))) true)
    as [H _].
  - repeat constructor.
  - rewrite H. vm_compute. reflexivity.
Defined.

Lemma peer_error_unlists_witness :
  let listening := Node_on (str "error") (example_node_listing 2) in
  onPeer 0 (_socketEventError privateEncrypt_2048 (str "EPIPE") true)
    (example_node_listing 2)
  = (set_peerList [] (example_node_listing 2),
     [PeerDid 0 (Emit (EvError (str "EPIPE")))],
     Thrown UnhandledError)
  /\ onPeer 0 (_socketEventError privateEncrypt_2048 (str "EPIPE") true)
       listening
     = (set_peerList [] listening,
        [PeerDid 0 (Emit (EvError (str "EPIPE")));
         NodeEmit (NodeError 0); NodeEmit (NodeError 0)],
        Returned tt).
Proof.
  intros listening. split.
  - destruct (peer_error_unlists privateEncrypt_2048 (example_node_listing 2)
                0 (set_hash (Some (str "h1")) (example_peer 64)) 1 (str "h1")
                (str "EPIPE") true eq_refl eq_refl) as [H _].
    rewrite (H ltac:(discriminate)). reflexivity.
  - destruct (peer_error_unlists privateEncrypt_2048 listening
                0 (set_hash (Some (str "h1")) (example_peer 64)) 1 (str "h1")
                (str "EPIPE") true eq_refl eq_refl) as [H _].
    rewrite (H ltac:(discriminate)). reflexivity.
Defined.

Lemma same_hash_connections_witness :
  let remote1 := mkHost (str "IPv4") (str "10.0.0.1") 4000 in
  let remote2 := mkHost (str "IPv4") (str "10.0.0.2") 4000 in
  let n1 :=
    node_of (connectPeer isIP_dotted_quad privateEncrypt_2048
               (ASocket (Accepted 1) remote1) (str "h1") true example_node) in
  let n2 :=
    node_of (connectPeer isIP_dotted_quad privateEncrypt_2048
               (ASocket (Accepted 2) remote2) (str "h1") true n1) in
  let n3 :=
    node_of (onPeer 0 (_socketEventError privateEncrypt_2048 (str "EPIPE")
                         true) n2) in
  node_peerList n2 = assign (str "h1") 1%nat (node_peerList example_node)
  /\ ~ In 0%nat (listed n2)
  /\ In 1%nat (listed n2)
  /\ node_peerList n3 = delete (str "h1") (node_peerList example_node)
  /\ ~ In 1%nat (listed n3).
Proof.
  intros remote1 remote2.
  apply (same_hash_connections isIP_dotted_quad privateEncrypt_2048
           publicDecrypt_2048 example_node (Accepted 1) (Accepted 2)
           remote1 remote2 remote1 remote2 (str "h1") (str "EPIPE")
           true true true).
  - vm_compute. discriminate.
  - vm_compute. reflexivity.
  - vm_compute. reflexivity.
  - constructor.
Defined.

Lemma node_hears_conversation_witness :
  let msgs :=
    [(str "HELLO", utf8_encode (str "world")); (str "PING", [])] in
  let wire :=
    concat (map (fun m => frameBytes default_header (fst m) (snd m)) msgs) in
  let r :=
    onPeer 0 (dataEvents toString_ascii publicDecrypt_2048
                [firstn 10 wire; skipn 10 wire]) (example_node_listing 2) in
  notified (effects_of r)
  = [NodeMessage 0 (str "HELLO") (utf8_encode (str "world"));
     NodeMessage 0 (str "HELLO") (utf8_encode (str "world"));
     NodeMessage 0 (str "PING") []; NodeMessage 0 (str "PING") []]
  /\ node_peerList (node_of r) = node_peerList (example_node_listing 2).
Proof.
  intros msgs wire.
  assert (Hcut : concat [firstn 10 wire; skipn 10 wire] = wire).
  { cbn [concat]. rewrite app_nil_r. apply firstn_skipn. }
  apply (node_hears_conversation toString_ascii publicDecrypt_2048
           (example_node_listing 2) 0
           (set_hash (Some (str "h1")) (example_peer 64)) 2 (repeat x00 64)
           msgs [firstn 10 wire; skipn 10 wire]).
  - reflexivity.
  - reflexivity.
  - reflexivity.
  - reflexivity.
  - reflexivity.
  - repeat constructor; vm_compute; try discriminate; repeat constructor;
      discriminate.
  - exact Hcut.
  - rewrite Hcut. unfold wire. cbn [msgs map concat fst snd].
    rewrite !blength_app, !frameBytes_length. vm_compute. discriminate.
Defined.

Lemma peer_connected_twice_witness :
  let n := set_peerList [] (example_node_listing 0) in
  let n1 :=
    node_of (connectPeer isIP_dotted_quad privateEncrypt_2048 (APeer 0)
               (str "h1") true n) in
  let r2 :=
    connectPeer isIP_dotted_quad privateEncrypt_2048 (APeer 0) (str "h2")
      true n1 in
  node_peerList (node_of r2) = [(str "h1", 0%nat); (str "h2", 0%nat)]
  /\ nth_error (peers (node_of r2)) 0
     = Some (set_hash (Some (str "h2"))
               (set_hash (Some (str "h1")) (example_peer 64)), 2%nat)
  /\ notified (effects_of r2)
     = [NodePeerConnected 0 (str "h2") example_host]
  /\ snd r2 = Returned tt.
Proof.
  intros n.
  apply (peer_connected_twice isIP_dotted_quad privateEncrypt_2048 n 0
           (set_hash (Some (str "h1")) (example_peer 64)) 0
           (str "h1") (str "h2") true true).
  - reflexivity.
  - reflexivity.
  - vm_compute. discriminate.
Defined.

Lemma listen_once_witness :
  let r1 := listen example_node in
  let r2 := listen (node_of r1) in
  effects_of r1 = [ServerListen 3000]
  /\ snd r1 = Returned tt
  /\ node_server (node_of r1) = Some 3000
  /\ r2 = (node_of r1, [], Returned tt).
Proof.
  destruct (listen_once example_node eq_refl) as [H _].
  exact (H ltac:(vm_compute; discriminate)).
Defined.

Lemma connect_revives_poisoned_witness :
  let message :=
    frameBytes default_header (str "TEST") (utf8_encode (str "hello")) in
  let poisoned :=
    peer_of (_socketEventData toString_ascii publicDecrypt_2048
               (repeat x01 70) (example_listened_peer 64)) in
  let revived := peer_of (connect privateEncrypt_2048 None true poisoned) in
  _inCursor poisoned = blength (repeat x00 64) + 1
  /\ log_of (_socketEventData toString_ascii publicDecrypt_2048 message
               poisoned)
     = [Emit (EvError (str "Peer exceeded max receiving buffer"))]
  /\ log_of (connect privateEncrypt_2048 None true poisoned) = []
  /\ _inCursor revived = 0
  /\ log_of (_socketEventData toString_ascii publicDecrypt_2048 message
               revived)
     = log_of (_processMessage toString_ascii publicDecrypt_2048 message
                 revived).
Proof.
  intros message.
  apply (connect_revives_poisoned toString_ascii privateEncrypt_2048
           publicDecrypt_2048 (example_listened_peer 64) (Accepted 1)
           (repeat x00 64) (repeat x01 70) None true message).
  - reflexivity.
  - reflexivity.
  - reflexivity.
  - vm_compute. reflexivity.
  - reflexivity.
  - apply frameBytes_complete; reflexivity.
  - unfold message. rewrite frameBytes_length. vm_compute. discriminate.
Defined.

Lemma buffer_keeps_residue_witness :
  let d :=
    frame_with_tag default_header (str "PING") [x00; x00; x00; x00] []
      ++ [x01; x02] in
  let q :=
    peer_of (_socketEventData toString_ascii publicDecrypt_2048 d
               (example_peer 64)) in
  snd (frames default_header d) = [x01; x02]
  /\ (exists k, snd (frames default_header d) = skipn k d)
  /\ _inCursor q = blength (snd (frames default_header d))
  /\ exists B',
       _inBuffer q = Some B' /\ blength B' = blength (repeat x00 64)
       /\ firstn (length (snd (frames default_header d))) B'
          = snd (frames default_header d).
Proof.
  intros d q. split; [vm_compute; reflexivity|].
  apply (buffer_keeps_residue toString_ascii publicDecrypt_2048
           (example_peer 64) (repeat x00 64) d).
  - reflexivity.
  - reflexivity.
  - vm_compute. discriminate.
  - vm_compute. reflexivity.
Defined.

Lemma frame_layout_witness :
  let frame :=
    frameBytes default_header (str "TEST") (utf8_encode (str "hello")) in
  exists payload,
    payloadToSend privateEncrypt_2048 (example_peer 64) (str "TEST")
      (Some (DataString (str "hello"))) = Some payload
    /\ blength frame = blength payload + 24
    /\ readUInt32LE frame 0 = Some (_header (example_peer 64))
    /\ Buffer_slice frame 4 16
       = map byte_of (firstn 12 (str "TEST"))
           ++ repeat x00 (12 - length (firstn 12 (str "TEST")))
    /\ readUInt32LE frame 16 = Some (blength payload)
    /\ Buffer_slice frame 20 24 = integrityTag (str "TEST") payload
    /\ skipn 24 frame = payload.
Proof.
  intros frame.
  apply (frame_layout privateEncrypt_2048 (example_peer 64) (str "TEST")
           (Some (DataString (str "hello"))) true frame).
  vm_compute. left. reflexivity.
Defined.

Lemma overflow_unhandled_witness :
  let data := repeat x01 70 in
  _socketEventData toString_ascii publicDecrypt_2048 data (example_peer 64)
  = (example_peer 64, [], Thrown UnhandledError)
  /\ _socketEventData toString_ascii publicDecrypt_2048 data
       (example_listened_peer 64)
     = (set_inCursor 65 (example_listened_peer 64),
        [Emit (EvError (str "Peer exceeded max receiving buffer"))],
        Returned tt).
Proof.
  intros data.
  apply (overflow_unhandled toString_ascii publicDecrypt_2048
           (example_peer 64) (repeat x00 64) data).
  - reflexivity.
  - vm_compute. reflexivity.
  - reflexivity.
Defined.
